(** * StudyGen: the orchestration logic of the study-aid application

    A shallow embedding of the TypeScript sources
      - [src/types/index.ts]              (data model, Ollama gateway, generators),
      - [src/components/quiz-generator.tsx] (quiz runner, [finishQuiz]),
      - [src/components/file-upload.tsx]    (flashcard view, [generateCards]),
      - the to-do list component            ([addTodo], persistence effects),
    together with the JavaScript built-ins they call ([String.prototype.trim],
    [split], the two regular expressions, [JSON.parse], [JSON.stringify],
    [localStorage]).

    Conventions.
      - A JavaScript string is its sequence of UTF-16 code units, [list N].
      - [undefined] is [None] in an [option]; a thrown exception is [Err].
      - A JavaScript number is modelled exactly when it is a safe integer
        ([JInt]); any other numeric literal is kept as its source text
        ([JNumLit]) and its IEEE-754 value is not interpreted.
      - The network, the clock and the random generator are inputs. *)

From Stdlib Require Import ZArith NArith List Lia String Ascii.
From stdpp Require Import base option list gmap.
Import ListNotations.

Local Open Scope N_scope.

(** ** JavaScript strings *)

Module JS.

Definition jstring := list N.

(** Code units of an ASCII literal. *)
Definition u16 (s : string) : jstring :=
  map N_of_ascii (list_ascii_of_string s).

(** Same, with every apostrophe standing for a double quote (code unit 34),
    so that JSON texts can be written as literals. *)
Definition dq (s : string) : jstring :=
  map (fun c => if c =? 39 then 34 else c) (u16 s).

Definition LF : N := 10.
Definition COMMA : N := 44.

(** ECMAScript [WhiteSpace] and [LineTerminator] code units: what the regular
    expression class [\s] matches and what [trim] removes. *)
Definition is_space (c : N) : bool :=
  ((9 <=? c) && (c <=? 13))
  || (c =? 32) || (c =? 160) || (c =? 5760)
  || ((8192 <=? c) && (c <=? 8202))
  || (c =? 8232) || (c =? 8233) || (c =? 8239) || (c =? 8287)
  || (c =? 12288) || (c =? 65279).

(** The class [\d]. *)
Definition is_digit (c : N) : bool := (48 <=? c) && (c <=? 57).

Fixpoint drop_spaces (s : jstring) : jstring :=
  match s with
  | c :: s' => if is_space c then drop_spaces s' else s
  | [] => []
  end.

Definition trimStart (s : jstring) : jstring := drop_spaces s.
Definition trimEnd (s : jstring) : jstring := rev (drop_spaces (rev s)).

(** [String.prototype.trim]. *)
Definition trim (s : jstring) : jstring := trimEnd (trimStart s).

(** ToBoolean on a string: the empty string is the only falsy one. *)
Definition truthy (s : jstring) : bool :=
  match s with [] => false | _ :: _ => true end.

(** [s.split(sep)] for a one-character separator: always at least one
    segment. *)
Fixpoint split_on (sep : N) (s : jstring) : list jstring :=
  match s with
  | [] => [[]]
  | c :: s' =>
      if c =? sep then [] :: split_on sep s'
      else match split_on sep s' with
           | l :: ls => (c :: l) :: ls
           | [] => [[c]]
           end
  end.

(** Decimal digits of a natural number, most significant first. *)
Fixpoint digits_of (fuel : nat) (n : N) : jstring :=
  match fuel with
  | O => []
  | S f =>
      if n <? 10 then [48 + n]
      else digits_of f (n / 10) ++ [48 + n mod 10]
  end.

Definition N_toString (n : N) : jstring :=
  digits_of (S (N.to_nat (N.log2 n))) n.

(** [Number.prototype.toString] on an integer (plain decimal notation, which
    is what JavaScript prints for every integer below 10^21). *)
Definition Z_toString (z : Z) : jstring :=
  match z with
  | Z0 => [48]
  | Zpos p => N_toString (Npos p)
  | Zneg p => 45 :: N_toString (Npos p)
  end.

(** Two decimal digits, three decimal digits, ... with leading zeros. *)
Fixpoint pad_digits (width : nat) (n : N) : jstring :=
  match width with
  | O => []
  | S w => pad_digits w (n / 10) ++ [48 + n mod 10]
  end.

(** Does [needle] occur in [hay]? ([String.prototype.includes]) *)
Fixpoint starts_with (p s : jstring) : bool :=
  match p, s with
  | [], _ => true
  | a :: p', b :: s' => (a =? b) && starts_with p' s'
  | _ :: _, [] => false
  end.

Fixpoint includes (hay needle : jstring) : bool :=
  starts_with needle hay ||
  match hay with
  | [] => false
  | _ :: hay' => includes hay' needle
  end.

End JS.
Export JS.

(** ** Thrown exceptions *)

Inductive result (A : Type) : Type :=
| Ok (a : A)
| Err (message : jstring).
Arguments Ok {A} a.
Arguments Err {A} message.

Definition rbind {A B} (r : result A) (k : A -> result B) : result B :=
  match r with
  | Ok a => k a
  | Err m => Err m
  end.

Notation "x <-! r ;; k" := (rbind r (fun x => k))
  (at level 100, r at next level, right associativity).

(** [try { body } catch (error) { handler }] where the handler ignores the
    caught value. *)
Definition try_catch {A} (body : result A) (handler : result A) : result A :=
  match body with
  | Ok a => Ok a
  | Err _ => handler
  end.

(** ** JavaScript values that occur in the application

    Everything [JSON.parse] can return, plus [Date] objects (identified with
    their time value in milliseconds since the epoch), which the components
    create with [new Date()] and which [JSON.stringify] turns into strings.
    An object is its list of own properties in JavaScript property order. *)

Unset Elimination Schemes.
Inductive jsval : Type :=
| JNull
| JBool (b : bool)
| JInt (z : Z)
| JNumLit (lexeme : jstring)
| JStr (s : jstring)
| JArr (elements : list jsval)
| JObj (properties : list (jstring * jsval))
| JDate (time : Z).
Set Elimination Schemes.

Definition MAX_SAFE_INTEGER : Z := 9007199254740991.

Module Json.

(** *** Property order of ordinary objects *)

Fixpoint digits_value (acc : N) (ds : jstring) : N :=
  match ds with
  | [] => acc
  | d :: ds' => digits_value (10 * acc + (d - 48)) ds'
  end.

(** An array index is a canonical numeric string below 2^32 - 1. *)
Definition array_index (k : jstring) : option N :=
  match k with
  | [] => None
  | d :: ds =>
      if forallb is_digit k && ((d =? 48) && negb (truthy ds) || negb (d =? 48))
         && (length k <=? 10)%nat
      then let i := digits_value 0 k in
           if i <=? 4294967294 then Some i else None
      else None
  end.

Definition jstring_eqb (a b : jstring) : bool := bool_decide (a = b).

Fixpoint has_key (k : jstring) (ps : list (jstring * jsval)) : bool :=
  match ps with
  | [] => false
  | (k', _) :: ps' => jstring_eqb k k' || has_key k ps'
  end.

Fixpoint replace_key (k : jstring) (v : jsval) (ps : list (jstring * jsval))
  : list (jstring * jsval) :=
  match ps with
  | [] => []
  | (k', v') :: ps' =>
      if jstring_eqb k k' then (k', v) :: ps' else (k', v') :: replace_key k v ps'
  end.

(** A new integer key goes before the first property that is not an integer
    key or has a larger index. *)
Fixpoint insert_index (i : N) (k : jstring) (v : jsval)
  (ps : list (jstring * jsval)) : list (jstring * jsval) :=
  match ps with
  | [] => [(k, v)]
  | (k', v') :: ps' =>
      match array_index k' with
      | Some j => if j <? i then (k', v') :: insert_index i k v ps'
                  else (k, v) :: ps
      | None => (k, v) :: ps
      end
  end.

(** [CreateDataProperty(obj, k, v)] followed by reading the own keys:
    integer keys ascending, then string keys in creation order; assigning an
    existing key keeps its place. *)
Definition obj_set (k : jstring) (v : jsval) (ps : list (jstring * jsval))
  : list (jstring * jsval) :=
  if has_key k ps then replace_key k v ps
  else match array_index k with
       | Some i => insert_index i k v ps
       | None => ps ++ [(k, v)]
       end.

Fixpoint own_property (k : jstring) (ps : list (jstring * jsval)) : option jsval :=
  match ps with
  | [] => None
  | (k', v) :: ps' => if jstring_eqb k k' then Some v else own_property k ps'
  end.

(** *** JSON.parse *)

(** JSON whitespace: tab, line feed, carriage return, space. *)
Definition is_json_ws (c : N) : bool :=
  (c =? 9) || (c =? 10) || (c =? 13) || (c =? 32).

Fixpoint skip_ws (s : jstring) : jstring :=
  match s with
  | c :: s' => if is_json_ws c then skip_ws s' else s
  | [] => []
  end.

Fixpoint expect (lit s : jstring) : option jstring :=
  match lit, s with
  | [], _ => Some s
  | a :: lit', b :: s' => if a =? b then expect lit' s' else None
  | _ :: _, [] => None
  end.

Definition hex_value (c : N) : option N :=
  if is_digit c then Some (c - 48)
  else if (97 <=? c) && (c <=? 102) then Some (c - 87)
  else if (65 <=? c) && (c <=? 70) then Some (c - 55)
  else None.

Definition hex4 (a b c d : N) : option N :=
  match hex_value a, hex_value b, hex_value c, hex_value d with
  | Some x, Some y, Some z, Some w => Some (((x * 16 + y) * 16 + z) * 16 + w)
  | _, _, _, _ => None
  end.

(** The characters of a string literal after its opening quote, up to and
    including the closing quote. *)
Fixpoint parse_string_body (s : jstring) : option (jstring * jstring) :=
  match s with
  | [] => None
  | c :: s' =>
      if c =? 34 then Some ([], s')
      else if c =? 92 then
        match s' with
        | [] => None
        | e :: s'' =>
            let simple (u : N) :=
              match parse_string_body s'' with
              | Some (str, r) => Some (u :: str, r)
              | None => None
              end in
            if e =? 34 then simple 34
            else if e =? 92 then simple 92
            else if e =? 47 then simple 47
            else if e =? 98 then simple 8
            else if e =? 102 then simple 12
            else if e =? 110 then simple 10
            else if e =? 114 then simple 13
            else if e =? 116 then simple 9
            else if e =? 117 then
              match s'' with
              | h1 :: h2 :: h3 :: h4 :: s4 =>
                  match hex4 h1 h2 h3 h4, parse_string_body s4 with
                  | Some u, Some (str, r) => Some (u :: str, r)
                  | _, _ => None
                  end
              | _ => None
              end
            else None
        end
      else if c <? 32 then None
      else match parse_string_body s' with
           | Some (str, r) => Some (c :: str, r)
           | None => None
           end
  end.

Fixpoint span_digits (s : jstring) : jstring * jstring :=
  match s with
  | c :: s' =>
      if is_digit c then let (ds, r) := span_digits s' in (c :: ds, r)
      else ([], s)
  | [] => ([], [])
  end.

(** Integer part: a single 0, or a run of digits that starts with 1-9. *)
Definition parse_int_part (s : jstring) : option (jstring * jstring) :=
  match s with
  | c :: s' =>
      if c =? 48 then Some ([48], s')
      else if is_digit c then Some (span_digits s)
      else None
  | [] => None
  end.

(** Optional fraction: the consumed text (empty when absent). *)
Definition parse_frac_part (s : jstring) : option (jstring * jstring) :=
  match s with
  | c :: s' =>
      if c =? 46 then
        match span_digits s' with
        | ([], _) => None
        | (ds, r) => Some (46 :: ds, r)
        end
      else Some ([], s)
  | [] => Some ([], s)
  end.

Definition parse_exp_part (s : jstring) : option (jstring * jstring) :=
  match s with
  | c :: s' =>
      if (c =? 101) || (c =? 69) then
        let (sign, s'') :=
          match s' with
          | g :: t => if (g =? 43) || (g =? 45) then ([g], t) else ([], s')
          | [] => ([], s')
          end in
        match span_digits s'' with
        | ([], _) => None
        | (ds, r) => Some (c :: sign ++ ds, r)
        end
      else Some ([], s)
  | [] => Some ([], s)
  end.

(** Optional minus sign. *)
Definition parse_sign (s : jstring) : bool * jstring :=
  match s with
  | c :: r => if c =? 45 then (true, r) else (false, s)
  | [] => (false, s)
  end.

(** A number literal. A plain integer literal in the safe range becomes
    [JInt]; every other literal is kept as its text. *)
Definition parse_number (s : jstring) : option (jsval * jstring) :=
  let (neg, s1) := parse_sign s in
  match parse_int_part s1 with
  | None => None
  | Some (ip, s2) =>
      match parse_frac_part s2 with
      | None => None
      | Some (fp, s3) =>
          match parse_exp_part s3 with
          | None => None
          | Some (ep, s4) =>
              let magnitude := Z.of_N (digits_value 0 ip) in
              let lexeme := (if neg then [45] else []) ++ ip ++ fp ++ ep in
              match fp, ep with
              | [], [] =>
                  if (magnitude <=? MAX_SAFE_INTEGER)%Z
                  then Some (JInt (if neg then - magnitude else magnitude)%Z, s4)
                  else Some (JNumLit lexeme, s4)
              | _, _ => Some (JNumLit lexeme, s4)
              end
          end
      end
  end.

Definition str_null : jstring := u16 "null".
Definition str_true : jstring := u16 "true".
Definition str_false : jstring := u16 "false".

(** Recursive descent; [fuel] bounds the nesting of calls and is never the
    reason for a failure when it is at least the length of the text
    (lemma [parse_value_fuel]). *)
Fixpoint parse_value (fuel : nat) (s : jstring) : option (jsval * jstring) :=
  match fuel with
  | O => None
  | S f =>
      match skip_ws s with
      | [] => None
      | c :: r =>
          if c =? 110 then
            match expect str_null (c :: r) with
            | Some r' => Some (JNull, r') | None => None end
          else if c =? 116 then
            match expect str_true (c :: r) with
            | Some r' => Some (JBool true, r') | None => None end
          else if c =? 102 then
            match expect str_false (c :: r) with
            | Some r' => Some (JBool false, r') | None => None end
          else if c =? 34 then
            match parse_string_body r with
            | Some (str, r') => Some (JStr str, r') | None => None end
          else if c =? 91 then
            match skip_ws r with
            | [] => None
            | d :: r' =>
                if d =? 93 then Some (JArr [], r') else parse_elements f [] r
            end
          else if c =? 123 then
            match skip_ws r with
            | [] => None
            | d :: r' =>
                if d =? 125 then Some (JObj [], r') else parse_members f [] r
            end
          else if (c =? 45) || is_digit c then parse_number (c :: r)
          else None
      end
  end
with parse_elements (fuel : nat) (acc : list jsval) (s : jstring)
  : option (jsval * jstring) :=
  match fuel with
  | O => None
  | S f =>
      match parse_value f s with
      | None => None
      | Some (v, r) =>
          match skip_ws r with
          | c :: r' =>
              if c =? 44 then parse_elements f (v :: acc) r'
              else if c =? 93 then Some (JArr (rev (v :: acc)), r')
              else None
          | [] => None
          end
      end
  end
with parse_members (fuel : nat) (acc : list (jstring * jsval)) (s : jstring)
  : option (jsval * jstring) :=
  match fuel with
  | O => None
  | S f =>
      match skip_ws s with
      | [] => None
      | q :: r =>
          if q =? 34 then
            match parse_string_body r with
            | None => None
            | Some (k, r1) =>
                match skip_ws r1 with
                | [] => None
                | colon :: r2 =>
                    if colon =? 58 then
                      match parse_value f r2 with
                      | None => None
                      | Some (v, r3) =>
                          match skip_ws r3 with
                          | c :: r4 =>
                              if c =? 44
                              then parse_members f (obj_set k v acc) r4
                              else if c =? 125
                              then Some (JObj (obj_set k v acc), r4)
                              else None
                          | [] => None
                          end
                      end
                    else None
                end
            end
          else None
      end
  end.

(** [JSON.parse(text)]: [None] stands for the thrown [SyntaxError]. *)
Definition parse (text : jstring) : option jsval :=
  match parse_value (S (length text)) text with
  | Some (v, r) => match skip_ws r with [] => Some v | _ :: _ => None end
  | None => None
  end.

(** *** JSON.stringify *)

Definition hex_digit (n : N) : N := if n <? 10 then 48 + n else 87 + n.

(** [\uXXXX] with lowercase hexadecimal digits. *)
Definition unicode_escape (c : N) : jstring :=
  [92; 117; hex_digit (c / 4096 mod 16); hex_digit (c / 256 mod 16);
   hex_digit (c / 16 mod 16); hex_digit (c mod 16)].

Definition is_high_surrogate (c : N) : bool := (55296 <=? c) && (c <=? 56319).
Definition is_low_surrogate (c : N) : bool := (56320 <=? c) && (c <=? 57343).

(** One code unit that is not part of a surrogate pair. *)
Definition quote_unit (c : N) : jstring :=
  if c =? 8 then [92; 98]
  else if c =? 9 then [92; 116]
  else if c =? 10 then [92; 110]
  else if c =? 12 then [92; 102]
  else if c =? 13 then [92; 114]
  else if c =? 34 then [92; 34]
  else if c =? 92 then [92; 92]
  else if (c <? 32) || is_high_surrogate c || is_low_surrogate c
  then unicode_escape c
  else [c].

(** [QuoteJSONString] without the surrounding quotes: a well-formed
    surrogate pair is copied, a lone surrogate is escaped. *)
Fixpoint quote_body (s : jstring) : jstring :=
  match s with
  | [] => []
  | c :: s' =>
      if is_high_surrogate c then
        match s' with
        | d :: s'' =>
            if is_low_surrogate d then c :: d :: quote_body s''
            else quote_unit c ++ quote_body s'
        | [] => quote_unit c
        end
      else quote_unit c ++ quote_body s'
  end.

Definition quote (s : jstring) : jstring := 34 :: quote_body s ++ [34].

Fixpoint join_comma (parts : list jstring) : jstring :=
  match parts with
  | [] => []
  | [p] => p
  | p :: ps => p ++ 44 :: join_comma ps
  end.

(** [Date.prototype.toISOString]: the proleptic Gregorian calendar date of a
    day number, then the fixed layout YYYY-MM-DDTHH:mm:ss.sssZ (expanded
    years outside 0..9999). [None] for an invalid date. *)
Definition civil_from_days (days : Z) : Z * Z * Z :=
  let z := (days + 719468)%Z in
  let era := (z / 146097)%Z in
  let doe := (z - era * 146097)%Z in
  let yoe := ((doe - doe / 1460 + doe / 36524 - doe / 146096) / 365)%Z in
  let doy := (doe - (365 * yoe + yoe / 4 - yoe / 100))%Z in
  let mp := ((5 * doy + 2) / 153)%Z in
  let d := (doy - (153 * mp + 2) / 5 + 1)%Z in
  let m := (if (mp <? 10)%Z then mp + 3 else mp - 9)%Z in
  let y := (yoe + era * 400 + (if (m <=? 2)%Z then 1 else 0))%Z in
  (y, m, d).

Definition toISOString (t : Z) : option jstring :=
  if (Z.abs t <=? 8640000000000000)%Z then
    let days := (t / 86400000)%Z in
    let ms := Z.to_N (t mod 86400000) in
    let '(y, m, d) := civil_from_days days in
    let year :=
      if ((0 <=? y) && (y <=? 9999))%Z then pad_digits 4 (Z.to_N y)
      else (if (y <? 0)%Z then 45 else 43) :: pad_digits 6 (Z.to_N (Z.abs y)) in
    Some (year ++ [45] ++ pad_digits 2 (Z.to_N m) ++ [45]
          ++ pad_digits 2 (Z.to_N d) ++ [84]
          ++ pad_digits 2 (ms / 3600000) ++ [58]
          ++ pad_digits 2 (ms / 60000 mod 60) ++ [58]
          ++ pad_digits 2 (ms / 1000 mod 60) ++ [46]
          ++ pad_digits 3 (ms mod 1000) ++ [90])
  else None.

(** [JSON.stringify(value)] with no indentation. A [Date] is serialised
    through its [toJSON] method; a number kept as text prints as that text. *)
Fixpoint stringify (v : jsval) : jstring :=
  match v with
  | JNull => str_null
  | JBool true => str_true
  | JBool false => str_false
  | JInt z => Z_toString z
  | JNumLit lexeme => lexeme
  | JStr s => quote s
  | JArr l => 91 :: join_comma (map stringify l) ++ [93]
  | JObj ps =>
      123 :: join_comma
               (map (fun kv => quote (fst kv) ++ 58 :: stringify (snd kv)) ps)
          ++ [125]
  | JDate t =>
      match toISOString t with
      | Some iso => quote iso
      | None => str_null
      end
  end.

(** What is left of a value after serialisation: every [Date] replaced by the
    string (or [null]) that [toJSON] gives. *)
Fixpoint to_JSON (v : jsval) : jsval :=
  match v with
  | JArr l => JArr (map to_JSON l)
  | JObj ps => JObj (map (fun kv => (fst kv, to_JSON (snd kv))) ps)
  | JDate t =>
      match toISOString t with
      | Some iso => JStr iso
      | None => JNull
      end
  | _ => v
  end.

End Json.

Export Json.

(** ** Model Gateway ([src/types/index.ts], lines 46-81 and 233-241) *)

Record Request := {
  req_url : jstring;
  req_method : jstring;
  req_headers : list (jstring * jstring);
  req_body : option jstring;
}.

(** What [await fetch(...)] does: reject (endpoint unreachable) or resolve
    with a status code and a body. *)
Inductive FetchOutcome :=
| NetworkError
| Response (status : N) (body : jstring).

(** The environment of a call: the inference server and the browser's
    key-value storage. *)
Record World := {
  fetch : Request -> FetchOutcome;
  localStorage : gmap (list N) (list N);
}.

Definition getItem (key : jstring) (storage : gmap (list N) (list N))
  : option jstring := storage !! key.

Definition setItem (key value : jstring) (storage : gmap (list N) (list N))
  : gmap (list N) (list N) := <[key := value]> storage.

(** [response.ok]. *)
Definition response_ok (status : N) : bool :=
  (200 <=? status) && (status <=? 299).

Definition OLLAMA_BASE_URL : jstring := u16 "http://localhost:11434".

Definition connect_error_message : jstring :=
  u16 "Failed to connect to Ollama. Make sure Ollama is running on localhost:11434".

(** [data.response]: throws on [null]; any other parsed value either has the
    own property or yields [undefined] (no prototype defines [response]). *)
Definition get_response (data : jsval) : result (option jsval) :=
  match data with
  | JNull => Err (u16 "TypeError")
  | JObj ps => Ok (own_property (u16 "response") ps)
  | _ => Ok None
  end.

Definition generate_request (selectedModel prompt : jstring) : Request :=
  {| req_url := OLLAMA_BASE_URL ++ u16 "/api/generate";
     req_method := u16 "POST";
     req_headers := [(u16 "Content-Type", u16 "application/json")];
     req_body := Some (stringify (JObj [(u16 "model", JStr selectedModel);
                                        (u16 "prompt", JStr prompt);
                                        (u16 "stream", JBool false)])) |}.

(** [localStorage.getItem('selectedOllamaModel') || 'llama2']. *)
Definition selectedModel (w : World) : jstring :=
  match getItem (u16 "selectedOllamaModel") (localStorage w) with
  | Some m => if truthy m then m else u16 "llama2"
  | None => u16 "llama2"
  end.

Definition callOllama (w : World) (prompt : jstring) : result (option jsval) :=
  try_catch
    (match fetch w (generate_request (selectedModel w) prompt) with
     | NetworkError => Err (u16 "TypeError: fetch failed")
     | Response status body =>
         if negb (response_ok status)
         then Err (u16 "Ollama API error: " ++ N_toString status)
         else match parse body with
              | None => Err (u16 "SyntaxError")
              | Some data => get_response data
              end
     end)
    (Err connect_error_message).

Definition tags_request : Request :=
  {| req_url := OLLAMA_BASE_URL ++ u16 "/api/tags";
     req_method := u16 "GET";
     req_headers := [];
     req_body := None |}.

Definition checkOllamaConnection (w : World) : result bool :=
  try_catch
    (match fetch w tags_request with
     | NetworkError => Err (u16 "TypeError: fetch failed")
     | Response status _ => Ok (response_ok status)
     end)
    (Ok false).

(** ** Content Transformer ([src/types/index.ts], lines 100-231) *)

Inductive Difficulty := easy | medium | hard.

Definition Difficulty_name (d : Difficulty) : jstring :=
  match d with
  | easy => u16 "easy"
  | medium => u16 "medium"
  | hard => u16 "hard"
  end.

(** [response.match(/\[[\s\S]*\]/)]: the match starts at the first position
    from which it can succeed and, the star being greedy, ends at the last
    closing bracket. *)
Fixpoint through_last_close (s : jstring) : option jstring :=
  match s with
  | [] => None
  | c :: s' =>
      match through_last_close s' with
      | Some m => Some (c :: m)
      | None => if c =? 93 then Some [c] else None
      end
  end.

Fixpoint match_bracketed (s : jstring) : option jstring :=
  match s with
  | [] => None
  | c :: s' =>
      if c =? 91 then
        match through_last_close s' with
        | Some m => Some (c :: m)
        | None => match_bracketed s'
        end
      else match_bracketed s'
  end.

(** [line.replace(/^\d+\.\s*/, '')]. *)
Definition strip_ordinal (line : jstring) : jstring :=
  match span_digits line with
  | ([], _) => line
  | (_ :: _, c :: r) => if c =? 46 then drop_spaces r else line
  | (_ :: _, []) => line
  end.

Definition flashcard (front back : jstring) : jsval :=
  JObj [(u16 "front", JStr front); (u16 "back", JStr back)].

(** The loop [for (let i = 0; i < lines.length; i += 2)]. *)
Fixpoint pair_lines (lines : list jstring) : list jsval :=
  match lines with
  | a :: b :: rest =>
      (if truthy a && truthy b
       then [flashcard (trim (strip_ordinal a)) (trim b)]
       else [])
      ++ pair_lines rest
  | [a] => []
  | [] => []
  end.

Definition manual_flashcards (response : jstring) : jsval :=
  let lines :=
    List.filter (fun line => truthy (trim line)) (split_on LF response) in
  JArr (take 5 (pair_lines lines)).

Definition fallback_flashcards : jsval :=
  JArr [flashcard (u16 "What is the main topic of the provided content?")
          (u16 "The content covers key concepts and information that can be studied and reviewed.");
        flashcard (u16 "What are the key takeaways from this material?")
          (u16 "The material provides important insights and knowledge for understanding the subject matter.")].

Definition flashcard_instructions (d : Difficulty) : jstring :=
  match d with
  | easy => u16 "Create simple, straightforward flashcards focusing on basic facts and definitions."
  | medium => u16 "Create moderately challenging flashcards that require some analysis and understanding."
  | hard => u16 "Create advanced flashcards that require critical thinking, synthesis, and deep understanding."
  end.

Definition flashcard_prompt (content : jstring) (d : Difficulty) : jstring :=
  u16 "Create exactly 5 flashcards from the following content. "
  ++ flashcard_instructions d
  ++ dq "

Format your response as a JSON array with objects containing 'front' and 'back' properties. Each flashcard should have a clear question or prompt on the front and a comprehensive answer on the back.

Content:
" ++ content ++ u16 "

Respond with only the JSON array, no additional text:".

(** [JSON.parse] as the callers see it: a value or a thrown [SyntaxError]. *)
Definition JSON_parse (text : jstring) : result jsval :=
  match parse text with
  | Some v => Ok v
  | None => Err (u16 "SyntaxError")
  end.

(** The receiver of [response.match(...)]: calling [match] on anything but a
    string ([undefined], a number, an object, ...) throws a [TypeError]. *)
Definition string_receiver (response : option jsval) : result jstring :=
  match response with
  | Some (JStr text) => Ok text
  | _ => Err (u16 "TypeError")
  end.

Definition generateFlashcards (w : World) (content : jstring) (difficulty : Difficulty)
  : result jsval :=
  let prompt := flashcard_prompt content difficulty in
  try_catch
    (response <-! callOllama w prompt ;;
     text <-! string_receiver response ;;
     match match_bracketed text with
     | Some jsonMatch => JSON_parse jsonMatch
     | None => Ok (manual_flashcards text)
     end)
    (Ok fallback_flashcards).

Definition mcq (question : jstring) (options : list jstring) (correctAnswer : Z)
  (explanation : jstring) : jsval :=
  JObj [(u16 "question", JStr question);
        (u16 "options", JArr (map JStr options));
        (u16 "correctAnswer", JInt correctAnswer);
        (u16 "explanation", JStr explanation)].

(** Returned when the completion has no bracketed text. *)
Definition fallback_questions : jsval :=
  JArr [mcq (u16 "Based on the provided content, what is the main focus?")
          [u16 "Key concepts and important information";
           u16 "Irrelevant details";
           u16 "Random facts";
           u16 "Unrelated topics"]
          0
          (u16 "The content focuses on key concepts and important information relevant to the subject matter.");
        mcq (u16 "What can be learned from studying this material?")
          [u16 "Nothing useful";
           u16 "Important knowledge and insights";
           u16 "Only basic facts";
           u16 "Confusing information"]
          1
          (u16 "The material provides important knowledge and insights that enhance understanding of the topic.")].

(** Returned from the [catch] block. *)
Definition error_questions : jsval :=
  JArr [mcq (u16 "What is the primary purpose of this study material?")
          [u16 "To provide educational content";
           u16 "To confuse students";
           u16 "To waste time";
           u16 "To provide entertainment"]
          0
          (u16 "The primary purpose is to provide educational content for learning and understanding.")].

Definition mcq_instructions (d : Difficulty) : jstring :=
  match d with
  | easy => u16 "Create straightforward multiple-choice questions focusing on basic facts and recall."
  | medium => u16 "Create moderately challenging questions that require understanding and application."
  | hard => u16 "Create advanced questions requiring analysis, synthesis, and critical thinking."
  end.

Definition mcq_prompt (content : jstring) (d : Difficulty) : jstring :=
  u16 "Create exactly 3 multiple-choice questions from the following content. "
  ++ mcq_instructions d
  ++ dq "

Format your response as a JSON array with objects containing:
- 'question': the question text
- 'options': array of 4 possible answers
- 'correctAnswer': index (0-3) of the correct answer
- 'explanation': explanation of why the answer is correct

Content:
" ++ content ++ u16 "

Respond with only the JSON array, no additional text:".

Definition generateMCQs (w : World) (content : jstring) (difficulty : Difficulty)
  : result jsval :=
  let prompt := mcq_prompt content difficulty in
  try_catch
    (response <-! callOllama w prompt ;;
     text <-! string_receiver response ;;
     match match_bracketed text with
     | Some jsonMatch => JSON_parse jsonMatch
     | None => Ok fallback_questions
     end)
    (Ok error_questions).

(** ** Flashcard view ([src/components/file-upload.tsx], [generateCards]) *)

(** The clock and random readings taken while one record is built:
    [Date.now()], [Math.random().toString(36)] and [new Date()]. *)
Record Reading := {
  now_ms : Z;
  random36 : jstring;
  date_ms : Z;
}.

(** [{...value}]: the own enumerable properties, copied in order. *)
Definition spread (v : jsval) : list (jstring * jsval) :=
  let props :=
    match v with
    | JObj ps => ps
    | JArr l => imap (fun i e => (N_toString (N.of_nat i), e)) l
    | JStr s => imap (fun i c => (N_toString (N.of_nat i), JStr [c])) s
    | _ => []
    end in
  fold_left (fun acc kv => obj_set (fst kv) (snd kv) acc) props [].

(** [tags.split(',').map(tag => tag.trim()).filter(Boolean)]. *)
Definition parse_tags (tags : jstring) : list jstring :=
  List.filter truthy (map trim (split_on COMMA tags)).

Definition with_metadata (tags : jstring) (difficulty : Difficulty)
  (r : Reading) (card : jsval) : jsval :=
  JObj (obj_set (u16 "difficulty") (JStr (Difficulty_name difficulty))
       (obj_set (u16 "createdAt") (JDate (date_ms r))
       (obj_set (u16 "tags") (JArr (map JStr (parse_tags tags)))
       (obj_set (u16 "id") (JStr (Z_toString (now_ms r) ++ random36 r))
       (spread card))))).

Record FlashcardState := {
  fc_inputContent : jstring;
  fc_flashcards : list jsval;
  fc_difficulty : Difficulty;
  fc_tags : jstring;
  fc_processing : bool;
}.

Definition generateCards (w : World) (readings : nat -> Reading)
  (st : FlashcardState) : FlashcardState :=
  if negb (truthy (trim (fc_inputContent st))) then st
  else
    match generateFlashcards w (fc_inputContent st) (fc_difficulty st) with
    | Ok (JArr newCards) =>
        let cardsWithMetadata :=
          imap (fun i card =>
                  with_metadata (fc_tags st) (fc_difficulty st) (readings i) card)
               newCards in
        {| fc_inputContent := [];
           fc_flashcards := cardsWithMetadata ++ fc_flashcards st;
           fc_difficulty := fc_difficulty st;
           fc_tags := [];
           fc_processing := false |}
    | _ =>
        {| fc_inputContent := fc_inputContent st;
           fc_flashcards := fc_flashcards st;
           fc_difficulty := fc_difficulty st;
           fc_tags := fc_tags st;
           fc_processing := false |}
    end.

(** ** Quiz runner ([src/components/quiz-generator.tsx])

    The handlers on a question set of the declared type [MCQuestion], with
    the selections as a map. [Runtime], further down, has them on the values
    as they are at run time; [finishQuiz_typed] shows that the two agree on
    questions of the declared type whose id is not a name that objects
    inherit. *)

Record MCQuestion := {
  mcq_id : jstring;
  mcq_question : jstring;
  mcq_options : list jstring;
  mcq_correctAnswer : Z;
  mcq_explanation : jstring;
  mcq_difficulty : Difficulty;
  mcq_tags : list jstring;
  mcq_createdAt : Z;
}.

Record Answer := {
  questionId : jstring;
  selectedAnswer : Z;
  correct : bool;
}.

Record QuizResult := {
  result_id : jstring;
  score : nat;
  totalQuestions : nat;
  answers : list Answer;
  completedAt : Z;
}.

Record QuizState := {
  questions : list MCQuestion;
  selectedAnswers : gmap (list N) Z;
  showResults : bool;
  quizResults : list QuizResult;
}.

(** [selectedAnswers[question.id] ?? -1]. *)
Definition UNANSWERED : Z := (-1)%Z.

(** [a === b] where [a] may be [undefined] and [b] is a number. *)
Definition strict_equal (a : option Z) (b : Z) : bool :=
  match a with
  | Some x => (x =? b)%Z
  | None => false
  end.

Definition answer_record (selected : gmap (list N) Z) (question : MCQuestion)
  : Answer :=
  {| questionId := mcq_id question;
     selectedAnswer := default UNANSWERED (selected !! mcq_id question);
     correct := strict_equal (selected !! mcq_id question)
                             (mcq_correctAnswer question) |}.

Definition handleAnswerSelect (questionId : jstring) (answerIndex : Z)
  (st : QuizState) : QuizState :=
  {| questions := questions st;
     selectedAnswers := <[questionId := answerIndex]> (selectedAnswers st);
     showResults := showResults st;
     quizResults := quizResults st |}.

Definition finishQuiz (r : Reading) (st : QuizState) : QuizState :=
  let answers :=
    map (answer_record (selectedAnswers st)) (questions st) in
  let score := length (List.filter correct answers) in
  let result :=
    {| result_id := Z_toString (now_ms r);
       score := score;
       totalQuestions := length (questions st);
       answers := answers;
       completedAt := date_ms r |} in
  {| questions := questions st;
     selectedAnswers := selectedAnswers st;
     showResults := true;
     quizResults := result :: quizResults st |}.

(** ** To-do list (the [TodoList] component) *)

Record TodoItem := {
  todo_id : jstring;
  todo_text : jstring;
  todo_completed : bool;
  todo_createdAt : jsval;
}.

Record TodoState := {
  todos : list TodoItem;
  newTodo : jstring;
}.

Definition addTodo (r : Reading) (st : TodoState) : TodoState :=
  if negb (truthy (trim (newTodo st))) then st
  else
    let todo :=
      {| todo_id := Z_toString (now_ms r);
         todo_text := trim (newTodo st);
         todo_completed := false;
         todo_createdAt := JDate (date_ms r) |} in
    {| todos := todo :: todos st; newTodo := [] |}.

(** ** Study Store: the persistence effects of the components *)

Definition TodoItem_value (t : TodoItem) : jsval :=
  JObj [(u16 "id", JStr (todo_id t));
        (u16 "text", JStr (todo_text t));
        (u16 "completed", JBool (todo_completed t));
        (u16 "createdAt", todo_createdAt t)].

Definition Answer_value (a : Answer) : jsval :=
  JObj [(u16 "questionId", JStr (questionId a));
        (u16 "selectedAnswer", JInt (selectedAnswer a));
        (u16 "correct", JBool (correct a))].

Definition QuizResult_value (r : QuizResult) : jsval :=
  JObj [(u16 "id", JStr (result_id r));
        (u16 "score", JInt (Z.of_nat (score r)));
        (u16 "totalQuestions", JInt (Z.of_nat (totalQuestions r)));
        (u16 "answers", JArr (map Answer_value (answers r)));
        (u16 "completedAt", JDate (completedAt r))].

(** [localStorage.setItem(key, JSON.stringify(collection))]. *)
Definition save_collection (key : jstring) (collection : jsval)
  (storage : gmap (list N) (list N)) : gmap (list N) (list N) :=
  setItem key (stringify collection) storage.

(** The loading effect: [const saved = localStorage.getItem(key);
    if (saved) { try { setState(JSON.parse(saved)) } catch { log } }].
    The result is the component state afterwards. *)
Definition load_collection (key : jstring) (storage : gmap (list N) (list N))
  (state : jsval) : jsval :=
  match getItem key storage with
  | Some saved =>
      if truthy saved then
        match JSON_parse saved with
        | Ok v => v
        | Err _ => state
        end
      else state
  | None => state
  end.

Definition TODOS_KEY : jstring := u16 "todos".
Definition QUESTIONS_KEY : jstring := u16 "mcQuestions".
Definition RESULTS_KEY : jstring := u16 "quizResults".
Definition FLASHCARDS_KEY : jstring := u16 "flashcards".

(** ** Values that survive serialisation

    The values the components hold are built by JavaScript itself, so their
    objects list their keys in property order and their numbers are doubles.
    [storable] singles out, among the terms of [jsval], those that are such
    values and whose numbers are safe integers: the domain on which the
    model of [JSON.stringify] is exact. *)

Definition index_below (i : N) (k : jstring) : bool :=
  match array_index k with
  | Some j => j <? i
  | None => false
  end.

(** A key that [obj_set] would add at the end of an object whose keys are
    [earlier]: it is new, and if it is an integer index then every earlier
    key is a smaller integer index. *)
Definition appendable (k : jstring) (earlier : list jstring) : bool :=
  negb (existsb (jstring_eqb k) earlier)
  && match array_index k with
     | Some i => forallb (index_below i) earlier
     | None => true
     end.

Fixpoint property_order (earlier keys : list jstring) : bool :=
  match keys with
  | [] => true
  | k :: keys' => appendable k earlier && property_order (earlier ++ [k]) keys'
  end.

Fixpoint storable (v : jsval) : bool :=
  match v with
  | JInt z => (Z.abs z <=? MAX_SAFE_INTEGER)%Z
  | JNumLit _ => false
  | JArr l => forallb storable l
  | JObj ps =>
      property_order [] (map fst ps)
      && forallb (fun kv => storable (snd kv)) ps
  | _ => true
  end.

(** No [Date] object inside: the value is plain JSON data already. *)
Fixpoint plain (v : jsval) : bool :=
  match v with
  | JDate _ => false
  | JArr l => forallb plain l
  | JObj ps => forallb (fun kv => plain (snd kv)) ps
  | _ => true
  end.

(** Fuel that [parse_value] uses on the text of a value. *)
Fixpoint nesting (v : jsval) : nat :=
  match v with
  | JArr l => S (fold_right (fun e n => S (nesting e + n)) O l)
  | JObj ps => S (fold_right (fun kv n => S (nesting (snd kv) + n)) O ps)
  | _ => 1%nat
  end.

(** What follows a value inside a text written by [stringify]: the end of
    the text, a comma, or a closing bracket or brace. *)
Definition delimiter (rest : jstring) : bool :=
  match rest with
  | [] => true
  | c :: _ => (c =? 44) || (c =? 93) || (c =? 125)
  end.

(** Structural induction on values, through the lists inside arrays and
    objects. *)
Section jsval_induction.

Variable P : jsval -> Prop.
Hypothesis P_null : P JNull.
Hypothesis P_bool : forall b, P (JBool b).
Hypothesis P_int : forall z, P (JInt z).
Hypothesis P_numlit : forall lexeme, P (JNumLit lexeme).
Hypothesis P_str : forall s, P (JStr s).
Hypothesis P_arr : forall l, Forall P l -> P (JArr l).
Hypothesis P_obj : forall ps, Forall (fun kv => P (snd kv)) ps -> P (JObj ps).
Hypothesis P_date : forall t, P (JDate t).

Fixpoint jsval_ind (v : jsval) : P v :=
  match v with
  | JNull => P_null
  | JBool b => P_bool b
  | JInt z => P_int z
  | JNumLit lexeme => P_numlit lexeme
  | JStr s => P_str s
  | JArr l =>
      P_arr l
        ((fix elements (l : list jsval) : Forall P l :=
            match l with
            | [] => @List.Forall_nil _ P
            | e :: l' =>
                @List.Forall_cons _ P e l' (jsval_ind e) (elements l')
            end) l)
  | JObj ps =>
      P_obj ps
        ((fix members (ps : list (jstring * jsval))
            : Forall (fun kv => P (snd kv)) ps :=
            match ps with
            | [] => @List.Forall_nil _ (fun kv => P (snd kv))
            | kv :: ps' =>
                @List.Forall_cons _ (fun kv => P (snd kv)) kv ps'
                  (jsval_ind (snd kv)) (members ps')
            end) ps)
  | JDate t => P_date t
  end.

End jsval_induction.

(** The statements of the parser lemmas. *)

Definition digit_free_head (rest : jstring) : Prop :=
  match rest with
  | [] => True
  | c :: _ => is_digit c = false
  end.

Definition round_trips (v : jsval) : Prop :=
  storable v = true ->
  forall fuel rest,
    (nesting v <= fuel)%nat -> delimiter rest = true ->
    parse_value fuel (stringify v ++ rest) = Some (to_JSON v, rest).

Definition elements_fuel (l : list jsval) : nat :=
  fold_right (fun e n => S (nesting e + n)) O l.

Definition members_fuel (ps : list (jstring * jsval)) : nat :=
  fold_right (fun kv n => S (nesting (snd kv) + n)) O ps.

Definition member_text (kv : jstring * jsval) : jstring :=
  quote (fst kv) ++ 58 :: stringify (snd kv).

Definition enough_fuel {A} (parser : nat -> A -> jstring -> option (jsval * jstring))
  (n : nat) : Prop :=
  forall a s v r,
    parser n a s = Some (v, r) ->
    (length r < length s)%nat
    /\ forall m, (length s - length r <= m)%nat -> parser m a s = Some (v, r).

(** ** Vocabulary of the statements *)

(** A server that answers every generation request with status 200 and the
    given completion text, in the wire format of the Ollama API. *)
Definition ollama_body (completion : jstring) : jstring :=
  stringify (JObj [(u16 "response", JStr completion); (u16 "done", JBool true)]).

Definition world_completing (completion : jstring) : World :=
  {| fetch := fun _ => Response 200 (ollama_body completion);
     localStorage := ∅ |}.

Definition world_unreachable : World :=
  {| fetch := fun _ => NetworkError; localStorage := ∅ |}.

Definition world_status (status : N) : World :=
  {| fetch := fun _ => Response status (u16 "Internal Server Error");
     localStorage := ∅ |}.

Definition string_property (k : jstring) (v : jsval) : option jstring :=
  match v with
  | JObj ps =>
      match own_property k ps with
      | Some (JStr s) => Some s
      | _ => None
      end
  | _ => None
  end.

(** A flashcard record as the specification promises it: an object whose
    [front] and [back] are non-empty strings. *)
Definition well_formed_flashcard (v : jsval) : bool :=
  match string_property (u16 "front") v, string_property (u16 "back") v with
  | Some f, Some b => truthy f && truthy b
  | _, _ => false
  end.

(** The promised result of [generateFlashcards]: one to five well-formed
    records. *)
Definition flashcards_as_promised (r : result jsval) : bool :=
  match r with
  | Ok (JArr l) =>
      (1 <=? length l)%nat && (length l <=? 5)%nat
      && forallb well_formed_flashcard l
  | _ => false
  end.

(** A quiz question as the specification promises it: exactly four options
    and a correct-answer index between 0 and 3. *)
Definition well_formed_question (v : jsval) : bool :=
  match v with
  | JObj ps =>
      match own_property (u16 "options") ps,
            own_property (u16 "correctAnswer") ps with
      | Some (JArr opts), Some (JInt i) =>
          (length opts =? 4)%nat && (0 <=? i)%Z && (i <=? 3)%Z
      | _, _ => false
      end
  | _ => false
  end.

Definition questions_as_promised (r : result jsval) : bool :=
  match r with
  | Ok (JArr l) => (1 <=? length l)%nat && forallb well_formed_question l
  | _ => false
  end.

(** A record that carries the metadata added by the flashcard view. *)
Definition has_metadata (difficulty : Difficulty) (v : jsval) : bool :=
  match v with
  | JObj ps =>
      match own_property (u16 "id") ps, own_property (u16 "createdAt") ps,
            own_property (u16 "difficulty") ps with
      | Some _, Some _, Some (JStr d) =>
          jstring_eqb d (Difficulty_name difficulty)
      | _, _, _ => false
      end
  | _ => false
  end.

(** What claim C4 says of the value returned by [generateFlashcards]: two
    records, each carrying an identifier, a timestamp and the difficulty. *)
Definition two_augmented_cards (difficulty : Difficulty) (r : result jsval) : bool :=
  match r with
  | Ok (JArr l) => (length l =? 2)%nat && forallb (has_metadata difficulty) l
  | _ => false
  end.

(** A record made by the line-pairing fallback. *)
Definition paired_card (c : jsval) : Prop :=
  exists front back, c = flashcard front back /\ back <> [].

(** ** The completions of the scenarios *)

(** [[{"front":"Q1","back":"A1"},{"front":"Q2","back":"A2"}]] *)
Definition two_cards_json : jstring :=
  dq "[{'front':'Q1','back':'A1'},{'front':'Q2','back':'A2'}]".

(** Four lines: "1. Q1", "A1", "2. Q2", "A2". *)
Definition numbered_lines : jstring :=
  u16 "1. Q1" ++ [LF] ++ u16 "A1" ++ [LF] ++ u16 "2. Q2" ++ [LF] ++ u16 "A2".

Definition two_cards : list jsval :=
  [flashcard (u16 "Q1") (u16 "A1"); flashcard (u16 "Q2") (u16 "A2")].

(** A flashcard record after [generateCards] has added its metadata. *)
Definition stored_card (front back id : jstring) (tags : list jstring)
  (created : Z) (difficulty : Difficulty) : jsval :=
  JObj [(u16 "front", JStr front);
        (u16 "back", JStr back);
        (u16 "id", JStr id);
        (u16 "tags", JArr (map JStr tags));
        (u16 "createdAt", JDate created);
        (u16 "difficulty", JStr (Difficulty_name difficulty))].

(** ** Sample data for the witnesses *)

Definition sample_question (id : jstring) (answer : Z) : MCQuestion :=
  {| mcq_id := id;
     mcq_question := u16 "Which one?";
     mcq_options := [u16 "a"; u16 "b"; u16 "c"; u16 "d"];
     mcq_correctAnswer := answer;
     mcq_explanation := u16 "because";
     mcq_difficulty := medium;
     mcq_tags := [];
     mcq_createdAt := 1700000000000 |}.

(** Three questions, the first answered rightly, the second wrongly, the
    third not at all. *)
Definition sample_quiz : QuizState :=
  handleAnswerSelect (u16 "q2") 3
    (handleAnswerSelect (u16 "q1") 0
       {| questions := [sample_question (u16 "q1") 0;
                        sample_question (u16 "q2") 1;
                        sample_question (u16 "q3") 2];
          selectedAnswers := ∅;
          showResults := false;
          quizResults := [] |}).

Definition sample_reading : Reading :=
  {| now_ms := 1700000000000; random36 := u16 "0.k3j9x"; date_ms := 1700000000001 |}.

Definition sample_cards_state : FlashcardState :=
  {| fc_inputContent := u16 "Photosynthesis turns light into sugar.";
     fc_flashcards := [];
     fc_difficulty := hard;
     fc_tags := u16 "biology, chapter1";
     fc_processing := false |}.

Definition sample_todos : TodoState :=
  addTodo {| now_ms := 1700000000500; random36 := u16 "0.9zq1"; date_ms := 1700000000500 |}
    {| todos := todos (addTodo sample_reading
                         {| todos := []; newTodo := u16 " read chapter 1 " |});
       newTodo := u16 "solve exercise 2" |}.

(** * The remaining operations of the components *)

(** ** To-do list: toggling, deleting, clearing *)

(** [todo.id === id] on two strings. *)
Definition same_id (a b : jstring) : bool := jstring_eqb a b.

(** [{ ...todo, completed: !todo.completed }]. *)
Definition toggled (todo : TodoItem) : TodoItem :=
  {| todo_id := todo_id todo;
     todo_text := todo_text todo;
     todo_completed := negb (todo_completed todo);
     todo_createdAt := todo_createdAt todo |}.

Definition toggleTodo (id : jstring) (st : TodoState) : TodoState :=
  {| todos := map (fun todo => if same_id (todo_id todo) id then toggled todo else todo)
                  (todos st);
     newTodo := newTodo st |}.

Definition deleteTodo (id : jstring) (st : TodoState) : TodoState :=
  {| todos := List.filter (fun todo => negb (same_id (todo_id todo) id)) (todos st);
     newTodo := newTodo st |}.

(** [todos.filter(todo => todo.completed).length]. *)
Definition completedCount (st : TodoState) : nat :=
  length (List.filter todo_completed (todos st)).

(** The "Clear Completed" button:
    [setTodos(prev => prev.filter(todo => !todo.completed))]. *)
Definition clearCompleted (st : TodoState) : TodoState :=
  {| todos := List.filter (fun todo => negb (todo_completed todo)) (todos st);
     newTodo := newTodo st |}.

(** [handleKeyPress]: the Enter key adds the item, any other key does
    nothing. *)
Definition handleKeyPress (key : jstring) (r : Reading) (st : TodoState)
  : TodoState :=
  if jstring_eqb key (u16 "Enter") then addTodo r st else st.

(** The saving effect of one mounted [TodoList]. *)
Definition TodoList_save (st : TodoState) (storage : gmap (list N) (list N))
  : gmap (list N) (list N) :=
  save_collection TODOS_KEY (JArr (map TodoItem_value (todos st))) storage.

(** Typing in the input field: [onChange={(e) => setNewTodo(e.target.value)}]. *)
Definition setNewTodo (text : jstring) (st : TodoState) : TodoState :=
  {| todos := todos st; newTodo := text |}.

(** ** Quiz view: generating questions
    ([src/components/quiz-generator.tsx], [generateQuestions])

    The fields of the component state that [generateQuestions] reads and
    writes; the questions are the values as they are at run time. *)

Record QuestionsState := {
  qs_inputContent : jstring;
  qs_questions : list jsval;
  qs_difficulty : Difficulty;
  qs_tags : jstring;
  qs_processing : bool;
}.

Definition generateQuestions (w : World) (readings : nat -> Reading)
  (st : QuestionsState) : QuestionsState :=
  if negb (truthy (trim (qs_inputContent st))) then st
  else
    match generateMCQs w (qs_inputContent st) (qs_difficulty st) with
    | Ok (JArr newQuestions) =>
        let questionsWithMetadata :=
          imap (fun i question =>
                  with_metadata (qs_tags st) (qs_difficulty st) (readings i) question)
               newQuestions in
        {| qs_inputContent := [];
           qs_questions := questionsWithMetadata ++ qs_questions st;
           qs_difficulty := qs_difficulty st;
           qs_tags := [];
           qs_processing := false |}
    | _ =>
        {| qs_inputContent := qs_inputContent st;
           qs_questions := qs_questions st;
           qs_difficulty := qs_difficulty st;
           qs_tags := qs_tags st;
           qs_processing := false |}
    end.

Definition sample_questions_state : QuestionsState :=
  {| qs_inputContent := u16 "Mitochondria are the powerhouse of the cell.";
     qs_questions := [];
     qs_difficulty := easy;
     qs_tags := u16 "biology";
     qs_processing := false |}.

(** ** Completions in general *)

(** Lines joined by line feeds. *)
Fixpoint join_lines (lines : list jstring) : jstring :=
  match lines with
  | [] => []
  | [l] => l
  | l :: ls => l ++ LF :: join_lines ls
  end.

(** The lines of a completion that lists cards as a front line followed by a
    back line. *)
Definition card_lines (pairs : list (jstring * jstring)) : list jstring :=
  flat_map (fun p => [fst p; snd p]) pairs.

(** A line as the line-pairing fallback reads it whole: not blank, without
    whitespace at its ends, without a line feed or an opening bracket. *)
Definition clean_line (line : jstring) : Prop :=
  line <> [] /\ trim line = line /\ ~ In LF line /\ ~ In 91 line.

(** ** Quiz view: running a quiz
    ([src/components/quiz-generator.tsx], lines 94-157 and 232-290) *)

(** The quiz of the claims together with the two remaining fields of the
    component state that the quiz run uses. *)
Record QuizSession := {
  quiz : QuizState;
  quizStarted : bool;
  currentQuestionIndex : nat;
}.

Definition startQuiz (s : QuizSession) : QuizSession :=
  {| quiz := {| questions := questions (quiz s);
                selectedAnswers := ∅;
                showResults := false;
                quizResults := quizResults (quiz s) |};
     quizStarted := true;
     currentQuestionIndex := 0 |}.

(** [if (currentQuestionIndex < questions.length - 1)], on integers: the
    right-hand side is -1 for an empty question set. *)
Definition nextQuestion (r : Reading) (s : QuizSession) : QuizSession :=
  if (Z.of_nat (currentQuestionIndex s)
      <? Z.of_nat (length (questions (quiz s))) - 1)%Z
  then {| quiz := quiz s;
          quizStarted := quizStarted s;
          currentQuestionIndex := S (currentQuestionIndex s) |}
  else {| quiz := finishQuiz r (quiz s);
          quizStarted := quizStarted s;
          currentQuestionIndex := currentQuestionIndex s |}.

Definition prevQuestion (s : QuizSession) : QuizSession :=
  if (0 <? currentQuestionIndex s)%nat
  then {| quiz := quiz s;
          quizStarted := quizStarted s;
          currentQuestionIndex := currentQuestionIndex s - 1 |}
  else s.

Definition resetQuiz (s : QuizSession) : QuizSession :=
  {| quiz := {| questions := questions (quiz s);
                selectedAnswers := ∅;
                showResults := false;
                quizResults := quizResults (quiz s) |};
     quizStarted := false;
     currentQuestionIndex := 0 |}.

Definition sample_session : QuizSession :=
  {| quiz := {| questions := [sample_question (u16 "q1") 0;
                              sample_question (u16 "q2") 1];
                selectedAnswers := ∅;
                showResults := false;
                quizResults := [] |};
     quizStarted := false;
     currentQuestionIndex := 0 |}.

(** ** Model Gateway: the installed models and the stored selection
    ([src/types/index.ts], lines 243-257; [src/components/ollama-status.tsx],
    lines 43-46) *)

(** [value.key] for a key that no prototype defines: throws on [null]. *)
Definition get_property (key : jstring) (value : jsval) : result (option jsval) :=
  match value with
  | JNull => Err (u16 "TypeError")
  | JObj ps => Ok (own_property key ps)
  | _ => Ok None
  end.

(** [models.map((model: any) => model.name)]. *)
Fixpoint map_names (models : list jsval) : result (list (option jsval)) :=
  match models with
  | [] => Ok []
  | model :: rest =>
      name <-! get_property (u16 "name") model ;;
      names <-! map_names rest ;;
      Ok (name :: names)
  end.

Definition DEFAULT_MODELS : list (option jsval) := [Some (JStr (u16 "llama2"))].

(** [data.models?.map(...) || []]: a missing or [null] list gives the empty
    array, an array is mapped, and anything else has no [map] to call. *)
Definition getAvailableModels (w : World) : result (list (option jsval)) :=
  try_catch
    (match fetch w tags_request with
     | NetworkError => Err (u16 "TypeError: fetch failed")
     | Response status body =>
         if negb (response_ok status) then Err (u16 "Failed to fetch models")
         else
           data <-! JSON_parse body ;;
           models <-! get_property (u16 "models") data ;;
           match models with
           | None => Ok []
           | Some JNull => Ok []
           | Some (JArr l) => map_names l
           | Some _ => Err (u16 "TypeError")
           end
     end)
    (Ok DEFAULT_MODELS).

(** The body of a well-formed answer of [/api/tags]. *)
Definition tags_body (names : list jstring) : jstring :=
  stringify
    (JObj [(u16 "models",
            JArr (map (fun name => JObj [(u16 "name", JStr name)]) names))]).

Definition world_with_models (names : list jstring) : World :=
  {| fetch := fun _ => Response 200 (tags_body names); localStorage := ∅ |}.

(** The saving effect of [OllamaStatus]:
    [localStorage.setItem('selectedOllamaModel', selectedModel)]. *)
Definition OllamaStatus_save (model : jstring) (storage : gmap (list N) (list N))
  : gmap (list N) (list N) :=
  setItem (u16 "selectedOllamaModel") model storage.

(** ** Notes ([src/types/index.ts], lines 83-98) *)

Inductive NoteStyle := bullet | detailed | condensed.

Definition styleInstructions (style : NoteStyle) : jstring :=
  match style with
  | bullet => u16 "Create concise bullet-point study notes from the following content. Use clear headings and organize information hierarchically with bullet points. Focus on key concepts, important details, and main takeaways. Format with markdown headers and bullet points."
  | detailed => u16 "Create comprehensive, detailed study notes from the following content. Include thorough explanations, examples, and context. Organize with clear sections and subsections. Provide in-depth coverage of all important concepts with supporting details and explanations."
  | condensed => u16 "Create an ultra-condensed summary from the following content. Focus only on the most essential information. Use minimal text while capturing all critical points. Format as a brief, scannable summary with key facts and takeaways."
  end.

Definition notes_prompt (content : jstring) (style : NoteStyle) : jstring :=
  styleInstructions style ++ u16 "

Content to process:
" ++ content ++ u16 "

Please generate well-structured study notes in the requested style:".

(** No [try] here: a failure of the gateway is the caller's to handle. *)
Definition generateNotes (w : World) (content : jstring) (style : NoteStyle)
  : result (option jsval) :=
  callOllama w (notes_prompt content style).

(** ** Notes ([NoteData] of [src/types/index.ts]) *)

(** ['file' | 'text']. *)
Inductive SourceType := sourceFile | sourceText.

(** A note as the components build it. [content] is what the gateway
    returned, hence any value or [undefined]; the two dates are [Date]
    objects in a fresh note and strings in a note read back from storage. *)
Record NoteData := {
  note_id : jstring;
  note_title : jstring;
  note_content : option jsval;
  note_style : NoteStyle;
  note_tags : list jstring;
  note_createdAt : jsval;
  note_updatedAt : jsval;
  note_sourceType : SourceType;
  note_originalFileName : option jstring;
}.

Definition NoteStyle_name (style : NoteStyle) : jstring :=
  match style with
  | bullet => u16 "bullet"
  | detailed => u16 "detailed"
  | condensed => u16 "condensed"
  end.

Definition SourceType_name (source : SourceType) : jstring :=
  match source with
  | sourceFile => u16 "file"
  | sourceText => u16 "text"
  end.

(** The note as a value, keys in the order of the object literals of
    [generateFullNotes] and [processFiles]; a property that is [undefined]
    is left out, as [JSON.stringify] leaves it out. *)
Definition NoteData_value (note : NoteData) : jsval :=
  JObj ([(u16 "id", JStr (note_id note));
         (u16 "title", JStr (note_title note))]
        ++ match note_content note with
           | Some content => [(u16 "content", content)]
           | None => []
           end
        ++ [(u16 "style", JStr (NoteStyle_name (note_style note)));
            (u16 "tags", JArr (map JStr (note_tags note)));
            (u16 "createdAt", note_createdAt note);
            (u16 "updatedAt", note_updatedAt note);
            (u16 "sourceType", JStr (SourceType_name (note_sourceType note)))]
        ++ match note_originalFileName note with
           | Some name => [(u16 "originalFileName", JStr name)]
           | None => []
           end).

(** ** Text input ([src/components/text-input.tsx], [generateFullNotes])

    The fields of the component state that [generateFullNotes] reads and
    writes. *)
Record TextInputState := {
  ti_inputText : jstring;
  ti_noteStyle : NoteStyle;
  ti_generatedContent : option jsval;
  ti_tags : jstring;
  ti_processing : bool;
}.

(** [inputText.slice(0, 50) + (inputText.length > 50 ? '...' : '')]. *)
Definition note_title_of (inputText : jstring) : jstring :=
  take 50 inputText
  ++ (if (50 <? length inputText)%nat then u16 "..." else []).

(** The state after the handler has run to its end, and the note handed to
    [onNotesGenerated], if any. [created] is read by [Date.now()] and the
    first [new Date()], [updated] by the second [new Date()]. *)
Definition generateFullNotes (w : World) (created updated : Reading)
  (st : TextInputState) : TextInputState * option NoteData :=
  if negb (truthy (trim (ti_inputText st))) then (st, None)
  else
    match generateNotes w (ti_inputText st) (ti_noteStyle st) with
    | Ok notes =>
        let noteData :=
          {| note_id := Z_toString (now_ms created);
             note_title := note_title_of (ti_inputText st);
             note_content := notes;
             note_style := ti_noteStyle st;
             note_tags := parse_tags (ti_tags st);
             note_createdAt := JDate (date_ms created);
             note_updatedAt := JDate (date_ms updated);
             note_sourceType := sourceText;
             note_originalFileName := None |} in
        ({| ti_inputText := ti_inputText st;
            ti_noteStyle := ti_noteStyle st;
            ti_generatedContent := notes;
            ti_tags := ti_tags st;
            ti_processing := false |},
         Some noteData)
    | Err _ =>
        ({| ti_inputText := ti_inputText st;
            ti_noteStyle := ti_noteStyle st;
            ti_generatedContent := ti_generatedContent st;
            ti_tags := ti_tags st;
            ti_processing := false |},
         None)
    end.

Definition sample_text_input : TextInputState :=
  {| ti_inputText := u16 "Mitochondria are the site of cellular respiration in eukaryotes.";
     ti_noteStyle := condensed;
     ti_generatedContent := Some (JStr []);
     ti_tags := u16 "biology, , cells ";
     ti_processing := false |}.

(** ** File upload ([src/components/file-upload.tsx], [FileUpload]) *)

(** A dropped file: its name, its MIME type and what [file.text()] gives,
    which is a rejection when the file cannot be read. *)
Record File := {
  file_name : jstring;
  file_type : jstring;
  file_text : result jstring;
}.

(** The identifier and dates that the mount effect stores once. *)
Record NoteMeta := {
  meta_id : jstring;
  meta_createdAt : Z;
  meta_updatedAt : Z;
}.

(** The component state without [progress], which only timers drive. *)
Record FileUploadState := {
  fu_uploadedFiles : list File;
  fu_processing : bool;
  fu_noteStyle : NoteStyle;
  fu_generatedContent : option jsval;
  fu_tags : jstring;
  fu_noteMeta : option NoteMeta;
}.

(** The mount effect: [setNoteMeta({ id: Date.now().toString(),
    createdAt: new Date(), updatedAt: new Date() })]. *)
Definition FileUpload_mount (created updated : Reading) (st : FileUploadState)
  : FileUploadState :=
  {| fu_uploadedFiles := fu_uploadedFiles st;
     fu_processing := fu_processing st;
     fu_noteStyle := fu_noteStyle st;
     fu_generatedContent := fu_generatedContent st;
     fu_tags := fu_tags st;
     fu_noteMeta := Some {| meta_id := Z_toString (now_ms created);
                            meta_createdAt := date_ms created;
                            meta_updatedAt := date_ms updated |} |}.

Definition with_files (files : list File) (st : FileUploadState) : FileUploadState :=
  {| fu_uploadedFiles := files;
     fu_processing := fu_processing st;
     fu_noteStyle := fu_noteStyle st;
     fu_generatedContent := fu_generatedContent st;
     fu_tags := fu_tags st;
     fu_noteMeta := fu_noteMeta st |}.

(** [setUploadedFiles((prev) => [...prev, ...acceptedFiles])]. *)
Definition onDrop (acceptedFiles : list File) (st : FileUploadState) : FileUploadState :=
  with_files (fu_uploadedFiles st ++ acceptedFiles) st.

(** [prev.filter((_, i) => i !== index)]. *)
Definition remove_at {A} (index : nat) (prev : list A) : list A :=
  map snd (List.filter (fun entry => negb (fst entry =? index)%nat)
                       (imap (fun i file => (i, file)) prev)).

Definition removeFile (index : nat) (st : FileUploadState) : FileUploadState :=
  with_files (remove_at index (fu_uploadedFiles st)) st.

(** What one file contributes: its text when it is plain text, a fixed
    sentence around its name otherwise. *)
Definition file_content (file : File) : result jstring :=
  if jstring_eqb (file_type file) (u16 "text/plain") then file_text file
  else Ok (u16 "Content from " ++ file_name file
           ++ u16 ": This is simulated content for demonstration purposes. In a real implementation, this would contain the actual extracted text from the PDF or Word document.").

(** [Promise.all] over the files: the contents in order, or the rejection. *)
Fixpoint file_contents (files : list File) : result (list jstring) :=
  match files with
  | [] => Ok []
  | file :: rest =>
      match file_content file, file_contents rest with
      | Ok content, Ok contents => Ok (content :: contents)
      | Err message, _ => Err message
      | Ok _, Err message => Err message
      end
  end.

(** [parts.join(sep)]. *)
Fixpoint join (sep : jstring) (parts : list jstring) : jstring :=
  match parts with
  | [] => []
  | [part] => part
  | part :: rest => part ++ sep ++ join sep rest
  end.

Definition upload_title (files : list File) : jstring :=
  match files with
  | [file] => file_name file
  | _ => u16 "Notes from " ++ N_toString (N.of_nat (length files)) ++ u16 " files"
  end.

(** The state after the handler has run to its end, and the note handed to
    [onNotesGenerated], if any. *)
Definition processFiles (w : World) (st : FileUploadState)
  : FileUploadState * option NoteData :=
  match fu_uploadedFiles st with
  | [] => (st, None)
  | _ :: _ =>
      let files := fu_uploadedFiles st in
      match (fileContents <-! file_contents files ;;
             generateNotes w (join [LF; LF] fileContents) (fu_noteStyle st)) with
      | Ok notes =>
          let noteData :=
            {| note_id := match fu_noteMeta st with
                          | Some meta =>
                              if truthy (meta_id meta) then meta_id meta
                              else u16 "temp-id"
                          | None => u16 "temp-id"
                          end;
               note_title := upload_title files;
               note_content := notes;
               note_style := fu_noteStyle st;
               note_tags := parse_tags (fu_tags st);
               note_createdAt := match fu_noteMeta st with
                                 | Some meta => JDate (meta_createdAt meta)
                                 | None => JDate 0
                                 end;
               note_updatedAt := match fu_noteMeta st with
                                 | Some meta => JDate (meta_updatedAt meta)
                                 | None => JDate 0
                                 end;
               note_sourceType := sourceFile;
               note_originalFileName := match files with
                                        | [file] => Some (file_name file)
                                        | _ => None
                                        end |} in
          ({| fu_uploadedFiles := files;
              fu_processing := false;
              fu_noteStyle := fu_noteStyle st;
              fu_generatedContent := notes;
              fu_tags := fu_tags st;
              fu_noteMeta := fu_noteMeta st |},
           Some noteData)
      | Err _ =>
          ({| fu_uploadedFiles := files;
              fu_processing := false;
              fu_noteStyle := fu_noteStyle st;
              fu_generatedContent := fu_generatedContent st;
              fu_tags := fu_tags st;
              fu_noteMeta := fu_noteMeta st |},
           None)
      end
  end.

Definition sample_files (slides : result jstring) : list File :=
  [{| file_name := u16 "cells.txt"; file_type := u16 "text/plain";
      file_text := Ok (u16 "Cells divide.") |};
   {| file_name := u16 "slides.pdf"; file_type := u16 "application/pdf";
      file_text := slides |}].

Definition sample_unmounted : FileUploadState :=
  {| fu_uploadedFiles := sample_files (Err (u16 "NotReadableError"));
     fu_processing := false;
     fu_noteStyle := bullet;
     fu_generatedContent := Some (JStr []);
     fu_tags := u16 "biology";
     fu_noteMeta := None |}.

Definition sample_upload : FileUploadState :=
  FileUpload_mount sample_reading sample_reading sample_unmounted.

(** ** Notes manager ([src/unnamed/part_001], [NotesManager]) and the list of
    generated notes of [src/app/page.tsx] *)

(** A note object in memory: its address, which is what
    [notes.includes(note)] compares, and its fields. *)
Definition NoteObject : Type := nat * NoteData.

(** [generatedNotes] is the state of the page, handed to the manager as
    [notes]; [savedNotes] is the manager's own; [allocated] counts the note
    objects created so far, so that it is the address of the next one. *)
Record NotesApp := {
  generatedNotes : list NoteObject;
  savedNotes : list NoteObject;
  allocated : nat;
}.

(** [setGeneratedNotes(prev => [notes, ...prev])], for the object that a
    generating handler has just built. *)
Definition handleNotesGenerated (notes : NoteData) (app : NotesApp) : NotesApp :=
  {| generatedNotes := (allocated app, notes) :: generatedNotes app;
     savedNotes := savedNotes app;
     allocated := S (allocated app) |}.

(** [[...notes, ...savedNotes]]. *)
Definition allNotes (app : NotesApp) : list NoteObject :=
  generatedNotes app ++ savedNotes app.

(** [notes.includes(note)], on objects: the same object, not an equal one. *)
Definition notes_includes (notes : list NoteObject) (note : NoteObject) : bool :=
  existsb (fun other => (fst other =? fst note)%nat) notes.

(** [allNotes.filter(note => !notes.includes(note))]. *)
Definition notesToSave (app : NotesApp) : list NoteObject :=
  List.filter (fun note => negb (notes_includes (generatedNotes app) note))
              (allNotes app).

Definition STUDY_NOTES_KEY : jstring := u16 "studyNotes".

Definition notes_value (notes : list NoteObject) : jsval :=
  JArr (map (fun note => NoteData_value (snd note)) notes).

(** The saving effect of the manager. *)
Definition NotesManager_save (app : NotesApp) (storage : gmap (list N) (list N))
  : gmap (list N) (list N) :=
  save_collection STUDY_NOTES_KEY (notes_value (notesToSave app)) storage.

(** [note.id === noteId]. *)
Definition has_id (noteId : jstring) (note : NoteObject) : bool :=
  same_id (note_id (snd note)) noteId.

Definition deleteNote (noteId : jstring) (app : NotesApp) : NotesApp :=
  {| generatedNotes := List.filter (fun note => negb (has_id noteId note))
                                   (generatedNotes app);
     savedNotes := List.filter (fun note => negb (has_id noteId note))
                               (savedNotes app);
     allocated := allocated app |}.

(** [{ ...noteData, updatedAt: new Date() }]. *)
Definition updated (r : Reading) (noteData : NoteData) : NoteData :=
  {| note_id := note_id noteData;
     note_title := note_title noteData;
     note_content := note_content noteData;
     note_style := note_style noteData;
     note_tags := note_tags noteData;
     note_createdAt := note_createdAt noteData;
     note_updatedAt := JDate (date_ms r);
     note_sourceType := note_sourceType noteData;
     note_originalFileName := note_originalFileName noteData |}.

(** [prev.map(note => note.id === noteData.id ? updatedNote : note)]. *)
Definition replace_note (noteId : jstring) (updatedNote : NoteObject)
  (prev : list NoteObject) : list NoteObject :=
  map (fun note => if has_id noteId note then updatedNote else note) prev.

Definition saveNote (r : Reading) (noteData : NoteData) (app : NotesApp) : NotesApp :=
  let updatedNote : NoteObject := (allocated app, updated r noteData) in
  if existsb (has_id (note_id noteData)) (generatedNotes app)
  then {| generatedNotes :=
            replace_note (note_id noteData) updatedNote (generatedNotes app);
          savedNotes := savedNotes app;
          allocated := S (allocated app) |}
  else {| generatedNotes := generatedNotes app;
          savedNotes := replace_note (note_id noteData) updatedNote (savedNotes app);
          allocated := S (allocated app) |}.

(** The edit dialog ([EditNoteDialog]): a copy of the note and the text of
    the tags field, which starts as [note.tags.join(', ')]. *)
Record EditDialog := {
  editedNote : NoteData;
  tagsString : jstring;
}.

Definition open_dialog (note : NoteData) : EditDialog :=
  {| editedNote := note; tagsString := join (u16 ", ") (note_tags note) |}.

(** [handleSave]: [{ ...editedNote, tags: <the tags field, parsed> }],
    handed to [onSave], which is [saveNote]. *)
Definition handleSave (r : Reading) (dialog : EditDialog) (app : NotesApp) : NotesApp :=
  saveNote r
    {| note_id := note_id (editedNote dialog);
       note_title := note_title (editedNote dialog);
       note_content := note_content (editedNote dialog);
       note_style := note_style (editedNote dialog);
       note_tags := parse_tags (tagsString dialog);
       note_createdAt := note_createdAt (editedNote dialog);
       note_updatedAt := note_updatedAt (editedNote dialog);
       note_sourceType := note_sourceType (editedNote dialog);
       note_originalFileName := note_originalFileName (editedNote dialog) |}
    app.

(** What happens to the notes while the page is open. *)
Inductive NotesAction :=
| Generated (notes : NoteData)
| Deleted (noteId : jstring)
| Saved (r : Reading) (noteData : NoteData).

Definition notes_step (app : NotesApp) (action : NotesAction) : NotesApp :=
  match action with
  | Generated notes => handleNotesGenerated notes app
  | Deleted noteId => deleteNote noteId app
  | Saved r noteData => saveNote r noteData app
  end.

Definition notes_run (app : NotesApp) (actions : list NotesAction) : NotesApp :=
  fold_left notes_step actions app.

(** Every note object has been allocated, and none is in both lists. *)
Definition separate (app : NotesApp) : Prop :=
  Forall (fun note => (fst note < allocated app)%nat) (allNotes app)
  /\ Forall (fun note => notes_includes (generatedNotes app) note = false)
            (savedNotes app).

(** What the user does with the upload form while it is on screen. *)
Inductive UploadAction :=
| Drop (acceptedFiles : list File)
| Remove (index : nat)
| Process (w : World).

(** One action: the state afterwards and the note handed to the page. *)
Definition upload_step (st : FileUploadState) (action : UploadAction)
  : FileUploadState * option NoteData :=
  match action with
  | Drop acceptedFiles => (onDrop acceptedFiles st, None)
  | Remove index => (removeFile index st, None)
  | Process w => processFiles w st
  end.

(** A run of actions: the final state and the notes handed on, in order. *)
Fixpoint upload_run (st : FileUploadState) (actions : list UploadAction)
  : FileUploadState * list NoteData :=
  match actions with
  | [] => (st, [])
  | action :: rest =>
      let (st', handed) := upload_step st action in
      let (final, notes) := upload_run st' rest in
      (final, match handed with Some note => note :: notes | None => notes end)
  end.

(** Two files that differ at most in the bytes of a file that is not plain
    text. *)
Definition same_but_binary (a b : File) : Prop :=
  file_name a = file_name b
  /\ file_type a = file_type b
  /\ (file_type a = u16 "text/plain" -> file_text a = file_text b).

(** The page without notes, before any note object exists. *)
Definition empty_notes : NotesApp :=
  {| generatedNotes := []; savedNotes := []; allocated := 0 |}.

(** The page after the notes a form has handed on, oldest first, have
    reached it. *)
Definition received (notes : list NoteData) (app : NotesApp) : NotesApp :=
  fold_left (fun app note => handleNotesGenerated note app) notes app.

Definition sample_note (id title : string) : NoteData :=
  {| note_id := u16 id;
     note_title := u16 title;
     note_content := Some (JStr (u16 "- cells divide"));
     note_style := bullet;
     note_tags := [u16 "biology"];
     note_createdAt := JDate 1700000000000;
     note_updatedAt := JDate 1700000000000;
     note_sourceType := sourceText;
     note_originalFileName := None |}.

Definition sample_upload_actions : list UploadAction :=
  [Process (world_completing (u16 "- cells divide"));
   Remove 1;
   Process (world_completing (u16 "- cells"))].

Definition sample_upload_notes : list NoteData :=
  snd (upload_run sample_upload sample_upload_actions).

(** ** Flashcard viewer ([src/components/file-upload.tsx],
    [FlashcardGenerator]) *)

(** [a % b] on integers: the remainder takes the sign of the dividend, and
    a zero divisor gives [NaN], here [None]. The sign of a zero remainder is
    not kept: indexing and addition do not tell the two zeros apart. *)
Definition js_rem (a b : Z) : option Z :=
  if (b =? 0)%Z then None else Some (Z.rem a b).

(** The flashcard state of the claims together with the two fields of the
    component state that the viewer uses; [currentIndex] is [None] when it
    is [NaN]. *)
Record CardViewer := {
  cards : FlashcardState;
  currentIndex : option Z;
  isFlipped : bool;
}.

Definition deck_size (v : CardViewer) : Z :=
  Z.of_nat (length (fc_flashcards (cards v))).

(** [setCurrentIndex((prev) => (prev + 1) % flashcards.length)]. *)
Definition nextCard (v : CardViewer) : CardViewer :=
  {| cards := cards v;
     currentIndex := match currentIndex v with
                     | Some prev => js_rem (prev + 1) (deck_size v)
                     | None => None
                     end;
     isFlipped := false |}.

(** [setCurrentIndex((prev) =>
      (prev - 1 + flashcards.length) % flashcards.length)]. *)
Definition prevCard (v : CardViewer) : CardViewer :=
  {| cards := cards v;
     currentIndex := match currentIndex v with
                     | Some prev => js_rem (prev - 1 + deck_size v) (deck_size v)
                     | None => None
                     end;
     isFlipped := false |}.

(** [flashcards[currentIndex]]. *)
Definition currentCard (v : CardViewer) : option jsval :=
  match currentIndex v with
  | Some index =>
      if (0 <=? index)%Z then fc_flashcards (cards v) !! Z.to_nat index else None
  | None => None
  end.

(** What the user can click in the flashcard tab. *)
Inductive CardClick :=
| ClickGenerate (w : World) (readings : nat -> Reading)
| ClickNextCard
| ClickPrevCard
| ClickFlip.

(** One click. "Previous" and "Next" are disabled unless there are at least
    two cards; generating leaves the index and the side shown as they are. *)
Definition card_click (v : CardViewer) (c : CardClick) : CardViewer :=
  match c with
  | ClickGenerate w readings =>
      {| cards := generateCards w readings (cards v);
         currentIndex := currentIndex v;
         isFlipped := isFlipped v |}
  | ClickNextCard =>
      if (length (fc_flashcards (cards v)) <=? 1)%nat then v else nextCard v
  | ClickPrevCard =>
      if (length (fc_flashcards (cards v)) <=? 1)%nat then v else prevCard v
  | ClickFlip =>
      {| cards := cards v;
         currentIndex := currentIndex v;
         isFlipped := negb (isFlipped v) |}
  end.

Definition card_clicks (v : CardViewer) (cs : list CardClick) : CardViewer :=
  fold_left card_click cs v.

(** The viewer as the component starts: first card, front side. *)
Definition viewer_of (deck : FlashcardState) : CardViewer :=
  {| cards := deck; currentIndex := Some 0%Z; isFlipped := false |}.

Definition sample_viewer : CardViewer :=
  viewer_of (generateCards (world_completing two_cards_json)
                           (fun _ => sample_reading) sample_cards_state).

(** * The quiz on the values as they are at run time

    The question set is filled from [JSON.parse] of the storage and from the
    generator, neither of which checks a record, and [selectedAnswers] is a
    plain object, which inherits the names of [Object.prototype]. [Runtime]
    has the handlers of [src/components/quiz-generator.tsx] on these values;
    the definitions above are the same handlers on question sets of the
    declared type [MCQuestion]. *)

Module Runtime.

(** What is taken as given of the JavaScript engine, because it rests on
    floating-point numbers: the text of a value that is neither a string nor
    a primitive with a fixed spelling (or the exception that converting it
    throws), and whether a number literal that is not a safe integer denotes
    a given integer. *)
Record Engine := {
  ToString_other : jsval -> result jstring;
  number_is : jstring -> Z -> bool;
}.

(** The own and inherited properties of [Object.prototype], which every
    object literal has in its prototype chain. *)
Definition OBJECT_PROTOTYPE_NAMES : list jstring :=
  [u16 "constructor"; u16 "__defineGetter__"; u16 "__defineSetter__";
   u16 "hasOwnProperty"; u16 "__lookupGetter__"; u16 "__lookupSetter__";
   u16 "isPrototypeOf"; u16 "propertyIsEnumerable"; u16 "toString";
   u16 "valueOf"; u16 "__proto__"; u16 "toLocaleString"].

Definition inherited (key : jstring) : bool :=
  existsb (jstring_eqb key) OBJECT_PROTOTYPE_NAMES.

(** What [selectedAnswers[key]] is when it is not [undefined]: the number
    stored under the key, or what the object inherits under that name (a
    function, or the prototype itself for [__proto__]). *)
Inductive Selected :=
| Index (index : Z)
| Inherited (name : jstring).

(** [selectedAnswers[key]]; [None] is [undefined]. *)
Definition get_selected (selectedAnswers : gmap (list N) Z) (key : jstring)
  : option Selected :=
  match selectedAnswers !! key with
  | Some index => Some (Index index)
  | None => if inherited key then Some (Inherited key) else None
  end.

(** ToPropertyKey of [question.id], which may be [undefined]. *)
Definition property_key (js : Engine) (value : option jsval) : result jstring :=
  match value with
  | None => Ok (u16 "undefined")
  | Some JNull => Ok (u16 "null")
  | Some (JBool b) => Ok (if b then u16 "true" else u16 "false")
  | Some (JStr s) => Ok s
  | Some (JInt z) =>
      if (Z.abs z <=? MAX_SAFE_INTEGER)%Z then Ok (Z_toString z)
      else ToString_other js (JInt z)
  | Some other => ToString_other js other
  end.

(** [selectedAnswers[question.id] === question.correctAnswer]: two
    [undefined] are equal, two numbers are compared, and nothing else that
    can meet here is equal. *)
Definition strict_equal (js : Engine) (selected : option Selected)
  (correctAnswer : option jsval) : bool :=
  match selected, correctAnswer with
  | None, None => true
  | Some (Index x), Some (JInt z) => (x =? z)%Z
  | Some (Index x), Some (JNumLit literal) => number_is js literal x
  | _, _ => false
  end.

Record Answer := {
  questionId : option jsval;
  selectedAnswer : Selected;
  correct : bool;
}.

Record QuizResult := {
  result_id : jstring;
  score : nat;
  totalQuestions : nat;
  answers : list Answer;
  completedAt : Z;
}.

(** An element of [quizResults]: a result built in this session, or a value
    read from the storage. *)
Inductive StoredResult :=
| Built (result : QuizResult)
| Loaded (value : jsval).

Record QuizState := {
  questions : list jsval;
  selectedAnswers : gmap (list N) Z;
  showResults : bool;
  quizResults : list StoredResult;
}.

(** [selectedAnswers[question.id] ?? -1]. *)
Definition UNANSWERED : Selected := Index (-1).

(** The callback of [questions.map] in [finishQuiz]; [question.id] throws
    when the question is [null]. *)
Definition answer_record (js : Engine) (selected : gmap (list N) Z)
  (question : jsval) : result Answer :=
  id <-! get_property (u16 "id") question ;;
  key <-! property_key js id ;;
  correctAnswer <-! get_property (u16 "correctAnswer") question ;;
  Ok {| questionId := id;
        selectedAnswer := default UNANSWERED (get_selected selected key);
        correct := strict_equal js (get_selected selected key) correctAnswer |}.

(** [array.map(f)] for a callback that may throw. *)
Fixpoint map_throwing {A B} (f : A -> result B) (array : list A) : result (list B) :=
  match array with
  | [] => Ok []
  | a :: rest =>
      b <-! f a ;;
      bs <-! map_throwing f rest ;;
      Ok (b :: bs)
  end.

(** [setShowResults(true)] comes first, so it takes effect also when
    building the answers throws and no result is added. *)
Definition finishQuiz (js : Engine) (r : Reading) (st : QuizState) : QuizState :=
  match map_throwing (answer_record js (selectedAnswers st)) (questions st) with
  | Ok answers =>
      let score := length (List.filter correct answers) in
      let result :=
        {| result_id := Z_toString (now_ms r);
           score := score;
           totalQuestions := length (questions st);
           answers := answers;
           completedAt := date_ms r |} in
      {| questions := questions st;
         selectedAnswers := selectedAnswers st;
         showResults := true;
         quizResults := Built result :: quizResults st |}
  | Err _ =>
      {| questions := questions st;
         selectedAnswers := selectedAnswers st;
         showResults := true;
         quizResults := quizResults st |}
  end.

(** [{ ...prev, [questionId]: answerIndex }]: an own property, whatever the
    key. When the key cannot be computed the update throws and the state
    stays. *)
Definition handleAnswerSelect (js : Engine) (questionId : option jsval)
  (answerIndex : Z) (st : QuizState) : QuizState :=
  match property_key js questionId with
  | Ok key =>
      {| questions := questions st;
         selectedAnswers := <[key := answerIndex]> (selectedAnswers st);
         showResults := showResults st;
         quizResults := quizResults st |}
  | Err _ => st
  end.

(** *** The component while it is mounted *)

(** A call of [generateMCQs] that has not returned yet: what it will return,
    and the difficulty and the tags field as [generateQuestions] read them
    when it was clicked. *)
Record Pending := {
  outcome : result jsval;
  pending_difficulty : Difficulty;
  pending_tags : jstring;
}.

Record QuizView := {
  inputContent : jstring;
  difficulty : Difficulty;
  tags : jstring;
  processing : bool;
  pending : option Pending;
  quiz : QuizState;
  quizStarted : bool;
  currentQuestionIndex : nat;
}.

Definition with_quiz (q : QuizState) (v : QuizView) : QuizView :=
  {| inputContent := inputContent v;
     difficulty := difficulty v;
     tags := tags v;
     processing := processing v;
     pending := pending v;
     quiz := q;
     quizStarted := quizStarted v;
     currentQuestionIndex := currentQuestionIndex v |}.

Definition with_index (index : nat) (v : QuizView) : QuizView :=
  {| inputContent := inputContent v;
     difficulty := difficulty v;
     tags := tags v;
     processing := processing v;
     pending := pending v;
     quiz := quiz v;
     quizStarted := quizStarted v;
     currentQuestionIndex := index |}.

Definition with_form (content : jstring) (level : Difficulty) (field : jstring)
  (v : QuizView) : QuizView :=
  {| inputContent := content;
     difficulty := level;
     tags := field;
     processing := processing v;
     pending := pending v;
     quiz := quiz v;
     quizStarted := quizStarted v;
     currentQuestionIndex := currentQuestionIndex v |}.

(** [generateQuestions] up to its [await]: nothing on a blank input;
    otherwise [processing] is set and the call is under way. *)
Definition generateQuestions_call (w : World) (v : QuizView) : QuizView :=
  if negb (truthy (trim (inputContent v))) then v
  else
    {| inputContent := inputContent v;
       difficulty := difficulty v;
       tags := tags v;
       processing := true;
       pending := Some {| outcome := generateMCQs w (inputContent v) (difficulty v);
                          pending_difficulty := difficulty v;
                          pending_tags := tags v |};
       quiz := quiz v;
       quizStarted := quizStarted v;
       currentQuestionIndex := currentQuestionIndex v |}.

(** [generateQuestions] from its [await] on, when the call returns: the new
    questions get their metadata and go in front of the questions that are
    there by then, and the form is emptied; when the value returned has no
    [map] the [catch] block runs instead. Either way [processing] is
    cleared. *)
Definition generateQuestions_resume (readings : nat -> Reading) (v : QuizView)
  : QuizView :=
  match pending v with
  | None => v
  | Some call =>
      match outcome call with
      | Ok (JArr newQuestions) =>
          let questionsWithMetadata :=
            imap (fun i question =>
                    with_metadata (pending_tags call) (pending_difficulty call)
                                  (readings i) question)
                 newQuestions in
          {| inputContent := [];
             difficulty := difficulty v;
             tags := [];
             processing := false;
             pending := None;
             quiz := {| questions := questionsWithMetadata ++ questions (quiz v);
                        selectedAnswers := selectedAnswers (quiz v);
                        showResults := showResults (quiz v);
                        quizResults := quizResults (quiz v) |};
             quizStarted := quizStarted v;
             currentQuestionIndex := currentQuestionIndex v |}
      | _ =>
          {| inputContent := inputContent v;
             difficulty := difficulty v;
             tags := tags v;
             processing := false;
             pending := None;
             quiz := quiz v;
             quizStarted := quizStarted v;
             currentQuestionIndex := currentQuestionIndex v |}
      end
  end.

Definition startQuiz (v : QuizView) : QuizView :=
  {| inputContent := inputContent v;
     difficulty := difficulty v;
     tags := tags v;
     processing := processing v;
     pending := pending v;
     quiz := {| questions := questions (quiz v);
                selectedAnswers := ∅;
                showResults := false;
                quizResults := quizResults (quiz v) |};
     quizStarted := true;
     currentQuestionIndex := 0 |}.

(** [if (currentQuestionIndex < questions.length - 1)], on integers: the
    right-hand side is -1 for an empty question set. *)
Definition nextQuestion (js : Engine) (r : Reading) (v : QuizView) : QuizView :=
  if (Z.of_nat (currentQuestionIndex v)
      <? Z.of_nat (length (questions (quiz v))) - 1)%Z
  then with_index (S (currentQuestionIndex v)) v
  else with_quiz (finishQuiz js r (quiz v)) v.

Definition prevQuestion (v : QuizView) : QuizView :=
  if (0 <? currentQuestionIndex v)%nat
  then with_index (currentQuestionIndex v - 1) v
  else v.

Definition resetQuiz (v : QuizView) : QuizView :=
  {| inputContent := inputContent v;
     difficulty := difficulty v;
     tags := tags v;
     processing := processing v;
     pending := pending v;
     quiz := {| questions := questions (quiz v);
                selectedAnswers := ∅;
                showResults := false;
                quizResults := quizResults (quiz v) |};
     quizStarted := false;
     currentQuestionIndex := 0 |}.

(** ToBoolean of a question. *)
Definition truthy_value (js : Engine) (value : jsval) : bool :=
  match value with
  | JNull => false
  | JBool b => b
  | JInt z => negb (z =? 0)%Z
  | JNumLit literal => negb (number_is js literal 0)
  | JStr s => truthy s
  | _ => true
  end.

(** What the quiz card shows, when it is on screen and can be drawn. *)
Record Card := {
  card_id : option jsval;
  card_key : jstring;
  card_options : list jsval;
}.

(** The quiz card is rendered when
    [quizStarted && !showResults && currentQuestion]. Rendering maps over
    [currentQuestion.options] and reads [selectedAnswers[currentQuestion.id]]:
    when the options are no array, or the id has no key, it throws and there
    is no card. *)
Definition quiz_card (js : Engine) (v : QuizView) : option Card :=
  if quizStarted v && negb (showResults (quiz v)) then
    match questions (quiz v) !! currentQuestionIndex v with
    | Some currentQuestion =>
        if truthy_value js currentQuestion then
          match get_property (u16 "id") currentQuestion,
                get_property (u16 "options") currentQuestion with
          | Ok id, Ok (Some (JArr options)) =>
              match property_key js id with
              | Ok key => Some {| card_id := id; card_key := key;
                                  card_options := options |}
              | Err _ => None
              end
          | _, _ => None
          end
        else None
    | None => None
    end
  else None.

(** What happens to the component: the user edits the form or clicks, or the
    call of [generateMCQs] returns. *)
Inductive Event :=
| TypeContent (content : jstring)
| TypeTags (field : jstring)
| ChooseDifficulty (level : Difficulty)
| ClickGenerate (w : World)
| Returned (readings : nat -> Reading)
| ClickStart
| ClickOption (index : nat)
| ClickNext (r : Reading)
| ClickPrevious
| ClickTakeAgain.

(** One event. A control that is not rendered or is disabled does nothing:
    the form is rendered while no quiz is started, and its button is
    disabled on a blank input and while a call is under way; "Start Quiz" is
    rendered when there are questions and no quiz is started; an option
    button exists for each option of the current question; "Next" is
    disabled while [selectedAnswers[currentQuestion.id]] is [undefined];
    "Previous" is disabled on the first question; "Take Again" is rendered
    with the results. A render that throws for a reason not modelled here
    takes the component off the screen; the model then still accepts events,
    which adds runs and removes none. *)
Definition event (js : Engine) (v : QuizView) (e : Event) : QuizView :=
  match e with
  | TypeContent content =>
      if quizStarted v then v else with_form content (difficulty v) (tags v) v
  | TypeTags field =>
      if quizStarted v then v else with_form (inputContent v) (difficulty v) field v
  | ChooseDifficulty level =>
      if quizStarted v then v else with_form (inputContent v) level (tags v) v
  | ClickGenerate w =>
      if quizStarted v || negb (truthy (trim (inputContent v))) || processing v
      then v else generateQuestions_call w v
  | Returned readings => generateQuestions_resume readings v
  | ClickStart =>
      if (0 <? length (questions (quiz v)))%nat && negb (quizStarted v)
      then startQuiz v else v
  | ClickOption index =>
      match quiz_card js v with
      | Some card =>
          if (index <? length (card_options card))%nat
          then with_quiz (handleAnswerSelect js (card_id card) (Z.of_nat index)
                                             (quiz v)) v
          else v
      | None => v
      end
  | ClickNext r =>
      match quiz_card js v with
      | Some card =>
          match get_selected (selectedAnswers (quiz v)) (card_key card) with
          | Some _ => nextQuestion js r v
          | None => v
          end
      | None => v
      end
  | ClickPrevious =>
      match quiz_card js v with
      | Some _ => if (currentQuestionIndex v =? 0)%nat then v else prevQuestion v
      | None => v
      end
  | ClickTakeAgain =>
      if showResults (quiz v) then resetQuiz v else v
  end.

Definition events (js : Engine) (v : QuizView) (es : list Event) : QuizView :=
  fold_left (event js) es v.




End Runtime.

(** A typed question as the object it is at run time. *)
Definition MCQuestion_value (q : MCQuestion) : jsval :=
  JObj [(u16 "id", JStr (mcq_id q));
        (u16 "question", JStr (mcq_question q));
        (u16 "options", JArr (map JStr (mcq_options q)));
        (u16 "correctAnswer", JInt (mcq_correctAnswer q));
        (u16 "explanation", JStr (mcq_explanation q));
        (u16 "difficulty", JStr (Difficulty_name (mcq_difficulty q)));
        (u16 "tags", JArr (map JStr (mcq_tags q)));
        (u16 "createdAt", JDate (mcq_createdAt q))].

Definition Answer_runtime (a : Answer) : Runtime.Answer :=
  {| Runtime.questionId := Some (JStr (questionId a));
     Runtime.selectedAnswer := Runtime.Index (selectedAnswer a);
     Runtime.correct := correct a |}.

Definition QuizResult_runtime (result : QuizResult) : Runtime.QuizResult :=
  {| Runtime.result_id := result_id result;
     Runtime.score := score result;
     Runtime.totalQuestions := totalQuestions result;
     Runtime.answers := map Answer_runtime (answers result);
     Runtime.completedAt := completedAt result |}.

Definition QuizState_runtime (st : QuizState) : Runtime.QuizState :=
  {| Runtime.questions := map MCQuestion_value (questions st);
     Runtime.selectedAnswers := selectedAnswers st;
     Runtime.showResults := showResults st;
     Runtime.quizResults :=
       map (fun result => Runtime.Built (QuizResult_runtime result)) (quizResults st) |}.

(** An engine for question sets whose ids are strings and whose numbers are
    integers: on them neither parameter is consulted. *)
Definition plain_engine : Runtime.Engine :=
  {| Runtime.ToString_other := fun _ => Err (u16 "TypeError");
     Runtime.number_is := fun _ _ => false |}.

(** A question as the generator may return it: no [correctAnswer]. *)
Definition question_without_answer (id : string) : jsval :=
  JObj [(u16 "question", JStr (u16 "Which one?"));
        (u16 "options", JArr [JStr (u16 "a"); JStr (u16 "b")]);
        (u16 "id", JStr (u16 id))].

Definition runtime_quiz (questions : list jsval) (selected : gmap (list N) Z)
  : Runtime.QuizState :=
  {| Runtime.questions := questions;
     Runtime.selectedAnswers := selected;
     Runtime.showResults := false;
     Runtime.quizResults := [] |}.



(** The component as it is mounted, with the questions read from storage. *)
Definition mounted (questions : list jsval) : Runtime.QuizView :=
  {| Runtime.inputContent := [];
     Runtime.difficulty := medium;
     Runtime.tags := [];
     Runtime.processing := false;
     Runtime.pending := None;
     Runtime.quiz := runtime_quiz questions ∅;
     Runtime.quizStarted := false;
     Runtime.currentQuestionIndex := 0 |}.


(** Another session: a quiz over two older questions is started while the
    call is under way, and the call returns after the first answer. *)
Definition disturbed_events : list Runtime.Event :=
  [Runtime.TypeContent (u16 "Mitochondria are the powerhouse of the cell.");
   Runtime.ClickGenerate world_unreachable;
   Runtime.ClickStart;
   Runtime.ClickOption 1;
   Runtime.ClickNext sample_reading;
   Runtime.Returned (fun _ => sample_reading);
   Runtime.ClickNext sample_reading;
   Runtime.ClickOption 0;
   Runtime.ClickNext sample_reading].

Definition two_older_questions : list jsval :=
  [MCQuestion_value (sample_question (u16 "q1") 1);
   MCQuestion_value (sample_question (u16 "q2") 0)].



(** * Properties *)

(** ** JSON: lemmas on the parser and the printer *)

(** ** The parser consumes what it reads; fuel is never the obstacle *)

Lemma skip_ws_length (s : jstring) : (length (skip_ws s) <= length s)%nat.
Proof.
  induction s as [|c s IH]; cbn [skip_ws]; [lia|].
  destruct (is_json_ws c); cbn [length]; lia.
Qed.

Lemma expect_length (lit s r : jstring) :
  expect lit s = Some r -> length s = (length lit + length r)%nat.
Proof.
  revert s. induction lit as [|a lit IH]; intros s H.
  - destruct s; cbn in H; now inversion H.
  - destruct s as [|b s]; cbn in H; [discriminate|].
    destruct (a =? b); [|discriminate].
    apply IH in H. cbn [length]. lia.
Qed.

Lemma parse_string_body_length_aux (n : nat) :
  forall s str r, (length s <= n)%nat ->
  parse_string_body s = Some (str, r) -> (length r < length s)%nat.
Proof.
  induction n as [|n IH]; intros s str r Hn H.
  - destruct s; [discriminate|cbn in Hn; lia].
  - destruct s as [|c s']; [discriminate|].
    cbn [length] in Hn. cbn [parse_string_body] in H.
    destruct (c =? 34).
    { inversion H; subst. cbn [length]. lia. }
    destruct (c =? 92).
    + destruct s' as [|e s'']; [discriminate|]. cbn [length] in *.
      assert (Hsimple : forall u,
                 match parse_string_body s'' with
                 | Some (str0, r0) => Some (u :: str0, r0)
                 | None => None
                 end = Some (str, r) -> (length r < S (S (length s'')))%nat).
      { intros u Hu.
        destruct (parse_string_body s'') as [[str0 r0]|] eqn:E; [|discriminate].
        inversion Hu; subst. apply IH in E; lia. }
      repeat match type of H with
             | (if ?b then _ else _) = _ =>
                 destruct b; [exact (Hsimple _ H)|]
             end.
      destruct (e =? 117); [|discriminate].
      destruct s'' as [|h1 [|h2 [|h3 [|h4 s4]]]]; try discriminate.
      destruct (hex4 h1 h2 h3 h4); [|discriminate].
      destruct (parse_string_body s4) as [[str0 r0]|] eqn:E; [|discriminate].
      inversion H; subst. apply IH in E; cbn [length] in *; lia.
    + destruct (c <? 32); [discriminate|].
      destruct (parse_string_body s') as [[str0 r0]|] eqn:E; [|discriminate].
      inversion H; subst. apply IH in E; cbn [length]; lia.
Qed.

Lemma parse_string_body_length (s str r : jstring) :
  parse_string_body s = Some (str, r) -> (length r < length s)%nat.
Proof. now apply (parse_string_body_length_aux (length s)). Qed.

Lemma span_digits_length (s ds r : jstring) :
  span_digits s = (ds, r) -> length s = (length ds + length r)%nat.
Proof.
  revert ds r. induction s as [|c s IH]; intros ds r H; cbn [span_digits] in H.
  - now inversion H.
  - destruct (is_digit c).
    + destruct (span_digits s) as [ds' r'] eqn:E. inversion H; subst.
      specialize (IH _ _ eq_refl). cbn [length]. lia.
    + inversion H; subst. reflexivity.
Qed.

Lemma parse_int_part_length (s ip r : jstring) :
  parse_int_part s = Some (ip, r) -> (length r < length s)%nat.
Proof.
  unfold parse_int_part. destruct s as [|c s']; [discriminate|].
  destruct (c =? 48).
  - intros H; inversion H; subst. cbn [length]. lia.
  - destruct (is_digit c) eqn:Hd; [|discriminate].
    intros H. inversion H as [Hs]. cbn [span_digits] in Hs. rewrite Hd in Hs.
    destruct (span_digits s') as [ds' r'] eqn:E. inversion Hs; subst.
    apply span_digits_length in E. cbn [length]. lia.
Qed.

Lemma parse_frac_part_length (s fp r : jstring) :
  parse_frac_part s = Some (fp, r) -> (length r <= length s)%nat.
Proof.
  unfold parse_frac_part. destruct s as [|c s']; [intros H; now inversion H|].
  destruct (c =? 46).
  - destruct (span_digits s') as [[|d ds] r'] eqn:E; [discriminate|].
    intros H; inversion H; subst. apply span_digits_length in E.
    cbn [length] in *. lia.
  - intros H; inversion H; subst. lia.
Qed.

Lemma parse_exp_part_length (s ep r : jstring) :
  parse_exp_part s = Some (ep, r) -> (length r <= length s)%nat.
Proof.
  unfold parse_exp_part. destruct s as [|c s']; [intros H; now inversion H|].
  destruct ((c =? 101) || (c =? 69)).
  - destruct s' as [|g t].
    + cbn. discriminate.
    + destruct ((g =? 43) || (g =? 45)).
      * destruct (span_digits t) as [[|d ds] r'] eqn:E; [discriminate|].
        intros H; inversion H; subst. apply span_digits_length in E.
        cbn [length] in *. lia.
      * destruct (span_digits (g :: t)) as [[|d ds] r'] eqn:E; [discriminate|].
        intros H; inversion H; subst. apply span_digits_length in E.
        cbn [length] in *. lia.
  - intros H; inversion H; subst. lia.
Qed.

Lemma parse_number_length (s : jstring) (v : jsval) (r : jstring) :
  parse_number s = Some (v, r) -> (length r < length s)%nat.
Proof.
  unfold parse_number.
  destruct (parse_sign s) as [neg s1] eqn:Esign.
  assert (Hs1 : (length s1 <= length s)%nat).
  { unfold parse_sign in Esign. destruct s as [|c s']; [now inversion Esign|].
    destruct (c =? 45); inversion Esign; subst; cbn [length]; lia. }
  destruct (parse_int_part s1) as [[ip s2]|] eqn:Eint; [|discriminate].
  destruct (parse_frac_part s2) as [[fp s3]|] eqn:Efrac; [|discriminate].
  destruct (parse_exp_part s3) as [[ep s4]|] eqn:Eexp; [|discriminate].
  apply parse_int_part_length in Eint.
  apply parse_frac_part_length in Efrac.
  apply parse_exp_part_length in Eexp.
  intros H.
  assert (r = s4).
  { destruct fp, ep; try (inversion H; subst; reflexivity).
    destruct (_ <=? _)%Z; inversion H; subst; reflexivity. }
  subst. lia.
Qed.

Lemma parse_value_S_eq (f : nat) (s : jstring) :
  parse_value (S f) s
  = match skip_ws s with
    | [] => None
    | c :: r =>
        if c =? 110 then
          match expect str_null (c :: r) with
          | Some r' => Some (JNull, r') | None => None end
        else if c =? 116 then
          match expect str_true (c :: r) with
          | Some r' => Some (JBool true, r') | None => None end
        else if c =? 102 then
          match expect str_false (c :: r) with
          | Some r' => Some (JBool false, r') | None => None end
        else if c =? 34 then
          match parse_string_body r with
          | Some (str, r') => Some (JStr str, r') | None => None end
        else if c =? 91 then
          match skip_ws r with
          | [] => None
          | d :: r' =>
              if d =? 93 then Some (JArr [], r') else parse_elements f [] r
          end
        else if c =? 123 then
          match skip_ws r with
          | [] => None
          | d :: r' =>
              if d =? 125 then Some (JObj [], r') else parse_members f [] r
          end
        else if (c =? 45) || is_digit c then parse_number (c :: r)
        else None
    end.
Proof. reflexivity. Qed.

Lemma parse_elements_S_eq (f : nat) (acc : list jsval) (s : jstring) :
  parse_elements (S f) acc s
  = match parse_value f s with
    | None => None
    | Some (v, r) =>
        match skip_ws r with
        | c :: r' =>
            if c =? 44 then parse_elements f (v :: acc) r'
            else if c =? 93 then Some (JArr (rev (v :: acc)), r')
            else None
        | [] => None
        end
    end.
Proof. reflexivity. Qed.

Lemma parse_members_S_eq (f : nat) (acc : list (jstring * jsval)) (s : jstring) :
  parse_members (S f) acc s
  = match skip_ws s with
    | [] => None
    | q :: r =>
        if q =? 34 then
          match parse_string_body r with
          | None => None
          | Some (k, r1) =>
              match skip_ws r1 with
              | [] => None
              | colon :: r2 =>
                  if colon =? 58 then
                    match parse_value f r2 with
                    | None => None
                    | Some (v, r3) =>
                        match skip_ws r3 with
                        | c :: r4 =>
                            if c =? 44
                            then parse_members f (obj_set k v acc) r4
                            else if c =? 125
                            then Some (JObj (obj_set k v acc), r4)
                            else None
                        | [] => None
                        end
                    end
                  else None
              end
          end
        else None
    end.
Proof. reflexivity. Qed.

Lemma parse_fuel (n : nat) :
  enough_fuel (fun n (_ : unit) s => parse_value n s) n
  /\ enough_fuel parse_elements n
  /\ enough_fuel parse_members n.
Proof.
  induction n as [|n (IHv & IHe & IHm)].
  - repeat split; intros; discriminate.
  - split; [|split].
    + (* values *)
      intros _ s v r H. rewrite parse_value_S_eq in H.
      pose proof (skip_ws_length s) as Hs.
      destruct (skip_ws s) as [|c r0] eqn:Es; [discriminate|].
      cbn [length] in Hs.
      assert (Hscalar : forall res : option (jsval * jstring),
                 res = Some (v, r) -> (length r < S (length r0))%nat ->
                 (forall f, parse_value (S f) s = res) ->
                 (length r < length s)%nat
                 /\ forall m, (length s - length r <= m)%nat ->
                              parse_value m s = Some (v, r)).
      { intros res Hres Hlen Hany. split; [lia|].
        intros [|m] Hm; [lia|]. now rewrite Hany. }
      destruct (c =? 110) eqn:E1.
      { destruct (expect str_null (c :: r0)) as [r'|] eqn:E; [|discriminate].
        apply (Hscalar (Some (JNull, r'))); [assumption| |].
        - inversion H; subst. apply expect_length in E. cbn [length] in E.
          cbn in E. lia.
        - intros f. now rewrite parse_value_S_eq, Es, E1, E. }
      destruct (c =? 116) eqn:E2.
      { destruct (expect str_true (c :: r0)) as [r'|] eqn:E; [|discriminate].
        apply (Hscalar (Some (JBool true, r'))); [assumption| |].
        - inversion H; subst. apply expect_length in E. cbn [length] in E.
          cbn in E. lia.
        - intros f. now rewrite parse_value_S_eq, Es, E1, E2, E. }
      destruct (c =? 102) eqn:E3.
      { destruct (expect str_false (c :: r0)) as [r'|] eqn:E; [|discriminate].
        apply (Hscalar (Some (JBool false, r'))); [assumption| |].
        - inversion H; subst. apply expect_length in E. cbn [length] in E.
          cbn in E. lia.
        - intros f. now rewrite parse_value_S_eq, Es, E1, E2, E3, E. }
      destruct (c =? 34) eqn:E4.
      { destruct (parse_string_body r0) as [[str r']|] eqn:E; [|discriminate].
        apply (Hscalar (Some (JStr str, r'))); [assumption| |].
        - inversion H; subst. apply parse_string_body_length in E. lia.
        - intros f. now rewrite parse_value_S_eq, Es, E1, E2, E3, E4, E. }
      destruct (c =? 91) eqn:E5.
      { pose proof (skip_ws_length r0) as Hr0.
        destruct (skip_ws r0) as [|d r'] eqn:Er; [discriminate|].
        cbn [length] in Hr0.
        destruct (d =? 93) eqn:Ed.
        - apply (Hscalar (Some (JArr [], r'))); [assumption| |].
          + inversion H; subst. lia.
          + intros f. now rewrite parse_value_S_eq, Es, E1, E2, E3, E4, E5, Er, Ed.
        - destruct (IHe _ _ _ _ H) as [Hlen Hm]. split; [lia|].
          intros [|m] Hfuel; [lia|].
          rewrite parse_value_S_eq, Es, E1, E2, E3, E4, E5, Er, Ed.
          apply Hm. lia. }
      destruct (c =? 123) eqn:E6.
      { pose proof (skip_ws_length r0) as Hr0.
        destruct (skip_ws r0) as [|d r'] eqn:Er; [discriminate|].
        cbn [length] in Hr0.
        destruct (d =? 125) eqn:Ed.
        - apply (Hscalar (Some (JObj [], r'))); [assumption| |].
          + inversion H; subst. lia.
          + intros f.
            now rewrite parse_value_S_eq, Es, E1, E2, E3, E4, E5, E6, Er, Ed.
        - destruct (IHm _ _ _ _ H) as [Hlen Hm]. split; [lia|].
          intros [|m] Hfuel; [lia|].
          rewrite parse_value_S_eq, Es, E1, E2, E3, E4, E5, E6, Er, Ed.
          apply Hm. lia. }
      destruct ((c =? 45) || is_digit c) eqn:E7; [|discriminate].
      apply (Hscalar (parse_number (c :: r0))); [assumption| |].
      * apply parse_number_length in H. cbn [length] in H. lia.
      * intros f. now rewrite parse_value_S_eq, Es, E1, E2, E3, E4, E5, E6, E7.
    + (* elements *)
      intros acc s v r H. rewrite parse_elements_S_eq in H.
      destruct (parse_value n s) as [[v1 r1]|] eqn:Ev; [|discriminate].
      destruct (IHv tt _ _ _ Ev) as [Hlen1 Hm1].
      pose proof (skip_ws_length r1) as Hr1.
      destruct (skip_ws r1) as [|c r2] eqn:Er; [discriminate|].
      cbn [length] in Hr1.
      destruct (c =? 44) eqn:Ec.
      * destruct (IHe _ _ _ _ H) as [Hlen2 Hm2]. split; [lia|].
        intros [|m] Hfuel; [lia|].
        rewrite parse_elements_S_eq, Hm1 by lia. rewrite Er, Ec.
        apply Hm2. lia.
      * destruct (c =? 93) eqn:Ec'; [|discriminate].
        inversion H; subst. split; [lia|].
        intros [|m] Hfuel; [lia|].
        rewrite parse_elements_S_eq, Hm1 by lia. now rewrite Er, Ec, Ec'.
    + (* members *)
      intros acc s v r H. rewrite parse_members_S_eq in H.
      pose proof (skip_ws_length s) as Hs.
      destruct (skip_ws s) as [|q r0] eqn:Es; [discriminate|].
      cbn [length] in Hs.
      destruct (q =? 34) eqn:Eq; [|discriminate].
      destruct (parse_string_body r0) as [[k r1]|] eqn:Ek; [|discriminate].
      pose proof (parse_string_body_length _ _ _ Ek) as Hk.
      pose proof (skip_ws_length r1) as Hr1.
      destruct (skip_ws r1) as [|colon r2] eqn:Er1; [discriminate|].
      cbn [length] in Hr1.
      destruct (colon =? 58) eqn:Ecolon; [|discriminate].
      destruct (parse_value n r2) as [[v1 r3]|] eqn:Ev; [|discriminate].
      destruct (IHv tt _ _ _ Ev) as [Hlen1 Hm1].
      pose proof (skip_ws_length r3) as Hr3.
      destruct (skip_ws r3) as [|c r4] eqn:Er3; [discriminate|].
      cbn [length] in Hr3.
      destruct (c =? 44) eqn:Ec.
      * destruct (IHm _ _ _ _ H) as [Hlen2 Hm2]. split; [lia|].
        intros [|m] Hfuel; [lia|].
        rewrite parse_members_S_eq, Es, Eq, Ek, Er1, Ecolon, Hm1 by lia.
        rewrite Er3, Ec. apply Hm2. lia.
      * destruct (c =? 125) eqn:Ec'; [|discriminate].
        inversion H; subst. split; [lia|].
        intros [|m] Hfuel; [lia|].
        rewrite parse_members_S_eq, Es, Eq, Ek, Er1, Ecolon, Hm1 by lia.
        now rewrite Er3, Ec, Ec'.
Qed.

(** Whatever [parse_value] finds with some fuel, it finds with the fuel that
    [parse] gives it. *)
Lemma parse_value_fuel (n : nat) (s : jstring) (v : jsval) (r : jstring) :
  parse_value n s = Some (v, r) ->
  parse_value (S (length s)) s = Some (v, r).
Proof.
  intros H. destruct (parse_fuel n) as (Hv & _).
  destruct (Hv tt s v r H) as [_ Hm]. apply Hm. lia.
Qed.

(** ** JSON strings: quoting then parsing *)

Lemma hex_value_digit (n : N) : n < 16 -> hex_value (hex_digit n) = Some n.
Proof.
  intros H. unfold hex_value, hex_digit, is_digit.
  destruct (n <? 10) eqn:E.
  - apply N.ltb_lt in E.
    replace ((48 <=? 48 + n) && (48 + n <=? 57)) with true.
    + f_equal. lia.
    + symmetry. apply andb_true_intro. split; apply N.leb_le; lia.
  - apply N.ltb_ge in E.
    replace ((48 <=? 87 + n) && (87 + n <=? 57)) with false.
    + replace ((97 <=? 87 + n) && (87 + n <=? 102)) with true.
      * f_equal. lia.
      * symmetry. apply andb_true_intro. split; apply N.leb_le; lia.
    + symmetry. apply andb_false_intro2. apply N.leb_gt. lia.
Qed.

Lemma hex_digits_recompose (c : N) :
  c < 65536 ->
  ((c / 4096 mod 16 * 16 + c / 256 mod 16) * 16 + c / 16 mod 16) * 16 + c mod 16 = c.
Proof.
  intros H.
  replace (c / 4096) with (c / 16 / 16 / 16) by (rewrite !N.Div0.div_div; reflexivity).
  replace (c / 256) with (c / 16 / 16) by (rewrite !N.Div0.div_div; reflexivity).
  pose proof (N.div_mod' c 16) as E0.
  pose proof (N.div_mod' (c / 16) 16) as E1.
  pose proof (N.div_mod' (c / 16 / 16) 16) as E2.
  pose proof (N.div_mod' (c / 16 / 16 / 16) 16) as E3.
  pose proof (N.mod_lt c 16 ltac:(discriminate)).
  pose proof (N.mod_lt (c / 16) 16 ltac:(discriminate)).
  pose proof (N.mod_lt (c / 16 / 16) 16 ltac:(discriminate)).
  pose proof (N.mod_lt (c / 16 / 16 / 16) 16 ltac:(discriminate)).
  generalize dependent (c mod 16). generalize dependent (c / 16 mod 16).
  generalize dependent (c / 16 / 16 mod 16).
  generalize dependent (c / 16 / 16 / 16 mod 16).
  generalize dependent (c / 16 / 16 / 16 / 16).
  generalize dependent (c / 16 / 16 / 16).
  generalize dependent (c / 16 / 16).
  generalize dependent (c / 16).
  intros. lia.
Qed.

Lemma hex4_unicode_escape (c : N) :
  c < 65536 ->
  hex4 (hex_digit (c / 4096 mod 16)) (hex_digit (c / 256 mod 16))
       (hex_digit (c / 16 mod 16)) (hex_digit (c mod 16)) = Some c.
Proof.
  intros H. unfold hex4.
  rewrite !hex_value_digit by (apply N.mod_lt; discriminate).
  f_equal. now apply hex_digits_recompose.
Qed.

Lemma parse_string_literal_unit (c : N) (tail str r : jstring) :
  c <> 34 -> c <> 92 -> 32 <= c ->
  parse_string_body tail = Some (str, r) ->
  parse_string_body (c :: tail) = Some (c :: str, r).
Proof.
  intros H34 H92 H32 Htail. cbn [parse_string_body].
  apply N.eqb_neq in H34. apply N.eqb_neq in H92. apply N.ltb_ge in H32.
  now rewrite H34, H92, H32, Htail.
Qed.

Lemma parse_unicode_escape (c : N) (tail str r : jstring) :
  c < 65536 ->
  parse_string_body tail = Some (str, r) ->
  parse_string_body (unicode_escape c ++ tail) = Some (c :: str, r).
Proof.
  intros Hc Htail. unfold unicode_escape.
  cbn [app parse_string_body N.eqb Pos.eqb].
  now rewrite hex4_unicode_escape, Htail.
Qed.

Lemma parse_quote_unit (c : N) (tail str r : jstring) :
  parse_string_body tail = Some (str, r) ->
  parse_string_body (quote_unit c ++ tail) = Some (c :: str, r).
Proof.
  intros Htail. unfold quote_unit.
  repeat match goal with
         | |- context [if ?x =? ?k then _ else _] =>
             destruct (N.eqb_spec x k);
             [subst; cbn [app parse_string_body N.eqb Pos.eqb];
              now rewrite Htail|]
         end.
  destruct ((c <? 32) || is_high_surrogate c || is_low_surrogate c) eqn:E.
  - apply parse_unicode_escape; [|assumption].
    unfold is_high_surrogate, is_low_surrogate in E.
    repeat (apply orb_prop in E as [E|E]).
    + apply N.ltb_lt in E. lia.
    + apply andb_prop in E as [_ E]. apply N.leb_le in E. lia.
    + apply andb_prop in E as [_ E]. apply N.leb_le in E. lia.
  - apply orb_false_elim in E as [E _]. apply orb_false_elim in E as [E _].
    apply N.ltb_ge in E.
    now apply parse_string_literal_unit.
Qed.

Lemma parse_quote_body_len (n : nat) :
  forall s rest, (length s <= n)%nat ->
  parse_string_body (quote_body s ++ 34 :: rest) = Some (s, rest).
Proof.
  induction n as [|n IH]; intros s rest Hlen.
  - destruct s; [reflexivity|simpl in Hlen; lia].
  - destruct s as [|c s']; [reflexivity|].
    simpl in Hlen. cbn [quote_body].
    destruct (is_high_surrogate c) eqn:Hh.
    + destruct s' as [|d s''].
      * apply parse_quote_unit. reflexivity.
      * destruct (is_low_surrogate d) eqn:Hl.
        -- unfold is_high_surrogate in Hh. unfold is_low_surrogate in Hl.
           apply andb_prop in Hh as [Hh1 Hh2]. apply andb_prop in Hl as [Hl1 Hl2].
           apply N.leb_le in Hh1, Hh2, Hl1, Hl2.
           cbn [app].
           apply parse_string_literal_unit; [lia..|].
           apply parse_string_literal_unit; [lia..|].
           apply IH. simpl in Hlen. lia.
        -- rewrite <- app_assoc. apply parse_quote_unit. apply IH. lia.
    + rewrite <- app_assoc. apply parse_quote_unit. apply IH. lia.
Qed.

Lemma parse_quote_body (s rest : jstring) :
  parse_string_body (quote_body s ++ 34 :: rest) = Some (s, rest).
Proof. now apply (parse_quote_body_len (length s)). Qed.
(** ** Decimal numerals *)

Lemma digits_value_app (acc : N) (l1 l2 : jstring) :
  digits_value acc (l1 ++ l2) = digits_value (digits_value acc l1) l2.
Proof. revert acc. induction l1 as [|d l1 IH]; intros acc; cbn; auto. Qed.

Lemma is_digit_char (n : N) : n < 10 -> is_digit (48 + n) = true.
Proof.
  intros H. unfold is_digit. apply andb_true_intro.
  split; apply N.leb_le; lia.
Qed.

Lemma digits_of_S (f : nat) (n : N) :
  digits_of (S f) n
  = if n <? 10 then [48 + n] else digits_of f (n / 10) ++ [48 + n mod 10].
Proof. reflexivity. Qed.

Lemma digits_of_spec (f : nat) :
  forall n, n < 2 ^ N.of_nat (S f) ->
  exists d t,
    digits_of (S f) n = d :: t
    /\ forallb is_digit (d :: t) = true
    /\ digits_value 0 (d :: t) = n
    /\ (d = 48 -> n = 0 /\ t = []).
Proof.
  induction f as [|f IH]; intros n Hn;
    rewrite digits_of_S; destruct (n <? 10) eqn:E;
    try (apply N.ltb_lt in E; exists (48 + n), []; repeat split;
         [cbn [forallb]; now rewrite is_digit_char | cbn; lia | lia]).
  - apply N.ltb_ge in E. cbn in Hn. lia.
  - apply N.ltb_ge in E.
    assert (Hdiv : n / 10 < 2 ^ N.of_nat (S f)).
    { rewrite (Nat2N.inj_succ (S f)), N.pow_succ_r' in Hn.
      assert (n / 10 <= n / 2) by (zify; Z.div_mod_to_equations; lia).
      assert (n / 2 < 2 ^ N.of_nat (S f))
        by (apply N.Div0.div_lt_upper_bound; lia).
      lia. }
    assert (Hpos : 1 <= n / 10) by (zify; Z.div_mod_to_equations; lia).
    destruct (IH _ Hdiv) as (d & t & Hds & Hall & Hval & Hhd).
    rewrite Hds. exists d, (t ++ [48 + n mod 10]).
    split; [reflexivity|]. split; [|split].
    + rewrite app_comm_cons, forallb_app, Hall. cbn [forallb].
      rewrite is_digit_char; [reflexivity|].
      apply N.mod_lt. discriminate.
    + rewrite app_comm_cons, digits_value_app, Hval. cbn [digits_value].
      rewrite (N.add_comm 48), N.add_sub. symmetry. apply N.div_mod'.
    + intros H48. destruct (Hhd H48) as [H0 _]. lia.
Qed.

Lemma N_toString_spec (n : N) :
  exists d t,
    N_toString n = d :: t
    /\ forallb is_digit (d :: t) = true
    /\ digits_value 0 (d :: t) = n
    /\ (d = 48 -> n = 0 /\ t = []).
Proof.
  unfold N_toString. apply digits_of_spec.
  destruct n as [|p]; [cbn; lia|].
  rewrite Nat2N.inj_succ, N2Nat.id.
  apply N.log2_spec. lia.
Qed.

Lemma span_digits_app (ds rest : jstring) :
  forallb is_digit ds = true -> digit_free_head rest ->
  span_digits (ds ++ rest) = (ds, rest).
Proof.
  intros Hds Hrest. induction ds as [|d ds IH]; cbn [app].
  - destruct rest as [|c rest]; [reflexivity|].
    cbn in *. now rewrite Hrest.
  - cbn in Hds. apply andb_prop in Hds as [Hd Hds].
    cbn [span_digits]. now rewrite Hd, IH.
Qed.

Lemma delimiter_head (rest : jstring) :
  delimiter rest = true ->
  digit_free_head rest
  /\ parse_frac_part rest = Some ([], rest)
  /\ parse_exp_part rest = Some ([], rest).
Proof.
  destruct rest as [|c rest]; [now cbn|].
  cbn [delimiter]. intros H.
  assert (Hc : c = 44 \/ c = 93 \/ c = 125).
  { repeat (apply orb_prop in H as [H|H]); apply N.eqb_eq in H; auto. }
  destruct Hc as [->|[->| ->]]; repeat split.
Qed.

Lemma parse_number_digits (negative : bool) (n : N) (rest : jstring) :
  (Z.of_N n <= MAX_SAFE_INTEGER)%Z ->
  delimiter rest = true ->
  parse_number ((if negative then [45] else []) ++ N_toString n ++ rest)
  = Some (JInt (if negative then - Z.of_N n else Z.of_N n)%Z, rest).
Proof.
  intros Hsafe Hrest.
  destruct (N_toString_spec n) as (d & t & Hds & Hall & Hval & Hhd).
  destruct (delimiter_head rest Hrest) as (Hfree & Hfrac & Hexp).
  assert (Hd : is_digit d = true)
    by (cbn in Hall; now apply andb_prop in Hall as [? _]).
  assert (Hint : parse_int_part (N_toString n ++ rest) = Some (d :: t, rest)).
  { rewrite Hds. cbn [app parse_int_part].
    destruct (N.eqb_spec d 48) as [->|Hne].
    - destruct (Hhd eq_refl) as [_ ->]. reflexivity.
    - rewrite Hd. rewrite (app_comm_cons t rest d).
      now rewrite span_digits_app. }
  assert (H45 : (d =? 45) = false).
  { unfold is_digit in Hd. apply andb_prop in Hd as [Hd _].
    apply N.leb_le in Hd. apply N.eqb_neq. lia. }
  unfold parse_number.
  destruct negative; cbn [app].
  - cbn [parse_sign N.eqb Pos.eqb]. rewrite Hint, Hfrac, Hexp, Hval.
    apply Z.leb_le in Hsafe. now rewrite Hsafe.
  - assert (Hsign : parse_sign (N_toString n ++ rest)
                    = (false, N_toString n ++ rest))
      by (rewrite Hds; cbn [app parse_sign]; now rewrite H45).
    rewrite Hsign, Hint, Hfrac, Hexp, Hval.
    apply Z.leb_le in Hsafe. now rewrite Hsafe.
Qed.

Lemma parse_number_Z (z : Z) (rest : jstring) :
  (Z.abs z <= MAX_SAFE_INTEGER)%Z ->
  delimiter rest = true ->
  parse_number (Z_toString z ++ rest) = Some (JInt z, rest).
Proof.
  intros Hsafe Hrest. destruct z as [|p|p].
  - apply (parse_number_digits false 0 rest); [discriminate|assumption].
  - apply (parse_number_digits false (Npos p) rest); assumption.
  - apply (parse_number_digits true (Npos p) rest); assumption.
Qed.

(** The first character of a decimal numeral. *)
Lemma Z_toString_head (z : Z) :
  exists c t, Z_toString z = c :: t /\ (c = 45 \/ is_digit c = true).
Proof.
  destruct z as [|p|p]; cbn [Z_toString].
  - exists 48, []. split; [reflexivity|right; reflexivity].
  - destruct (N_toString_spec (Npos p)) as (d & t & Hds & Hall & _).
    exists d, t. split; [assumption|]. right. cbn in Hall.
    now apply andb_prop in Hall as [? _].
  - eexists _, _. split; [reflexivity|now left].
Qed.

(** ** Values: serialising then parsing *)

(** Settles the comparisons of [c] with the characters it cannot be. *)
Ltac other_char c :=
  repeat match goal with
         | |- context [if c =? ?k then _ else _] =>
             destruct (N.eqb_spec c k); [lia|]
         | |- context [c =? ?k] =>
             destruct (N.eqb_spec c k); [lia|]
         end.

Lemma parse_value_S (f : nat) (c : N) (r : jstring) :
  is_json_ws c = false ->
  parse_value (S f) (c :: r)
  = if c =? 110 then
      match expect str_null (c :: r) with
      | Some r' => Some (JNull, r') | None => None end
    else if c =? 116 then
      match expect str_true (c :: r) with
      | Some r' => Some (JBool true, r') | None => None end
    else if c =? 102 then
      match expect str_false (c :: r) with
      | Some r' => Some (JBool false, r') | None => None end
    else if c =? 34 then
      match parse_string_body r with
      | Some (str, r') => Some (JStr str, r') | None => None end
    else if c =? 91 then
      match skip_ws r with
      | [] => None
      | d :: r' =>
          if d =? 93 then Some (JArr [], r') else parse_elements f [] r
      end
    else if c =? 123 then
      match skip_ws r with
      | [] => None
      | d :: r' =>
          if d =? 125 then Some (JObj [], r') else parse_members f [] r
      end
    else if (c =? 45) || is_digit c then parse_number (c :: r)
    else None.
Proof. intros Hws. cbn [parse_value skip_ws]. now rewrite Hws. Qed.

Lemma parse_value_quote (f : nat) (s rest : jstring) :
  parse_value (S f) (quote s ++ rest) = Some (JStr s, rest).
Proof.
  unfold quote. cbn [app]. rewrite parse_value_S by reflexivity.
  cbn [N.eqb Pos.eqb]. rewrite <- app_assoc. cbn [app].
  now rewrite parse_quote_body.
Qed.

Lemma parse_value_number (f : nat) (z : Z) (rest : jstring) :
  (Z.abs z <= MAX_SAFE_INTEGER)%Z -> delimiter rest = true ->
  parse_value (S f) (Z_toString z ++ rest) = Some (JInt z, rest).
Proof.
  intros Hsafe Hrest.
  rewrite <- (parse_number_Z z rest Hsafe Hrest).
  destruct (Z_toString_head z) as (c & t & -> & Hc).
  cbn [app].
  assert (Hrange : c = 45 \/ 48 <= c <= 57).
  { destruct Hc as [->|Hd]; [now left|right].
    unfold is_digit in Hd. apply andb_prop in Hd as [H1 H2].
    apply N.leb_le in H1, H2. lia. }
  rewrite parse_value_S.
  - other_char c.
    replace ((c =? 45) || is_digit c) with true; [reflexivity|].
    symmetry. destruct Hc as [->|Hd]; [reflexivity|].
    rewrite Hd. apply orb_true_r.
  - unfold is_json_ws.
    other_char c. reflexivity.
Qed.

(** A serialised value starts with a character that is neither whitespace
    nor a closing bracket or brace. *)
Lemma stringify_head (v : jsval) :
  storable v = true ->
  exists c t,
    stringify v = c :: t
    /\ is_json_ws c = false /\ (c =? 93) = false /\ (c =? 125) = false.
Proof.
  intros Hst. destruct v as [|[]|z|lexeme|s|l|ps|t]; cbn [stringify];
    try (eexists _, _; repeat split; reflexivity).
  - destruct (Z_toString_head z) as (c & t & -> & Hc).
    exists c, t. split; [reflexivity|].
    assert (Hrange : c = 45 \/ 48 <= c <= 57).
    { destruct Hc as [->|Hd]; [now left|right].
      unfold is_digit in Hd. apply andb_prop in Hd as [H1 H2].
      apply N.leb_le in H1, H2. lia. }
    unfold is_json_ws.
    other_char c. repeat split.
  - discriminate.
  - destruct (toISOString t); eexists _, _; repeat split; reflexivity.
Qed.

Lemma skip_ws_stringify (v : jsval) (rest : jstring) :
  storable v = true -> skip_ws (stringify v ++ rest) = stringify v ++ rest.
Proof.
  intros Hst. destruct (stringify_head v Hst) as (c & t & -> & Hws & _).
  cbn [app skip_ws]. now rewrite Hws.
Qed.

(** ** Property order *)

Lemma has_key_existsb (k : jstring) (ps : list (jstring * jsval)) :
  has_key k ps = existsb (jstring_eqb k) (map fst ps).
Proof.
  induction ps as [|[k' v'] ps IH]; cbn; [reflexivity|]. now rewrite IH.
Qed.

Lemma insert_index_append (i : N) (k : jstring) (v : jsval)
  (ps : list (jstring * jsval)) :
  forallb (index_below i) (map fst ps) = true ->
  insert_index i k v ps = ps ++ [(k, v)].
Proof.
  induction ps as [|[k' v'] ps IH]; cbn [map fst forallb insert_index app];
    [reflexivity|].
  intros H. apply andb_prop in H as [Hk Hps].
  unfold index_below in Hk. destruct (array_index k') as [j|]; [|discriminate].
  rewrite Hk. now rewrite IH.
Qed.

(** Creating an appendable key puts it at the end. *)
Lemma obj_set_append (k : jstring) (v : jsval) (ps : list (jstring * jsval)) :
  appendable k (map fst ps) = true ->
  obj_set k v ps = ps ++ [(k, v)].
Proof.
  unfold appendable, obj_set. intros H.
  apply andb_prop in H as [Hnew Hord].
  rewrite has_key_existsb.
  apply negb_true_iff in Hnew. rewrite Hnew.
  destruct (array_index k) as [i|]; [|reflexivity].
  now apply insert_index_append.
Qed.

(** ** Arrays and objects *)

Lemma parse_elements_stringify (l : list jsval) :
  Forall round_trips l ->
  forallb storable l = true ->
  l <> [] ->
  forall fuel acc rest,
    (elements_fuel l <= fuel)%nat ->
    parse_elements fuel acc (join_comma (map stringify l) ++ 93 :: rest)
    = Some (JArr (rev acc ++ map to_JSON l), rest).
Proof.
  induction l as [|e l IH]; intros Hall Hst Hne fuel acc rest Hfuel;
    [contradiction|].
  apply Forall_cons in Hall as [He Hl].
  cbn [forallb] in Hst. apply andb_prop in Hst as [Hste Hstl].
  cbn [elements_fuel fold_right] in Hfuel. fold (elements_fuel l) in Hfuel.
  destruct fuel as [|f]; [lia|].
  rewrite parse_elements_S_eq.
  destruct l as [|e2 l'].
  - cbn [map join_comma].
    rewrite (He Hste f (93 :: rest)) by (try reflexivity; lia).
    cbn [skip_ws is_json_ws N.eqb Pos.eqb orb].
    reflexivity.
  - change (join_comma (map stringify (e :: e2 :: l')))
      with (stringify e ++ 44 :: join_comma (map stringify (e2 :: l'))).
    rewrite <- app_assoc. cbn [app].
    rewrite (He Hste f (44 :: _)) by (try reflexivity; lia).
    cbn [skip_ws is_json_ws N.eqb Pos.eqb orb].
    rewrite (IH Hl Hstl) by (try discriminate; lia).
    cbn [rev map]. now rewrite <- app_assoc.
Qed.

Lemma parse_members_S (f : nat) (acc : list (jstring * jsval)) (r : jstring) :
  parse_members (S f) acc (34 :: r)
  = match parse_string_body r with
    | None => None
    | Some (k, r1) =>
        match skip_ws r1 with
        | [] => None
        | colon :: r2 =>
            if colon =? 58 then
              match parse_value f r2 with
              | None => None
              | Some (v, r3) =>
                  match skip_ws r3 with
                  | c :: r4 =>
                      if c =? 44
                      then parse_members f (obj_set k v acc) r4
                      else if c =? 125
                      then Some (JObj (obj_set k v acc), r4)
                      else None
                  | [] => None
                  end
              end
            else None
        end
    end.
Proof. reflexivity. Qed.

Lemma parse_members_stringify (ps : list (jstring * jsval)) :
  Forall (fun kv => round_trips (snd kv)) ps ->
  forallb (fun kv => storable (snd kv)) ps = true ->
  ps <> [] ->
  forall fuel acc rest,
    property_order (map fst acc) (map fst ps) = true ->
    (members_fuel ps <= fuel)%nat ->
    parse_members fuel acc (join_comma (map member_text ps) ++ 125 :: rest)
    = Some (JObj (acc ++ map (fun kv => (fst kv, to_JSON (snd kv))) ps), rest).
Proof.
  induction ps as [|[k v] ps IH]; intros Hall Hst Hne fuel acc rest Hord Hfuel;
    [contradiction|].
  apply Forall_cons in Hall as [Hv Hps]. cbn [snd] in Hv.
  cbn [forallb snd] in Hst. apply andb_prop in Hst as [Hstv Hstps].
  cbn [members_fuel fold_right snd] in Hfuel. fold (members_fuel ps) in Hfuel.
  cbn [map fst property_order] in Hord. apply andb_prop in Hord as [Hk Hord].
  destruct fuel as [|f]; [lia|].
  destruct ps as [|kv2 ps'].
  - cbn [map join_comma]. unfold member_text at 1. cbn [fst snd].
    unfold quote. cbn [app]. rewrite parse_members_S.
    rewrite <- !app_assoc. cbn [app]. rewrite parse_quote_body.
    cbn [skip_ws is_json_ws N.eqb Pos.eqb orb].
    rewrite (Hv Hstv f (125 :: rest)) by (try reflexivity; lia).
    cbn [skip_ws is_json_ws N.eqb Pos.eqb orb].
    now rewrite obj_set_append.
  - change (join_comma (map member_text ((k, v) :: kv2 :: ps')))
      with (member_text (k, v) ++ 44 :: join_comma (map member_text (kv2 :: ps'))).
    unfold member_text at 1. cbn [fst snd].
    unfold quote. cbn [app]. rewrite parse_members_S.
    rewrite <- !app_assoc. cbn [app]. rewrite parse_quote_body.
    cbn [skip_ws is_json_ws N.eqb Pos.eqb orb].
    rewrite (Hv Hstv f (44 :: _)) by (try reflexivity; lia).
    cbn [skip_ws is_json_ws N.eqb Pos.eqb orb].
    rewrite obj_set_append by assumption.
    rewrite (IH Hps Hstps).
    + cbn [map fst snd]. now rewrite <- app_assoc.
    + discriminate.
    + rewrite map_app. exact Hord.
    + lia.
Qed.

Theorem parse_value_stringify (v : jsval) : round_trips v.
Proof.
  induction v as [|b|z|lexeme|s|l IH|ps IH|t] using jsval_ind;
    intros Hst fuel rest Hfuel Hrest;
    (destruct fuel as [|f]; [cbn in Hfuel; lia|]).
  - reflexivity.
  - destruct b; reflexivity.
  - now apply parse_value_number; [apply Z.leb_le|].
  - discriminate.
  - apply parse_value_quote.
  - cbn [stringify to_JSON]. cbn [app]. rewrite parse_value_S by reflexivity.
    cbn [N.eqb Pos.eqb]. cbn [storable] in Hst.
    cbn [nesting] in Hfuel. fold (elements_fuel l) in Hfuel.
    destruct l as [|e l'].
    + reflexivity.
    + rewrite <- app_assoc. cbn [app].
      assert (Hhead : exists c t,
                 join_comma (map stringify (e :: l')) ++ 93 :: rest = c :: t
                 /\ is_json_ws c = false /\ (c =? 93) = false).
      { cbn [forallb] in Hst. apply andb_prop in Hst as [Hste _].
        destruct (stringify_head e Hste) as (c & t & Hc & Hws & H93 & _).
        exists c. destruct l'; cbn [map join_comma]; rewrite Hc;
          eexists; repeat split; eauto. }
      destruct Hhead as (c & t & Heq & Hws & H93).
      rewrite Heq at 1. cbn [skip_ws]. rewrite Hws, H93.
      apply parse_elements_stringify; try assumption; [discriminate|lia].
  - cbn [stringify to_JSON]. cbn [app]. rewrite parse_value_S by reflexivity.
    cbn [N.eqb Pos.eqb]. cbn [storable] in Hst.
    apply andb_prop in Hst as [Hord Hst].
    cbn [nesting] in Hfuel. fold (members_fuel ps) in Hfuel.
    destruct ps as [|kv ps'].
    + reflexivity.
    + rewrite <- app_assoc. cbn [app].
      fold (member_text). 
      change (map (fun kv0 => quote (fst kv0) ++ 58 :: stringify (snd kv0)) (kv :: ps'))
        with (map member_text (kv :: ps')).
      assert (Hhead : exists t,
                 join_comma (map member_text (kv :: ps')) ++ 125 :: rest = 34 :: t).
      { destruct ps'; cbn [map join_comma]; unfold member_text at 1, quote;
          cbn [app]; eexists; reflexivity. }
      destruct Hhead as (t & Heq).
      rewrite Heq at 1. cbn [skip_ws is_json_ws N.eqb Pos.eqb orb].
      rewrite (parse_members_stringify (kv :: ps') IH Hst) with (acc := []);
        [reflexivity|discriminate|exact Hord|lia].
  - cbn [stringify to_JSON]. destruct (toISOString t).
    + apply parse_value_quote.
    + reflexivity.
Qed.

(** [JSON.parse(JSON.stringify(v))] is [v] with its dates turned into
    strings. *)
Lemma parse_stringify (v : jsval) :
  storable v = true -> parse (stringify v) = Some (to_JSON v).
Proof.
  intros Hst. unfold parse.
  pose proof (parse_value_stringify v Hst (nesting v) [] (le_n _) eq_refl) as H.
  rewrite app_nil_r in H. apply parse_value_fuel in H.
  now rewrite H.
Qed.

(** ** The built-in string operations *)

Lemma through_last_close_None (s : jstring) :
  through_last_close s = None <-> ~ In 93 s.
Proof.
  induction s as [|c s IH]; cbn [through_last_close In]; [tauto|].
  destruct (through_last_close s) as [m|].
  - split; [discriminate|]. intros H. exfalso.
    assert (Some m = None) by (apply IH; tauto). discriminate.
  - destruct (N.eqb_spec c 93) as [->|Hne].
    + split; [discriminate|tauto].
    + split; [|reflexivity]. intros _ [H|H]; [congruence|].
      now apply (proj1 IH).
Qed.

(** [through_last_close] keeps the text up to its last closing bracket. *)
Lemma through_last_close_Some (s m : jstring) :
  through_last_close s = Some m ->
  exists body post, s = body ++ 93 :: post /\ ~ In 93 post /\ m = body ++ [93].
Proof.
  revert m. induction s as [|c s IH]; intros m; cbn [through_last_close];
    [discriminate|].
  destruct (through_last_close s) as [m'|] eqn:E.
  - intros H; inversion H; subst.
    destruct (IH m' eq_refl) as (body & post & -> & Hpost & ->).
    now exists (c :: body), post.
  - destruct (N.eqb_spec c 93) as [->|Hne]; [|discriminate].
    intros H; inversion H; subst.
    exists [], s. repeat split. now apply through_last_close_None.
Qed.

(** The match of [/\[[\s\S]*\]/] runs from the first opening bracket to the
    last closing bracket of the text. *)
Lemma match_bracketed_Some (s m : jstring) :
  match_bracketed s = Some m ->
  exists pre body post,
    s = pre ++ 91 :: body ++ 93 :: post
    /\ ~ In 91 pre /\ ~ In 93 post
    /\ m = 91 :: body ++ [93].
Proof.
  revert m. induction s as [|c s IH]; intros m; cbn [match_bracketed];
    [discriminate|].
  destruct (N.eqb_spec c 91) as [->|Hne].
  - destruct (through_last_close s) as [m'|] eqn:E.
    + intros H; inversion H; subst.
      apply through_last_close_Some in E as (body & post & -> & Hpost & ->).
      exists [], body, post. repeat split; auto.
    + intros H. destruct (IH m H) as (pre & body & post & -> & _ & _ & _).
      apply through_last_close_None in E. exfalso. apply E.
      apply in_or_app. right. right. apply in_or_app. right. now left.
  - intros H. destruct (IH m H) as (pre & body & post & -> & Hpre & Hpost & ->).
    exists (c :: pre), body, post. repeat split; auto.
    intros [Hc|Hin]; [congruence|contradiction].
Qed.

(** There is no match exactly when no opening bracket is followed by a
    closing one. *)
Lemma match_bracketed_None (s : jstring) :
  match_bracketed s = None <->
  ~ exists pre body post, s = pre ++ 91 :: body ++ 93 :: post.
Proof.
  split.
  - intros Hnone (pre & body & post & ->).
    induction pre as [|c pre IH]; cbn [app match_bracketed] in Hnone.
    + destruct (through_last_close (body ++ 93 :: post)) eqn:E; [discriminate|].
      apply through_last_close_None in E. apply E.
      apply in_or_app. right. now left.
    + destruct (c =? 91); [|now apply IH].
      destruct (through_last_close _); [discriminate|now apply IH].
  - intros H. destruct (match_bracketed s) as [m|] eqn:E; [|reflexivity].
    exfalso. apply H.
    apply match_bracketed_Some in E as (pre & body & post & -> & _).
    eauto.
Qed.

Lemma drop_spaces_spec (s : jstring) :
  exists ws, s = ws ++ drop_spaces s
             /\ forallb is_space ws = true
             /\ match drop_spaces s with
                | c :: _ => is_space c = false
                | [] => True
                end.
Proof.
  induction s as [|c s (ws & Hs & Hws & Hhd)]; cbn [drop_spaces].
  - now exists [].
  - destruct (is_space c) eqn:E.
    + exists (c :: ws). cbn [app forallb]. rewrite E, Hws.
      repeat split; [congruence|assumption].
    + exists []. repeat split. assumption.
Qed.

(** [trim] removes a run of whitespace at each end and leaves a text that
    neither starts nor ends with whitespace. *)
Lemma trim_spec (s : jstring) :
  exists leading trailing,
    s = leading ++ trim s ++ trailing
    /\ forallb is_space leading = true
    /\ forallb is_space trailing = true
    /\ match trim s with
       | c :: _ => is_space c = false
       | [] => True
       end
    /\ match rev (trim s) with
       | c :: _ => is_space c = false
       | [] => True
       end.
Proof.
  unfold trim, trimEnd, trimStart.
  destruct (drop_spaces_spec s) as (lead & Hs & Hlead & Hhd).
  destruct (drop_spaces_spec (rev (drop_spaces s))) as (tr & Hr & Htr & Hhd').
  exists lead, (rev tr). split; [|split; [|split; [|split]]].
  - rewrite Hs at 1. f_equal.
    rewrite <- rev_app_distr, <- Hr. now rewrite rev_involutive.
  - assumption.
  - rewrite forallb_forall in Htr |- *. intros c Hc. apply Htr.
    now apply in_rev.
  - (* the first character survives from [drop_spaces s] *)
    destruct (rev (drop_spaces (rev (drop_spaces s)))) as [|c t] eqn:E; [trivial|].
    assert (Hin : drop_spaces s = c :: t ++ rev tr).
    { rewrite <- (rev_involutive (drop_spaces s)), Hr, rev_app_distr, E.
      reflexivity. }
    rewrite Hin in Hhd. exact Hhd.
  - rewrite rev_involutive. exact Hhd'.
Qed.

Lemma span_digits_spec (s : jstring) :
  s = fst (span_digits s) ++ snd (span_digits s)
  /\ forallb is_digit (fst (span_digits s)) = true.
Proof.
  induction s as [|c s [IH1 IH2]]; cbn [span_digits]; [now split|].
  destruct (is_digit c) eqn:E.
  - destruct (span_digits s) as [ds r]. cbn [fst snd app forallb] in *.
    rewrite E, IH2. split; [congruence|reflexivity].
  - now split.
Qed.

(** [strip_ordinal] removes a leading run of digits, the dot after it and
    the whitespace after the dot; a line without such a prefix is kept. *)
Lemma strip_ordinal_numbered (ds rest : jstring) :
  ds <> [] -> forallb is_digit ds = true ->
  strip_ordinal (ds ++ 46 :: rest) = drop_spaces rest.
Proof.
  intros Hne Hds. unfold strip_ordinal.
  rewrite span_digits_app by (assumption || reflexivity).
  destruct ds; [contradiction|reflexivity].
Qed.

Lemma strip_ordinal_other (line : jstring) :
  (~ exists ds rest,
       ds <> [] /\ forallb is_digit ds = true /\ line = ds ++ 46 :: rest) ->
  strip_ordinal line = line.
Proof.
  intros H. unfold strip_ordinal.
  destruct (span_digits_spec line) as [Hline Hds].
  destruct (span_digits line) as [[|d ds] [|c r]]; try reflexivity.
  cbn [fst snd] in *.
  destruct (N.eqb_spec c 46) as [->|_]; [|reflexivity].
  exfalso. apply H. exists (d :: ds), r. repeat split; [discriminate|assumption..].
Qed.

(** ** Quiz results *)

Lemma finishQuiz_result (r : Reading) (st : QuizState) :
  quizResults (finishQuiz r st)
  = {| result_id := Z_toString (now_ms r);
       score := length (List.filter correct
                          (map (answer_record (selectedAnswers st)) (questions st)));
       totalQuestions := length (questions st);
       answers := map (answer_record (selectedAnswers st)) (questions st);
       completedAt := date_ms r |} :: quizResults st.
Proof. reflexivity. Qed.

Lemma filter_length_le {A} (f : A -> bool) (l : list A) :
  (length (List.filter f l) <= length l)%nat.
Proof.
  induction l as [|a l IH]; simpl; [lia|].
  destruct (f a); simpl; lia.
Qed.

Lemma filter_map_comm {A B} (f : B -> bool) (g : A -> B) (l : list A) :
  length (List.filter f (map g l)) = length (List.filter (fun a => f (g a)) l).
Proof.
  induction l as [|a l IH]; simpl; [reflexivity|].
  destruct (f (g a)); simpl; now rewrite IH.
Qed.

(** ** The quiz at run time *)

Lemma map_throwing_Ok {A B} (f : A -> result B) (array : list A) (bs : list B) :
  Runtime.map_throwing f array = Ok bs <->
  Forall2 (fun a b => f a = Ok b) array bs.
Proof.
  revert bs. induction array as [|a array IH]; intros bs; cbn [Runtime.map_throwing].
  - split.
    + intros [= <-]. constructor.
    + intros H. apply Forall2_nil_inv_l in H. now subst.
  - split.
    + destruct (f a) as [b|m] eqn:Ea; cbn [rbind]; [|discriminate].
      destruct (Runtime.map_throwing f array) as [bs'|m] eqn:Erest; cbn [rbind];
        [|discriminate].
      intros [= <-]. constructor; [assumption|]. now apply IH.
    + intros H. apply Forall2_cons_inv_l in H as (b & bs' & Hb & Hbs & ->).
      rewrite Hb. cbn [rbind]. apply IH in Hbs. now rewrite Hbs.
Qed.

Lemma map_throwing_total {A B} (f : A -> result B) (array : list A) :
  Forall (fun a => exists b, f a = Ok b) array ->
  exists bs, Runtime.map_throwing f array = Ok bs.
Proof.
  induction 1 as [|a array [b Hb] _ [bs Hbs]]; [now exists []|].
  exists (b :: bs). cbn [Runtime.map_throwing]. now rewrite Hb, Hbs.
Qed.

Lemma list_not_cons_self {A} (x : A) (l : list A) : l <> x :: l.
Proof.
  intros H. apply (f_equal length) in H. cbn in H. lia.
Qed.

(** The result that [finishQuiz] adds, if it adds one. *)
Lemma finishQuiz_built (js : Runtime.Engine) (r : Reading) (st : Runtime.QuizState)
  (result : Runtime.QuizResult) :
  Runtime.quizResults (Runtime.finishQuiz js r st)
  = Runtime.Built result :: Runtime.quizResults st <->
  exists records,
    Runtime.map_throwing (Runtime.answer_record js (Runtime.selectedAnswers st))
                         (Runtime.questions st) = Ok records
    /\ result = {| Runtime.result_id := Z_toString (now_ms r);
                   Runtime.score := length (List.filter Runtime.correct records);
                   Runtime.totalQuestions := length (Runtime.questions st);
                   Runtime.answers := records;
                   Runtime.completedAt := date_ms r |}.
Proof.
  unfold Runtime.finishQuiz.
  destruct (Runtime.map_throwing _ _) as [records|m]; cbn [Runtime.quizResults].
  - split.
    + intros [= <-]. now exists records.
    + intros (records' & [= <-] & ->). reflexivity.
  - split.
    + intros H. now apply list_not_cons_self in H.
    + intros (records' & [=] & _).
Qed.

Lemma answer_record_Ok (js : Runtime.Engine) (selected : gmap (list N) Z)
  (question : jsval) (record : Runtime.Answer) :
  Runtime.answer_record js selected question = Ok record <->
  exists id key correctAnswer,
    get_property (u16 "id") question = Ok id
    /\ Runtime.property_key js id = Ok key
    /\ get_property (u16 "correctAnswer") question = Ok correctAnswer
    /\ record
       = {| Runtime.questionId := id;
            Runtime.selectedAnswer :=
              default Runtime.UNANSWERED (Runtime.get_selected selected key);
            Runtime.correct :=
              Runtime.strict_equal js (Runtime.get_selected selected key)
                                   correctAnswer |}.
Proof.
  unfold Runtime.answer_record. split.
  - destruct (get_property (u16 "id") question) as [id|] eqn:Eid; cbn [rbind];
      [|discriminate].
    destruct (Runtime.property_key js id) as [key|] eqn:Ekey; cbn [rbind];
      [|discriminate].
    destruct (get_property (u16 "correctAnswer") question) as [answer|] eqn:Ea;
      cbn [rbind]; [|discriminate].
    intros [= <-]. now exists id, key, answer.
  - intros (id & key & answer & -> & Hkey & -> & ->). cbn [rbind].
    now rewrite Hkey.
Qed.

Lemma finishQuiz_shows_results (js : Runtime.Engine) (r : Reading)
  (st : Runtime.QuizState) :
  Runtime.showResults (Runtime.finishQuiz js r st) = true.
Proof. unfold Runtime.finishQuiz. now destruct (Runtime.map_throwing _ _). Qed.

(** An object with a string under [id]: what [generateQuestions] builds. *)
Lemma answer_record_object (js : Runtime.Engine) (selected : gmap (list N) Z)
  (fields : list (jstring * jsval)) (id : jstring) :
  own_property (u16 "id") fields = Some (JStr id) ->
  Runtime.answer_record js selected (JObj fields)
  = Ok {| Runtime.questionId := Some (JStr id);
          Runtime.selectedAnswer :=
            default Runtime.UNANSWERED (Runtime.get_selected selected id);
          Runtime.correct :=
            Runtime.strict_equal js (Runtime.get_selected selected id)
                                 (own_property (u16 "correctAnswer") fields) |}.
Proof.
  intros Hid. unfold Runtime.answer_record. cbn [get_property rbind].
  rewrite Hid. reflexivity.
Qed.

Lemma get_selected_unset (selected : gmap (list N) Z) (key : jstring) :
  selected !! key = None -> Runtime.inherited key = false ->
  Runtime.get_selected selected key = None.
Proof. intros Hnone Hinh. unfold Runtime.get_selected. now rewrite Hnone, Hinh. Qed.

Lemma get_selected_own (selected : gmap (list N) Z) (key : jstring) (x : Z) :
  selected !! key = Some x ->
  Runtime.get_selected selected key = Some (Runtime.Index x).
Proof. intros Hx. unfold Runtime.get_selected. now rewrite Hx. Qed.

Lemma strict_equal_undefined (js : Runtime.Engine) (correctAnswer : option jsval) :
  Runtime.strict_equal js None correctAnswer
  = match correctAnswer with None => true | Some _ => false end.
Proof. now destruct correctAnswer. Qed.

(** C3. [finishQuiz] builds a result whenever every question is an object
    with a string under [id] (it builds none when reading a question
    throws). A result it builds has one answer record per question, in
    question order. The record of a question carries the question's [id];
    its selection is what [selectedAnswers] holds under that id, or the
    sentinel -1 when it holds nothing; its correctness flag is recomputed as
    the strict comparison of that selection with the question's
    [correctAnswer]. So a question that was not answered gets the sentinel
    and the flag false, provided it has a [correctAnswer] and its id is not a
    name that every object inherits. In a set of three questions of which
    the third is such a question, the third record is (id, -1, false). *)
Theorem finishQuiz_answers (js : Runtime.Engine) (r : Reading)
  (st : Runtime.QuizState) :
  (Forall (fun question =>
             exists fields id, question = JObj fields
                               /\ own_property (u16 "id") fields = Some (JStr id))
          (Runtime.questions st) ->
   exists result,
     Runtime.quizResults (Runtime.finishQuiz js r st)
     = Runtime.Built result :: Runtime.quizResults st)
  /\ Runtime.showResults (Runtime.finishQuiz js r st) = true
  /\ forall result,
       Runtime.quizResults (Runtime.finishQuiz js r st)
       = Runtime.Built result :: Runtime.quizResults st ->
       length (Runtime.answers result) = length (Runtime.questions st)
       /\ (forall i question,
             Runtime.questions st !! i = Some question ->
             exists id key correctAnswer,
               get_property (u16 "id") question = Ok id
               /\ Runtime.property_key js id = Ok key
               /\ get_property (u16 "correctAnswer") question = Ok correctAnswer
               /\ Runtime.answers result !! i
                  = Some {| Runtime.questionId := id;
                            Runtime.selectedAnswer :=
                              default (Runtime.Index (-1))
                                (Runtime.get_selected (Runtime.selectedAnswers st) key);
                            Runtime.correct :=
                              Runtime.strict_equal js
                                (Runtime.get_selected (Runtime.selectedAnswers st) key)
                                correctAnswer |}
               /\ (Runtime.selectedAnswers st !! key = None ->
                   Runtime.inherited key = false ->
                   correctAnswer <> None ->
                   Runtime.answers result !! i
                   = Some {| Runtime.questionId := id;
                             Runtime.selectedAnswer := Runtime.Index (-1);
                             Runtime.correct := false |})
               /\ (forall x,
                     Runtime.selectedAnswers st !! key = Some x ->
                     Runtime.answers result !! i
                     = Some {| Runtime.questionId := id;
                               Runtime.selectedAnswer := Runtime.Index x;
                               Runtime.correct :=
                                 Runtime.strict_equal js (Some (Runtime.Index x))
                                                      correctAnswer |}))
       /\ (forall q1 q2 fields id answer,
             Runtime.questions st = [q1; q2; JObj fields] ->
             own_property (u16 "id") fields = Some (JStr id) ->
             own_property (u16 "correctAnswer") fields = Some answer ->
             Runtime.selectedAnswers st !! id = None ->
             Runtime.inherited id = false ->
             Runtime.answers result !! 2%nat
             = Some {| Runtime.questionId := Some (JStr id);
                       Runtime.selectedAnswer := Runtime.Index (-1);
                       Runtime.correct := false |}).
Proof.
  split; [|split].
  - intros Hall.
    destruct (map_throwing_total
                (Runtime.answer_record js (Runtime.selectedAnswers st))
                (Runtime.questions st)) as [records Hrecords].
    { eapply List.Forall_impl; [|exact Hall].
      intros question (fields & id & -> & Hid).
      eexists. exact (answer_record_object js _ fields id Hid). }
    eexists. apply finishQuiz_built. exists records. split; [exact Hrecords|reflexivity].
  - apply finishQuiz_shows_results.
  - intros result Hbuilt.
    apply finishQuiz_built in Hbuilt as (records & Hrecords & ->).
    cbn [Runtime.answers].
    apply map_throwing_Ok in Hrecords.
    assert (Heach : forall i question,
               Runtime.questions st !! i = Some question ->
               exists record,
                 records !! i = Some record
                 /\ Runtime.answer_record js (Runtime.selectedAnswers st) question
                    = Ok record).
    { intros i question Hi.
      destruct (Forall2_lookup_l _ _ _ _ _ Hrecords Hi) as (record & Hrec & Hok).
      now exists record. }
    split; [symmetry; eapply Forall2_length; exact Hrecords|]. split.
    + intros i question Hi.
      destruct (Heach i question Hi) as (record & Hrec & Hok).
      apply answer_record_Ok in Hok as (id & key & answer & Hid & Hkey & Hans & ->).
      exists id, key, answer.
      split; [exact Hid|]. split; [exact Hkey|]. split; [exact Hans|].
      split; [exact Hrec|]. split.
      * intros Hnone Hinh Hanswer. rewrite Hrec.
        rewrite (get_selected_unset _ _ Hnone Hinh). cbn [default].
        rewrite strict_equal_undefined. now destruct answer.
      * intros x Hx. rewrite Hrec.
        now rewrite (get_selected_own _ _ _ Hx).
    + intros q1 q2 fields id answer Hqs Hid Hanswer Hnone Hinh.
      destruct (Heach 2%nat (JObj fields)) as (record & Hrec & Hok).
      { now rewrite Hqs. }
      rewrite (answer_record_object js _ fields id Hid) in Hok.
      injection Hok as <-. rewrite Hrec.
      now rewrite (get_selected_unset _ _ Hnone Hinh), Hanswer.
Qed.

(** Three well-formed questions, two of them answered. *)
Lemma finishQuiz_answers_witness :
  exists result,
    Runtime.quizResults
      (Runtime.finishQuiz plain_engine sample_reading (QuizState_runtime sample_quiz))
    = [Runtime.Built result]
    /\ Runtime.answers result !! 2%nat
       = Some {| Runtime.questionId := Some (JStr (u16 "q3"));
                 Runtime.selectedAnswer := Runtime.Index (-1);
                 Runtime.correct := false |}.
Proof.
  destruct (finishQuiz_answers plain_engine sample_reading
              (QuizState_runtime sample_quiz)) as (Hbuilt & _ & Hresult).
  destruct Hbuilt as [result Hres].
  { repeat constructor; eexists _, _; (split; [reflexivity|reflexivity]). }
  exists result. split; [exact Hres|].
  destruct (Hresult result Hres) as (_ & _ & Hthird).
  exact (Hthird _ _ _ (u16 "q3") (JInt 2) eq_refl eq_refl eq_refl eq_refl eq_refl).
Defined.

(** C3, as stated, fails on two kinds of question that the component can
    hold: an unanswered question without [correctAnswer] is flagged correct,
    and an unanswered question whose id is a name that objects inherit does
    not get the sentinel. *)
Lemma finishQuiz_unanswered_flagged_correct :
  Runtime.quizResults
    (Runtime.finishQuiz plain_engine sample_reading
       (runtime_quiz [question_without_answer "q1"] ∅))
  = [Runtime.Built
       {| Runtime.result_id := u16 "1700000000000";
          Runtime.score := 1;
          Runtime.totalQuestions := 1;
          Runtime.answers :=
            [{| Runtime.questionId := Some (JStr (u16 "q1"));
                Runtime.selectedAnswer := Runtime.Index (-1);
                Runtime.correct := true |}];
          Runtime.completedAt := 1700000000001 |}]
  /\ Runtime.quizResults
       (Runtime.finishQuiz plain_engine sample_reading
          (runtime_quiz [MCQuestion_value (sample_question (u16 "constructor") 0)] ∅))
     = [Runtime.Built
          {| Runtime.result_id := u16 "1700000000000";
             Runtime.score := 0;
             Runtime.totalQuestions := 1;
             Runtime.answers :=
               [{| Runtime.questionId := Some (JStr (u16 "constructor"));
                   Runtime.selectedAnswer := Runtime.Inherited (u16 "constructor");
                   Runtime.correct := false |}];
             Runtime.completedAt := 1700000000001 |}].
Proof. split; reflexivity. Qed.

(** C9. The score of a fresh result is the number of its answer records
    flagged correct, which is the number of questions whose stored selection
    equals their [correctAnswer]; it lies between 0 and [totalQuestions],
    the size of the question set. *)
Theorem finishQuiz_score (r : Reading) (st : QuizState) :
  exists result,
    quizResults (finishQuiz r st) = result :: quizResults st
    /\ score result = length (List.filter correct (answers result))
    /\ score result
       = length (List.filter
                   (fun q => strict_equal (selectedAnswers st !! mcq_id q)
                                          (mcq_correctAnswer q))
                   (questions st))
    /\ totalQuestions result = length (questions st)
    /\ (0 <= score result <= totalQuestions result)%nat.
Proof.
  eexists. split; [apply finishQuiz_result|].
  cbn [score answers totalQuestions].
  repeat split.
  - apply filter_map_comm.
  - lia.
  - etransitivity; [apply filter_length_le|]. now rewrite length_map.
Qed.

(** ** To-do list *)

Lemma truthy_false (s : jstring) : truthy s = false <-> s = [].
Proof. destruct s; simpl; split; congruence. Qed.

(** C10. When the trimmed input is empty, [addTodo] returns the state it was
    given: no record is created. Otherwise the new list is one new item
    followed by the old list, untouched; the new item's text is the trimmed
    input and it is not completed. *)
Theorem addTodo_spec (r : Reading) (st : TodoState) :
  (trim (newTodo st) = [] -> addTodo r st = st)
  /\ (trim (newTodo st) <> [] ->
      exists todo,
        todos (addTodo r st) = todo :: todos st
        /\ todo_text todo = trim (newTodo st)
        /\ todo_completed todo = false
        /\ todo_id todo = Z_toString (now_ms r)
        /\ todo_createdAt todo = JDate (date_ms r)
        /\ newTodo (addTodo r st) = []).
Proof.
  unfold addTodo. split.
  - intros H. now rewrite H.
  - intros H. destruct (truthy (trim (newTodo st))) eqn:E.
    + cbn. eexists. repeat split.
    + apply truthy_false in E. contradiction.
Qed.

(** A blank input and a padded one. *)
Lemma addTodo_spec_witness :
  addTodo sample_reading {| todos := []; newTodo := u16 "   " |}
  = {| todos := []; newTodo := u16 "   " |}
  /\ exists todo,
       todos (addTodo sample_reading {| todos := []; newTodo := u16 "  read chapter 1 " |})
       = [todo]
       /\ todo_text todo = u16 "read chapter 1"
       /\ todo_completed todo = false.
Proof.
  split.
  - apply (proj1 (addTodo_spec sample_reading {| todos := []; newTodo := u16 "   " |})).
    reflexivity.
  - destruct (proj2 (addTodo_spec sample_reading
                       {| todos := []; newTodo := u16 "  read chapter 1 " |}))
      as (todo & H1 & H2 & H3 & _).
    + vm_compute. discriminate.
    + exists todo. repeat split; assumption.
Defined.

(** ** Model Gateway *)

Lemma parse_ollama_body (completion : jstring) :
  parse (ollama_body completion)
  = Some (JObj [(u16 "response", JStr completion); (u16 "done", JBool true)]).
Proof.
  unfold ollama_body.
  now rewrite parse_stringify.
Qed.

Lemma callOllama_world_completing (completion prompt : jstring) :
  callOllama (world_completing completion) prompt = Ok (Some (JStr completion)).
Proof.
  unfold callOllama, world_completing. cbn [fetch].
  replace (response_ok 200) with true by reflexivity. cbn [negb].
  now rewrite parse_ollama_body.
Qed.

Lemma connect_error_names_endpoint :
  includes connect_error_message (u16 "localhost:11434") = true.
Proof. vm_compute. reflexivity. Qed.

(** C5. [callOllama] sends one request. If the endpoint is unreachable, or
    it answers with a status outside 200..299, the call throws the error
    whose message is "Failed to connect to Ollama. Make sure Ollama is
    running on localhost:11434", which names the expected host and port. If
    it answers with a 2xx status and a JSON object as body, the call returns
    the [response] field of that object. *)
Theorem callOllama_contract (w : World) (prompt : jstring) :
  let request := generate_request (selectedModel w) prompt in
  (fetch w request = NetworkError ->
   callOllama w prompt = Err connect_error_message)
  /\ (forall status body,
        fetch w request = Response status body ->
        response_ok status = false ->
        callOllama w prompt = Err connect_error_message)
  /\ includes connect_error_message (u16 "localhost:11434") = true
  /\ (forall status body fields,
        fetch w request = Response status body ->
        response_ok status = true ->
        parse body = Some (JObj fields) ->
        callOllama w prompt = Ok (own_property (u16 "response") fields))
  /\ (forall status completion,
        fetch w request = Response status (ollama_body completion) ->
        response_ok status = true ->
        callOllama w prompt = Ok (Some (JStr completion))).
Proof.
  intros request. unfold callOllama. fold request.
  split; [|split; [|split; [|split]]].
  - intros ->. reflexivity.
  - intros status body -> Hok. now rewrite Hok.
  - apply connect_error_names_endpoint.
  - intros status body fields -> Hok Hparse. now rewrite Hok, Hparse.
  - intros status completion -> Hok. now rewrite Hok, parse_ollama_body.
Qed.

(** An unreachable endpoint, a status 500 and a completion. *)
Lemma callOllama_contract_witness :
  callOllama world_unreachable (u16 "hello") = Err connect_error_message
  /\ callOllama (world_status 500) (u16 "hello") = Err connect_error_message
  /\ callOllama (world_completing (u16 "Hi there")) (u16 "hello")
     = Ok (Some (JStr (u16 "Hi there"))).
Proof.
  split; [|split].
  - apply (proj1 (callOllama_contract world_unreachable (u16 "hello"))).
    reflexivity.
  - apply (proj1 (proj2 (callOllama_contract (world_status 500) (u16 "hello")))
             500 (u16 "Internal Server Error")); reflexivity.
  - apply (proj2 (proj2 (proj2 (proj2
             (callOllama_contract (world_completing (u16 "Hi there")) (u16 "hello")))))
             200); reflexivity.
Defined.

(** A 2xx answer whose body is not JSON is reported as the same error. *)
Lemma callOllama_malformed_body (w : World) (prompt : jstring)
  (status : N) (body : jstring) :
  fetch w (generate_request (selectedModel w) prompt) = Response status body ->
  parse body = None ->
  callOllama w prompt = Err connect_error_message.
Proof.
  intros Hfetch Hparse. unfold callOllama. rewrite Hfetch, Hparse.
  now destruct (response_ok status).
Qed.

(** C7. [checkOllamaConnection] never throws: it always returns a boolean.
    The boolean is false when the probe cannot reach the endpoint and when
    the endpoint answers with a status outside 200..299; it is true exactly
    when the endpoint answers with a 2xx status. *)
Theorem checkOllamaConnection_total (w : World) :
  exists b : bool,
    checkOllamaConnection w = Ok b
    /\ (fetch w tags_request = NetworkError -> b = false)
    /\ (forall status body,
          fetch w tags_request = Response status body ->
          response_ok status = false -> b = false)
    /\ (b = true <->
        exists status body,
          fetch w tags_request = Response status body
          /\ (200 <= status <= 299)%N).
Proof.
  unfold checkOllamaConnection, response_ok.
  destruct (fetch w tags_request) as [|status body] eqn:E; cbn.
  - exists false. repeat split; try congruence.
    intros (s & b & H & _). discriminate.
  - exists ((200 <=? status) && (status <=? 299)). repeat split.
    + discriminate.
    + intros s b [= <- <-] H. exact H.
    + intros H. exists status, body. split; [reflexivity|].
      apply andb_prop in H as [H1 H2].
      apply N.leb_le in H1. apply N.leb_le in H2. lia.
    + intros (s & b & [= <- <-] & H1 & H2).
      apply andb_true_intro. split; apply N.leb_le; lia.
Qed.

(** An unreachable endpoint and a status 500. *)
Lemma checkOllamaConnection_total_witness :
  checkOllamaConnection world_unreachable = Ok false
  /\ checkOllamaConnection (world_status 500) = Ok false.
Proof.
  split.
  - destruct (checkOllamaConnection_total world_unreachable) as (b & H & Hnet & _).
    rewrite H. f_equal. apply Hnet. reflexivity.
  - destruct (checkOllamaConnection_total (world_status 500)) as (b & H & _ & Hst & _).
    rewrite H. f_equal. apply (Hst 500 (u16 "Internal Server Error")); reflexivity.
Defined.

(** ** Content Transformer *)

Lemma match_bracketed_head (s m : jstring) :
  match_bracketed s = Some m -> exists r, m = 91 :: r.
Proof.
  induction s as [|c s IH]; cbn [match_bracketed]; [discriminate|].
  destruct (N.eqb_spec c 91) as [->|_]; [|assumption].
  destruct (through_last_close s) as [m'|]; [|assumption].
  intros H; inversion H; subst. now exists m'.
Qed.

Lemma parse_elements_array (n : nat) :
  forall acc s v r, parse_elements n acc s = Some (v, r) -> exists l, v = JArr l.
Proof.
  induction n as [|n IH]; intros acc s v r H; [discriminate|].
  rewrite parse_elements_S_eq in H.
  destruct (parse_value n s) as [[v1 r1]|]; [|discriminate].
  destruct (skip_ws r1) as [|c r2]; [discriminate|].
  destruct (c =? 44); [now apply IH in H|].
  destruct (c =? 93); [|discriminate].
  inversion H; subst. eauto.
Qed.

(** A text that starts with an opening bracket can only denote an array. *)
Lemma parse_bracketed_array (r : jstring) (v : jsval) :
  parse (91 :: r) = Some v -> exists l, v = JArr l.
Proof.
  unfold parse. rewrite parse_value_S_eq. cbn [skip_ws is_json_ws N.eqb Pos.eqb orb].
  destruct (skip_ws r) as [|d r'] eqn:Er; [discriminate|].
  destruct (d =? 93).
  - destruct (skip_ws r'); [|discriminate]. intros H; inversion H; subst. eauto.
  - destruct (parse_elements _ _ _) as [[v' r'']|] eqn:E; [|discriminate].
    apply parse_elements_array in E as [l ->].
    destruct (skip_ws r''); [|discriminate]. intros H; inversion H; subst. eauto.
Qed.

Lemma pair_lines_cards_aux (n : nat) :
  forall lines, (length lines <= n)%nat ->
  Forall (fun line => truthy (trim line) = true) lines ->
  Forall paired_card (pair_lines lines).
Proof.
  induction n as [|n IH]; intros lines Hn Hall.
  - destruct lines; [constructor|cbn in Hn; lia].
  - destruct lines as [|a [|b rest]]; cbn [pair_lines]; try constructor.
    apply Forall_cons in Hall as [_ Hall].
    apply Forall_cons in Hall as [Hb Hall].
    apply Forall_app. split.
    + destruct (truthy a && truthy b); constructor; [|constructor].
      exists (trim (strip_ordinal a)), (trim b). split; [reflexivity|].
      intros E. rewrite E in Hb. discriminate.
    + apply IH; [cbn [length] in Hn; lia|assumption].
Qed.

Lemma manual_flashcards_cards (text : jstring) :
  exists l, manual_flashcards text = JArr l
            /\ (length l <= 5)%nat /\ Forall paired_card l.
Proof.
  unfold manual_flashcards. eexists. split; [reflexivity|]. split.
  - rewrite length_take. lia.
  - apply Forall_take. eapply pair_lines_cards_aux; [reflexivity|].
    apply List.Forall_forall. intros line Hin.
    now apply List.filter_In in Hin as [_ ?].
Qed.

(** C1, as the code has it. [generateFlashcards] never fails and always
    returns an array. When the gateway call fails, when its result is not a
    string, and when the bracketed part of the completion is not valid JSON,
    the array is the fixed placeholder of two records with non-empty front
    and back. When the completion has no bracketed part, the array has at
    most five records, each a front/back pair with a non-empty back. When
    the bracketed part is valid JSON, the array is that parsed value,
    returned as it is. *)
Theorem generateFlashcards_total (w : World) (content : jstring) (d : Difficulty) :
  exists l,
    generateFlashcards w content d = Ok (JArr l)
    /\ match callOllama w (flashcard_prompt content d) with
       | Ok (Some (JStr text)) =>
           match match_bracketed text with
           | Some jsonMatch =>
               match parse jsonMatch with
               | Some v => v = JArr l
               | None => JArr l = fallback_flashcards
               end
           | None =>
               JArr l = manual_flashcards text
               /\ (length l <= 5)%nat
               /\ Forall paired_card l
           end
       | _ => JArr l = fallback_flashcards
       end
    /\ flashcards_as_promised (Ok fallback_flashcards) = true.
Proof.
  unfold generateFlashcards.
  destruct (callOllama w (flashcard_prompt content d)) as [[response|]|msg];
    cbn [rbind try_catch];
    try (eexists; repeat split; reflexivity).
  destruct response; cbn [string_receiver rbind try_catch];
    try (eexists; repeat split; reflexivity).
  destruct (match_bracketed s) as [jsonMatch|] eqn:Em.
  - unfold JSON_parse.
    destruct (parse jsonMatch) as [v|] eqn:Ep; cbn [try_catch].
    + apply match_bracketed_head in Em as [r ->].
      destruct (parse_bracketed_array r v Ep) as [l ->].
      exists l. repeat split.
    + eexists; repeat split; reflexivity.
  - cbn [try_catch].
    destruct (manual_flashcards_cards s) as (l & -> & Hlen & Hall).
    exists l. repeat split; assumption.
Qed.

(** C1, as stated, fails: when the model answers with an empty JSON array,
    that array is returned, so there are no records at all instead of one to
    five. *)
Lemma generateFlashcards_can_be_empty :
  generateFlashcards (world_completing (u16 "[]")) (u16 "notes") easy
  = Ok (JArr [])
  /\ flashcards_as_promised
       (generateFlashcards (world_completing (u16 "[]")) (u16 "notes") easy)
     = false.
Proof.
  unfold generateFlashcards. rewrite callOllama_world_completing.
  split; reflexivity.
Qed.

(** Other completions that miss the promised shape: a single line without
    brackets leaves nothing to pair, a numbered line without text gives an
    empty front, and a parsed array is returned unchecked, whatever its
    length and its elements. *)
Example generateFlashcards_single_line :
  generateFlashcards (world_completing (u16 "garbage")) (u16 "notes") easy
  = Ok (JArr []).
Proof.
  unfold generateFlashcards. rewrite callOllama_world_completing. reflexivity.
Qed.

Example generateFlashcards_empty_front :
  generateFlashcards (world_completing (u16 "1." ++ [LF] ++ u16 "A")) (u16 "notes") easy
  = Ok (JArr [flashcard [] (u16 "A")]).
Proof.
  unfold generateFlashcards. rewrite callOllama_world_completing. reflexivity.
Qed.

Example generateFlashcards_unchecked_json :
  generateFlashcards (world_completing (u16 "Here: [1,2,3,4,5,6]")) (u16 "notes") easy
  = Ok (JArr [JInt 1; JInt 2; JInt 3; JInt 4; JInt 5; JInt 6]).
Proof.
  unfold generateFlashcards. rewrite callOllama_world_completing. reflexivity.
Qed.

(** C2, as the code has it. [generateMCQs] never fails and always returns an
    array. When the gateway call fails, when its result is not a string, and
    when the bracketed part of the completion is not valid JSON, the array is
    the one-question placeholder of the [catch] block; when the completion
    has no bracketed part, it is the two-question placeholder. Every
    placeholder question has four options and a correct answer between 0 and
    3. When the bracketed part is valid JSON, the array is that parsed value,
    returned as it is. *)
Theorem generateMCQs_total (w : World) (content : jstring) (d : Difficulty) :
  exists l,
    generateMCQs w content d = Ok (JArr l)
    /\ match callOllama w (mcq_prompt content d) with
       | Ok (Some (JStr text)) =>
           match match_bracketed text with
           | Some jsonMatch =>
               match parse jsonMatch with
               | Some v => v = JArr l
               | None => JArr l = error_questions
               end
           | None => JArr l = fallback_questions
           end
       | _ => JArr l = error_questions
       end
    /\ questions_as_promised (Ok error_questions) = true
    /\ questions_as_promised (Ok fallback_questions) = true.
Proof.
  unfold generateMCQs.
  destruct (callOllama w (mcq_prompt content d)) as [[response|]|msg];
    cbn [rbind try_catch];
    try (eexists; repeat split; reflexivity).
  destruct response; cbn [string_receiver rbind try_catch];
    try (eexists; repeat split; reflexivity).
  destruct (match_bracketed s) as [jsonMatch|] eqn:Em.
  - unfold JSON_parse.
    destruct (parse jsonMatch) as [v|] eqn:Ep; cbn [try_catch].
    + apply match_bracketed_head in Em as [r ->].
      destruct (parse_bracketed_array r v Ep) as [l ->].
      exists l. repeat split.
    + eexists; repeat split; reflexivity.
  - cbn [try_catch]. eexists; repeat split; reflexivity.
Qed.

(** C2, as stated, fails: when the model answers with an empty array there
    is no question at all, and when it answers with a question that has two
    options and the index 7, that question is returned. *)
Lemma generateMCQs_can_be_empty :
  generateMCQs (world_completing (u16 "[]")) (u16 "notes") easy = Ok (JArr [])
  /\ questions_as_promised
       (generateMCQs (world_completing (u16 "[]")) (u16 "notes") easy)
     = false
  /\ questions_as_promised
       (generateMCQs
          (world_completing
             (dq "[{'question':'Q','options':['a','b'],'correctAnswer':7,'explanation':'E'}]"))
          (u16 "notes") easy)
     = false.
Proof.
  unfold generateMCQs. rewrite !callOllama_world_completing.
  repeat split; reflexivity.
Qed.

(** C8. When the completion is the four lines "1. Q1", "A1", "2. Q2", "A2",
    it has no bracketed part, and [generateFlashcards] returns the two
    records (Q1, A1) and (Q2, A2): consecutive lines are paired and the
    ordinal prefix of the front line is stripped. *)
Theorem generateFlashcards_numbered_lines (w : World) (content : jstring)
  (d : Difficulty) :
  callOllama w (flashcard_prompt content d) = Ok (Some (JStr numbered_lines)) ->
  match_bracketed numbered_lines = None
  /\ List.filter (fun line => truthy (trim line)) (split_on LF numbered_lines)
     = [u16 "1. Q1"; u16 "A1"; u16 "2. Q2"; u16 "A2"]
  /\ generateFlashcards w content d
     = Ok (JArr [flashcard (u16 "Q1") (u16 "A1"); flashcard (u16 "Q2") (u16 "A2")]).
Proof.
  intros H. unfold generateFlashcards. rewrite H.
  repeat split; reflexivity.
Qed.

(** A server that answers with those four lines. *)
Lemma generateFlashcards_numbered_lines_witness :
  generateFlashcards (world_completing numbered_lines) (u16 "notes") medium
  = Ok (JArr [flashcard (u16 "Q1") (u16 "A1"); flashcard (u16 "Q2") (u16 "A2")]).
Proof.
  apply (generateFlashcards_numbered_lines
           (world_completing numbered_lines) (u16 "notes") medium).
  apply callOllama_world_completing.
Defined.

(** C4, as the code has it. When the completion is the JSON text of the two
    records, [generateFlashcards] returns exactly those two front/back
    records; the identifier, the tags, the timestamp and the requested
    difficulty are added afterwards by [generateCards], which stores the two
    augmented records in front of the existing cards. *)
Theorem generateFlashcards_two_cards (w : World) (content : jstring)
  (d : Difficulty) :
  callOllama w (flashcard_prompt content d) = Ok (Some (JStr two_cards_json)) ->
  generateFlashcards w content d
  = Ok (JArr [flashcard (u16 "Q1") (u16 "A1"); flashcard (u16 "Q2") (u16 "A2")])
  /\ forall (readings : nat -> Reading) (st : FlashcardState),
       fc_inputContent st = content ->
       fc_difficulty st = d ->
       truthy (trim content) = true ->
       fc_flashcards (generateCards w readings st)
       = [stored_card (u16 "Q1") (u16 "A1")
            (Z_toString (now_ms (readings 0%nat)) ++ random36 (readings 0%nat))
            (parse_tags (fc_tags st)) (date_ms (readings 0%nat)) d;
          stored_card (u16 "Q2") (u16 "A2")
            (Z_toString (now_ms (readings 1%nat)) ++ random36 (readings 1%nat))
            (parse_tags (fc_tags st)) (date_ms (readings 1%nat)) d]
         ++ fc_flashcards st.
Proof.
  intros H.
  assert (Hgen : generateFlashcards w content d = Ok (JArr two_cards))
    by (unfold generateFlashcards; rewrite H; reflexivity).
  split; [exact Hgen|].
  intros readings st Hc Hd Hnonblank. unfold generateCards.
  rewrite Hc, Hd, Hnonblank, Hgen. reflexivity.
Qed.

(** A server that answers with that JSON text. *)
Lemma generateFlashcards_two_cards_witness :
  generateFlashcards (world_completing two_cards_json)
    (fc_inputContent sample_cards_state) hard
  = Ok (JArr two_cards)
  /\ forallb (has_metadata hard)
       (fc_flashcards
          (generateCards (world_completing two_cards_json)
             (fun _ => sample_reading) sample_cards_state))
     = true.
Proof.
  destruct (generateFlashcards_two_cards (world_completing two_cards_json)
              (fc_inputContent sample_cards_state) hard
              (callOllama_world_completing _ _)) as [Hgen Hcards].
  split; [exact Hgen|].
  rewrite (Hcards (fun _ => sample_reading) sample_cards_state
             eq_refl eq_refl eq_refl).
  reflexivity.
Defined.

(** C4, as stated, fails: the records returned by [generateFlashcards]
    itself carry no identifier, no timestamp and no difficulty. *)
Lemma generateFlashcards_adds_no_metadata :
  generateFlashcards (world_completing two_cards_json) (u16 "notes") hard
  = Ok (JArr [flashcard (u16 "Q1") (u16 "A1"); flashcard (u16 "Q2") (u16 "A2")])
  /\ two_augmented_cards hard
       (generateFlashcards (world_completing two_cards_json) (u16 "notes") hard)
     = false.
Proof.
  unfold generateFlashcards. rewrite callOllama_world_completing.
  split; reflexivity.
Qed.

(** ** Study Store *)

Lemma to_JSON_plain (v : jsval) : plain v = true -> to_JSON v = v.
Proof.
  induction v as [|b|z|lexeme|s|l IH|ps IH|t] using jsval_ind;
    cbn [plain to_JSON]; intros Hp; try reflexivity; try discriminate.
  - f_equal. induction l as [|e l IHl]; [reflexivity|].
    cbn [forallb] in Hp. apply andb_prop in Hp as [He Hl].
    apply Forall_cons in IH as [IHe IHl'].
    cbn [map]. now rewrite IHe, IHl.
  - f_equal. induction ps as [|[k v] ps IHps]; [reflexivity|].
    cbn [forallb snd] in Hp. apply andb_prop in Hp as [Hv Hps].
    apply Forall_cons in IH as [IHv IHps']. cbn [snd] in IHv.
    cbn [map fst snd]. now rewrite IHv, IHps.
Qed.

Lemma stringify_array_truthy (records : list jsval) :
  truthy (stringify (JArr records)) = true.
Proof. reflexivity. Qed.

(** Fresh to-do items and quiz results are values of the exact domain. *)
Lemma TodoItem_value_storable (t : TodoItem) :
  storable (todo_createdAt t) = true -> storable (TodoItem_value t) = true.
Proof. intros H. cbn. now rewrite H. Qed.

Lemma QuizResult_value_storable (r : QuizResult) :
  Forall (fun a => (Z.abs (selectedAnswer a) <= MAX_SAFE_INTEGER)%Z) (answers r) ->
  (Z.of_nat (score r) <= MAX_SAFE_INTEGER)%Z ->
  (Z.of_nat (totalQuestions r) <= MAX_SAFE_INTEGER)%Z ->
  storable (QuizResult_value r) = true.
Proof.
  intros Hans Hscore Htotal. unfold QuizResult_value.
  cbn [storable map fst snd forallb].
  replace (property_order [] _) with true by reflexivity.
  rewrite !Z.abs_eq by lia.
  apply Z.leb_le in Hscore, Htotal. rewrite Hscore, Htotal. cbn [andb].
  rewrite andb_true_r.
  induction Hans as [|a l Ha Hl IH]; [reflexivity|].
  cbn [map forallb]. rewrite IH, andb_true_r.
  cbn. apply Z.leb_le in Ha. now rewrite Ha.
Qed.

Lemma load_after_save (key : jstring) (records : list jsval)
  (storage : gmap (list N) (list N)) (state : jsval) :
  forallb storable records = true ->
  load_collection key (save_collection key (JArr records) storage) state
  = JArr (map to_JSON records).
Proof.
  intros Hst. unfold load_collection, save_collection, getItem, setItem.
  rewrite lookup_insert_eq, stringify_array_truthy.
  unfold JSON_parse. now rewrite (parse_stringify (JArr records)).
Qed.

(** The to-do list: items come back in order with their id, text and
    completed flag, and with the creation date as its ISO string. *)
Lemma todos_round_trip (items : list TodoItem)
  (storage : gmap (list N) (list N)) (state : jsval) :
  Forall (fun t => storable (todo_createdAt t) = true) items ->
  load_collection TODOS_KEY
    (save_collection TODOS_KEY (JArr (map TodoItem_value items)) storage) state
  = JArr (map (fun t =>
                 JObj [(u16 "id", JStr (todo_id t));
                       (u16 "text", JStr (todo_text t));
                       (u16 "completed", JBool (todo_completed t));
                       (u16 "createdAt", to_JSON (todo_createdAt t))])
              items).
Proof.
  intros Hall. rewrite load_after_save.
  - now rewrite map_map.
  - apply forallb_forall. intros v Hin. apply in_map_iff in Hin as (t & <- & Ht).
    apply TodoItem_value_storable.
    rewrite List.Forall_forall in Hall. now apply Hall.
Qed.

(** Quiz results: a result and its answer records come back unchanged but
    for the completion date. *)
Lemma quizResults_round_trip (r : Reading) (st : QuizState)
  (storage : gmap (list N) (list N)) (state : jsval) :
  (Z.of_nat (length (questions st)) <= MAX_SAFE_INTEGER)%Z ->
  Forall (fun x => (Z.abs x <= MAX_SAFE_INTEGER)%Z)
         (map snd (map_to_list (selectedAnswers st))) ->
  quizResults st = [] ->
  load_collection RESULTS_KEY
    (save_collection RESULTS_KEY
       (JArr (map QuizResult_value (quizResults (finishQuiz r st)))) storage) state
  = JArr (map (fun v => to_JSON (QuizResult_value v))
              (quizResults (finishQuiz r st))).
Proof.
  intros Hlen Hsel Hempty. rewrite load_after_save; [now rewrite map_map|].
  rewrite finishQuiz_result, Hempty. cbn [map forallb]. rewrite andb_true_r.
  apply QuizResult_value_storable; cbn [answers score totalQuestions].
  - apply List.Forall_forall. intros a Hin.
    apply in_map_iff in Hin as (q & <- & _).
    cbn [answer_record selectedAnswer].
    destruct (selectedAnswers st !! mcq_id q) as [x|] eqn:E; cbn [default].
    + rewrite List.Forall_forall in Hsel. apply Hsel.
      apply in_map_iff. exists (mcq_id q, x). split; [reflexivity|].
      apply list_elem_of_In. now apply elem_of_map_to_list.
    + unfold UNANSWERED, MAX_SAFE_INTEGER. lia.
  - pose proof (filter_length_le correct
                  (map (answer_record (selectedAnswers st)) (questions st))) as H.
    rewrite length_map in H. lia.
  - exact Hlen.
Qed.

(** * Further properties *)

(** ** To-do list: toggling, deleting, clearing *)

Lemma same_id_true (a b : jstring) : same_id a b = true <-> a = b.
Proof. unfold same_id, jstring_eqb. apply bool_decide_eq_true. Qed.

Lemma same_id_false (a b : jstring) : same_id a b = false <-> a <> b.
Proof. unfold same_id, jstring_eqb. apply bool_decide_eq_false. Qed.

Lemma toggled_toggled (todo : TodoItem) : toggled (toggled todo) = todo.
Proof. destruct todo as [i t c d]. unfold toggled. cbn. now rewrite negb_involutive. Qed.

(** X1. [toggleTodo] flips the completed flag of exactly the items that
    carry the id and changes nothing else: ids, texts and creation dates
    keep their values and their order. Toggling the same id twice gives the
    list back. *)
Theorem toggleTodo_spec (id : jstring) (st : TodoState) :
  toggleTodo id (toggleTodo id st) = st
  /\ map todo_id (todos (toggleTodo id st)) = map todo_id (todos st)
  /\ map todo_text (todos (toggleTodo id st)) = map todo_text (todos st)
  /\ map todo_createdAt (todos (toggleTodo id st)) = map todo_createdAt (todos st)
  /\ map todo_completed (todos (toggleTodo id st))
     = map (fun todo => if same_id (todo_id todo) id
                        then negb (todo_completed todo)
                        else todo_completed todo) (todos st)
  /\ newTodo (toggleTodo id st) = newTodo st.
Proof.
  destruct st as [l input]. unfold toggleTodo. cbn [todos newTodo].
  repeat split.
  - f_equal. rewrite map_map. rewrite <- (map_id l) at 2.
    apply map_ext. intros todo.
    destruct (same_id (todo_id todo) id) eqn:E; cbn [toggled todo_id].
    + now rewrite E, toggled_toggled.
    + now rewrite E.
  - rewrite map_map. apply map_ext. intros todo. now destruct (same_id _ _).
  - rewrite map_map. apply map_ext. intros todo. now destruct (same_id _ _).
  - rewrite map_map. apply map_ext. intros todo. now destruct (same_id _ _).
  - rewrite map_map. apply map_ext. intros todo. now destruct (same_id _ _).
Qed.

Lemma filter_all {A} (f : A -> bool) (l : list A) :
  (forall x, In x l -> f x = true) -> List.filter f l = l.
Proof.
  induction l as [|a l IH]; intros H; cbn [List.filter]; [reflexivity|].
  rewrite (H a) by now left. f_equal. apply IH. intros x Hx. apply H. now right.
Qed.

Lemma filter_filter_same {A} (f : A -> bool) (l : list A) :
  List.filter f (List.filter f l) = List.filter f l.
Proof.
  apply filter_all. intros x Hx. now apply List.filter_In in Hx as [_ ?].
Qed.

(** X2. [deleteTodo] removes every item that carries the id and keeps the
    others in their order: afterwards no item has the id, an item is in the
    list exactly when it was there with another id, deleting again changes
    nothing, and an id that no item carries leaves the list as it was. *)
Theorem deleteTodo_spec (id : jstring) (st : TodoState) :
  Forall (fun todo => todo_id todo <> id) (todos (deleteTodo id st))
  /\ (forall todo, In todo (todos (deleteTodo id st))
                   <-> In todo (todos st) /\ todo_id todo <> id)
  /\ sublist (todos (deleteTodo id st)) (todos st)
  /\ deleteTodo id (deleteTodo id st) = deleteTodo id st
  /\ (Forall (fun todo => todo_id todo <> id) (todos st) -> deleteTodo id st = st)
  /\ (length (todos (deleteTodo id st)) <= length (todos st))%nat.
Proof.
  destruct st as [l input]. unfold deleteTodo. cbn [todos newTodo].
  split; [|split; [|split; [|split; [|split]]]].
  - apply List.Forall_forall. intros todo Hin.
    apply List.filter_In in Hin as [_ H]. apply negb_true_iff in H.
    now apply same_id_false.
  - intros todo. rewrite List.filter_In, negb_true_iff, same_id_false. tauto.
  - induction l as [|a l IH]; cbn [List.filter]; [constructor|].
    destruct (negb _); now constructor.
  - f_equal. apply filter_filter_same.
  - intros H. f_equal. apply filter_all. intros x Hx.
    rewrite List.Forall_forall in H. apply negb_true_iff, same_id_false. now apply H.
  - apply filter_length_le.
Qed.

Lemma deleteTodo_spec_witness :
  deleteTodo (u16 "42") (deleteTodo (u16 "1700000000000") sample_todos)
  = deleteTodo (u16 "1700000000000") sample_todos
  /\ map todo_text (todos (deleteTodo (u16 "1700000000000") sample_todos))
     = [u16 "solve exercise 2"].
Proof.
  split; [|reflexivity].
  apply (proj1 (proj2 (proj2 (proj2 (proj2
           (deleteTodo_spec (u16 "42")
              (deleteTodo (u16 "1700000000000") sample_todos))))))).
  repeat constructor; vm_compute; discriminate.
Defined.

Lemma addTodo_nonblank (r : Reading) (st : TodoState) :
  trim (newTodo st) <> [] ->
  addTodo r st
  = {| todos := {| todo_id := Z_toString (now_ms r);
                   todo_text := trim (newTodo st);
                   todo_completed := false;
                   todo_createdAt := JDate (date_ms r) |} :: todos st;
       newTodo := [] |}.
Proof.
  intros H. unfold addTodo.
  destruct (truthy (trim (newTodo st))) eqn:E; [reflexivity|].
  destruct (trim (newTodo st)); [contradiction|discriminate].
Qed.

(** X3. Deleting the item that [addTodo] has just created gives the old list
    back, provided no older item carries the same id (the id is the clock
    reading in milliseconds). *)
Theorem addTodo_deleteTodo (r : Reading) (st : TodoState) :
  trim (newTodo st) <> [] ->
  Forall (fun todo => todo_id todo <> Z_toString (now_ms r)) (todos st) ->
  todos (deleteTodo (Z_toString (now_ms r)) (addTodo r st)) = todos st.
Proof.
  intros Hinput Hfresh. rewrite addTodo_nonblank by assumption.
  unfold deleteTodo. cbn [todos List.filter todo_id].
  replace (same_id (Z_toString (now_ms r)) (Z_toString (now_ms r))) with true
    by (symmetry; now apply same_id_true).
  cbn [negb]. apply filter_all. intros x Hx.
  rewrite List.Forall_forall in Hfresh.
  apply negb_true_iff, same_id_false. now apply Hfresh.
Qed.

Lemma addTodo_deleteTodo_witness :
  todos (deleteTodo (u16 "1700000000000")
           (addTodo sample_reading {| todos := []; newTodo := u16 "revise" |}))
  = [].
Proof.
  apply (addTodo_deleteTodo sample_reading {| todos := []; newTodo := u16 "revise" |}).
  - vm_compute. discriminate.
  - constructor.
Defined.

(** X4. Ids are clock readings, so two items added within the same
    millisecond share their id, and the operations by id act on both:
    deleting one deletes the other, toggling one completes the other. *)
Theorem same_millisecond_todos (r1 r2 : Reading) (a b : jstring) (st : TodoState) :
  now_ms r1 = now_ms r2 ->
  trim a <> [] -> trim b <> [] ->
  Forall (fun todo => todo_id todo <> Z_toString (now_ms r1)) (todos st) ->
  let id := Z_toString (now_ms r1) in
  let st' := addTodo r2 (setNewTodo b (addTodo r1 (setNewTodo a st))) in
  map todo_text (todos st') = trim b :: trim a :: map todo_text (todos st)
  /\ map todo_id (todos st') = id :: id :: map todo_id (todos st)
  /\ todos (deleteTodo id st') = todos st
  /\ map todo_completed (todos (toggleTodo id st'))
     = true :: true :: map todo_completed (todos st).
Proof.
  intros Hms Ha Hb Hfresh id st'. subst id st'.
  rewrite (addTodo_nonblank r1) by assumption.
  rewrite (addTodo_nonblank r2) by assumption.
  rewrite <- Hms. cbn [setNewTodo todos newTodo map todo_text todo_id].
  assert (Hsame : same_id (Z_toString (now_ms r1)) (Z_toString (now_ms r1)) = true)
    by now apply same_id_true.
  assert (Hother : forall x, In x (todos st) ->
                     same_id (todo_id x) (Z_toString (now_ms r1)) = false).
  { intros x Hx. rewrite List.Forall_forall in Hfresh.
    apply same_id_false. now apply Hfresh. }
  repeat split.
  - unfold deleteTodo. cbn [todos List.filter todo_id]. rewrite Hsame. cbn [negb].
    apply filter_all. intros x Hx. now rewrite Hother.
  - unfold toggleTodo. cbn [todos map todo_id]. rewrite Hsame.
    cbn [toggled todo_completed negb]. do 2 f_equal.
    rewrite map_map. apply map_ext_in. intros x Hx. now rewrite Hother.
Qed.

Lemma same_millisecond_todos_witness :
  todos (deleteTodo (u16 "1700000000000")
           (addTodo sample_reading
              (setNewTodo (u16 "second")
                 (addTodo sample_reading
                    (setNewTodo (u16 "first") {| todos := []; newTodo := [] |})))))
  = [].
Proof.
  apply (same_millisecond_todos sample_reading sample_reading
           (u16 "first") (u16 "second") {| todos := []; newTodo := [] |});
    try (vm_compute; discriminate); [reflexivity|constructor].
Defined.

Lemma filter_partition_length {A} (f : A -> bool) (l : list A) :
  (length (List.filter f l) + length (List.filter (fun x => negb (f x)) l)
   = length l)%nat.
Proof.
  induction l as [|a l IH]; cbn [List.filter]; [reflexivity|].
  destruct (f a); cbn [negb length]; lia.
Qed.

(** X5. "Clear Completed" removes exactly the completed items: afterwards
    nothing is completed and the counter is 0, the items that were not
    completed are all still there in their order, and the list is shorter by
    the number of completed items. *)
Theorem clearCompleted_spec (st : TodoState) :
  completedCount (clearCompleted st) = 0%nat
  /\ Forall (fun todo => todo_completed todo = false) (todos (clearCompleted st))
  /\ (forall todo, In todo (todos (clearCompleted st))
                   <-> In todo (todos st) /\ todo_completed todo = false)
  /\ sublist (todos (clearCompleted st)) (todos st)
  /\ (length (todos (clearCompleted st)) + completedCount st
      = length (todos st))%nat
  /\ clearCompleted (clearCompleted st) = clearCompleted st.
Proof.
  destruct st as [l input]. unfold clearCompleted, completedCount.
  cbn [todos newTodo].
  assert (Hall : Forall (fun todo => todo_completed todo = false)
                   (List.filter (fun todo => negb (todo_completed todo)) l)).
  { apply List.Forall_forall. intros todo Hin.
    apply List.filter_In in Hin as [_ H]. now apply negb_true_iff. }
  split; [|split; [|split; [|split; [|split]]]].
  - induction Hall as [|x l' Hx _ IH]; [reflexivity|].
    cbn [List.filter]. now rewrite Hx.
  - exact Hall.
  - intros todo. rewrite List.filter_In, negb_true_iff. tauto.
  - induction l as [|a l IH]; cbn [List.filter]; [constructor|].
    destruct (negb _); constructor; apply IH;
      apply List.Forall_forall; intros todo Hin;
      apply List.filter_In in Hin as [_ H]; now apply negb_true_iff.
  - pose proof (filter_partition_length todo_completed l). lia.
  - f_equal. apply filter_filter_same.
Qed.

(** X6. Each mounted to-do list writes its own list under the one key, so
    the later write wins. When two lists that both hold [items] each add an
    item and save in turn, a reload shows the second list only: one item more
    than [items], not two, and the first addition is gone. *)
Theorem TodoList_last_write_wins (items : list TodoItem) (ra rb : Reading)
  (a b : jstring) (storage : gmap (list N) (list N)) (state : jsval) :
  trim a <> [] -> trim b <> [] ->
  Forall (fun t => storable (todo_createdAt t) = true) items ->
  let first := addTodo ra {| todos := items; newTodo := a |} in
  let second := addTodo rb {| todos := items; newTodo := b |} in
  TodoList_save second (TodoList_save first storage) = TodoList_save second storage
  /\ exists reloaded,
       load_collection TODOS_KEY
         (TodoList_save second (TodoList_save first storage)) state
       = JArr reloaded
       /\ reloaded = map (fun t => to_JSON (TodoItem_value t)) (todos second)
       /\ length reloaded = S (length items)
       /\ map (string_property (u16 "text")) reloaded
          = Some (trim b) :: map (fun t => Some (todo_text t)) items.
Proof.
  intros Ha Hb Hitems first second. subst first second.
  rewrite (addTodo_nonblank ra), (addTodo_nonblank rb) by assumption.
  cbn [newTodo todos].
  assert (Hwins : forall x y : TodoState,
             TodoList_save y (TodoList_save x storage) = TodoList_save y storage).
  { intros x y. unfold TodoList_save, save_collection, setItem.
    apply insert_insert_eq. }
  split; [apply Hwins|].
  rewrite Hwins. unfold TodoList_save. rewrite load_after_save.
  - eexists. split; [reflexivity|]. rewrite map_map. split; [reflexivity|].
    split; [cbn [map length]; now rewrite length_map|].
    cbn [map todos]. f_equal. rewrite map_map. apply map_ext. intros t.
    reflexivity.
  - apply forallb_forall. intros v Hin.
    apply in_map_iff in Hin as (t & <- & Ht).
    apply TodoItem_value_storable.
    destruct Ht as [<-|Ht]; [reflexivity|].
    rewrite List.Forall_forall in Hitems. now apply Hitems.
Qed.

Lemma TodoList_last_write_wins_witness :
  load_collection TODOS_KEY
    (TodoList_save (addTodo sample_reading {| todos := []; newTodo := u16 "second" |})
       (TodoList_save (addTodo sample_reading {| todos := []; newTodo := u16 "first" |})
          ∅))
    (JArr [])
  = JArr [JObj [(u16 "id", JStr (u16 "1700000000000"));
                (u16 "text", JStr (u16 "second"));
                (u16 "completed", JBool false);
                (u16 "createdAt", JStr (u16 "2023-11-14T22:13:20.001Z"))]].
Proof.
  destruct (TodoList_last_write_wins [] sample_reading sample_reading
              (u16 "first") (u16 "second") ∅ (JArr []))
    as (_ & reloaded & Hload & Hre & _).
  - vm_compute. discriminate.
  - vm_compute. discriminate.
  - constructor.
  - rewrite Hload, Hre. reflexivity.
Defined.

(** ** Tags *)

Lemma split_on_nonempty (sep : N) (s : jstring) : split_on sep s <> [].
Proof.
  destruct s as [|c s]; cbn [split_on]; [discriminate|].
  destruct (c =? sep); [discriminate|].
  destruct (split_on sep s); discriminate.
Qed.

(** A segment of [split_on] holds no separator and lies inside the text. *)
Lemma split_on_segments (sep : N) (s : jstring) :
  Forall (fun seg => ~ In sep seg /\ exists pre post, s = pre ++ seg ++ post)
         (split_on sep s).
Proof.
  induction s as [|c s IH]; cbn [split_on].
  - constructor; [|constructor]. split; [tauto|]. now exists [], [].
  - assert (Hrest : Forall (fun seg => ~ In sep seg
                      /\ exists pre post, c :: s = pre ++ seg ++ post)
                      (split_on sep s)).
    { eapply List.Forall_impl; [|exact IH].
      intros seg [Hno (pre & post & ->)]. split; [assumption|].
      now exists (c :: pre), post. }
    destruct (N.eqb_spec c sep) as [->|Hne].
    + constructor; [|assumption]. split; [tauto|]. now exists [], (sep :: s).
    + destruct (split_on sep s) as [|l ls] eqn:E.
      * now destruct (split_on_nonempty sep s).
      * apply Forall_cons in IH as [[Hno (pre & post & Hs)] _].
        apply Forall_cons in Hrest as [_ Hls].
        constructor; [|assumption]. split.
        -- intros [Hc|Hin]; [congruence|contradiction].
        -- (* the first segment starts the text *)
           assert (Hpre : exists post', s = l ++ post').
           { clear -E. revert l ls E. induction s as [|d s IH]; intros l ls E.
             - cbn in E. inversion E; subst. now exists [].
             - cbn [split_on] in E. destruct (d =? sep).
               + inversion E; subst. now exists (d :: s).
               + destruct (split_on sep s) as [|l' ls'] eqn:E'.
                 * inversion E; subst. now destruct (split_on_nonempty sep s).
                 * inversion E; subst. destruct (IH _ _ eq_refl) as [post' ->].
                   now exists post'. }
           destruct Hpre as [post' ->]. now exists [], post'.
Qed.

Lemma drop_spaces_fixed (s : jstring) :
  match s with c :: _ => is_space c = false | [] => True end ->
  drop_spaces s = s.
Proof. destruct s as [|c s]; [reflexivity|]. cbn. now intros ->. Qed.

Lemma trim_idempotent (s : jstring) : trim (trim s) = trim s.
Proof.
  destruct (trim_spec s) as (_ & _ & _ & _ & _ & Hhd & Hlast).
  unfold trim at 1, trimEnd, trimStart.
  rewrite (drop_spaces_fixed (trim s)) by assumption.
  rewrite (drop_spaces_fixed (rev (trim s))) by assumption.
  apply rev_involutive.
Qed.

Lemma trim_inside (s : jstring) : exists pre post, s = pre ++ trim s ++ post.
Proof.
  destruct (trim_spec s) as (lead & trail & Hs & _). now exists lead, trail.
Qed.

Lemma split_on_app (sep : N) (a b : jstring) :
  split_on sep (a ++ sep :: b) = split_on sep a ++ split_on sep b.
Proof.
  induction a as [|c a IH]; cbn [app split_on].
  - now rewrite N.eqb_refl.
  - destruct (c =? sep); [now rewrite IH|].
    rewrite IH. pose proof (split_on_nonempty sep a) as Hne.
    now destruct (split_on sep a).
Qed.

Lemma split_on_whole (sep : N) (s : jstring) :
  ~ In sep s -> split_on sep s = [s].
Proof.
  induction s as [|c s IH]; intros Hno; [reflexivity|].
  cbn [split_on]. destruct (N.eqb_spec c sep) as [->|_].
  - exfalso. apply Hno. now left.
  - rewrite IH; [reflexivity|]. intros H. apply Hno. now right.
Qed.

Lemma sublist_filter_bool {A} (f : A -> bool) (l : list A) :
  sublist (List.filter f l) l.
Proof.
  induction l as [|a l IH]; cbn [List.filter]; [constructor|].
  destruct (f a); now constructor.
Qed.

(** X7. The tags of a record are the comma-separated pieces of the tags
    field, trimmed, without the empty ones, in the order of the pieces: they
    are a sublist of the trimmed pieces that leaves out exactly the empty
    ones, the tags of a field continued after a comma are the tags of the
    field followed by those of the continuation, and a field without a comma
    has its trimmed text as its one tag, or none when that is empty. Hence
    every tag is non-empty, has no whitespace at either end, contains no
    comma and occurs in the field as typed. *)
Theorem parse_tags_spec (tags : jstring) :
  Forall (fun tag =>
            tag <> [] /\ trim tag = tag /\ ~ In COMMA tag
            /\ exists pre post, tags = pre ++ tag ++ post)
         (parse_tags tags)
  /\ (length (parse_tags tags) <= length (split_on COMMA tags))%nat
  /\ (forall tag, In tag (parse_tags tags)
                  <-> tag <> [] /\ exists piece,
                        In piece (split_on COMMA tags) /\ tag = trim piece)
  /\ sublist (parse_tags tags) (map trim (split_on COMMA tags))
  /\ (length (parse_tags tags)
      + length (List.filter (fun piece => negb (truthy (trim piece)))
                            (split_on COMMA tags))
      = length (split_on COMMA tags))%nat
  /\ (forall rest,
        parse_tags (tags ++ COMMA :: rest) = parse_tags tags ++ parse_tags rest)
  /\ (~ In COMMA tags ->
      parse_tags tags = if truthy (trim tags) then [trim tags] else []).
Proof.
  unfold parse_tags. split; [|split; [|split; [|split; [|split; [|split]]]]].
  - apply List.Forall_forall. intros tag Hin.
    apply List.filter_In in Hin as [Hin Hne].
    apply in_map_iff in Hin as (piece & <- & Hpiece).
    pose proof (split_on_segments COMMA tags) as Hseg.
    rewrite List.Forall_forall in Hseg.
    destruct (Hseg piece Hpiece) as [Hno (pre & post & Htags)].
    destruct (trim_inside piece) as (lead & trail & Hp).
    split; [|split; [|split]].
    + intros E. rewrite E in Hne. discriminate.
    + apply trim_idempotent.
    + intros Hc. apply Hno. rewrite Hp.
      apply in_or_app. right. apply in_or_app. now left.
    + exists (pre ++ lead), (trail ++ post).
      rewrite Htags. rewrite Hp at 1. now rewrite <- !app_assoc.
  - etransitivity; [apply filter_length_le|]. now rewrite length_map.
  - intros tag. rewrite List.filter_In, in_map_iff. split.
    + intros [(piece & <- & Hp) Hne]. split; [|eauto].
      intros E. rewrite E in Hne. discriminate.
    + intros [Hne (piece & Hp & ->)]. split; [eauto|].
      destruct (trim piece); [contradiction|reflexivity].
  - apply sublist_filter_bool.
  - rewrite filter_map_comm.
    pose proof (filter_partition_length (fun piece => truthy (trim piece))
                  (split_on COMMA tags)) as H.
    lia.
  - intros rest. now rewrite split_on_app, map_app, List.filter_app.
  - intros Hno. rewrite (split_on_whole COMMA tags Hno). cbn [map List.filter].
    reflexivity.
Qed.

(** ** Objects: reading a property after setting one *)

Lemma jstring_eqb_true (a b : jstring) : jstring_eqb a b = true <-> a = b.
Proof. unfold jstring_eqb. apply bool_decide_eq_true. Qed.

Lemma jstring_eqb_false (a b : jstring) : jstring_eqb a b = false <-> a <> b.
Proof. unfold jstring_eqb. apply bool_decide_eq_false. Qed.

Lemma jstring_eqb_refl (a : jstring) : jstring_eqb a a = true.
Proof. now apply jstring_eqb_true. Qed.

Lemma own_property_has_key (k : jstring) (ps : list (jstring * jsval)) :
  has_key k ps = false -> own_property k ps = None.
Proof.
  induction ps as [|[k' v'] ps IH]; cbn [has_key own_property]; [reflexivity|].
  intros H. apply orb_false_elim in H as [H1 H2]. rewrite H1. now apply IH.
Qed.

Lemma own_property_app (k : jstring) (ps qs : list (jstring * jsval)) :
  own_property k (ps ++ qs)
  = match own_property k ps with
    | Some v => Some v
    | None => own_property k qs
    end.
Proof.
  induction ps as [|[k' v'] ps IH]; cbn [app own_property]; [reflexivity|].
  now destruct (jstring_eqb k k').
Qed.

Lemma own_property_replace_key (k k' : jstring) (v : jsval)
  (ps : list (jstring * jsval)) :
  own_property k (replace_key k' v ps)
  = if jstring_eqb k k'
    then (if has_key k' ps then Some v else None)
    else own_property k ps.
Proof.
  induction ps as [|[k2 v2] ps IH]; cbn [replace_key own_property has_key].
  - now destruct (jstring_eqb k k').
  - destruct (jstring_eqb k' k2) eqn:E2; cbn [own_property orb].
    + apply jstring_eqb_true in E2 as <-.
      now destruct (jstring_eqb k k').
    + rewrite IH. destruct (jstring_eqb k k') eqn:E1; [|reflexivity].
      apply jstring_eqb_true in E1 as ->. now rewrite E2.
Qed.

Lemma own_property_insert_index (k k' : jstring) (i : N) (v : jsval)
  (ps : list (jstring * jsval)) :
  has_key k' ps = false ->
  own_property k (insert_index i k' v ps)
  = if jstring_eqb k k' then Some v else own_property k ps.
Proof.
  induction ps as [|[k2 v2] ps IH]; cbn [insert_index own_property has_key];
    intros Hnew.
  - reflexivity.
  - apply orb_false_elim in Hnew as [Hne Hnew].
    destruct (array_index k2) as [j|]; [destruct (j <? i)|];
      cbn [own_property]; try reflexivity.
    rewrite (IH Hnew).
    destruct (jstring_eqb k k') eqn:E1; [|reflexivity].
    apply jstring_eqb_true in E1 as ->. now rewrite Hne.
Qed.

(** Reading a key after [obj_set]: the value just set for that key, the
    former value for any other key. *)
Lemma own_property_obj_set (k k' : jstring) (v : jsval)
  (ps : list (jstring * jsval)) :
  own_property k (obj_set k' v ps)
  = if jstring_eqb k k' then Some v else own_property k ps.
Proof.
  unfold obj_set. destruct (has_key k' ps) eqn:Hk.
  - rewrite own_property_replace_key, Hk. reflexivity.
  - destruct (array_index k') as [i|].
    + now apply own_property_insert_index.
    + rewrite own_property_app. cbn [own_property].
      destruct (jstring_eqb k k') eqn:E.
      * apply jstring_eqb_true in E as ->.
        now rewrite (own_property_has_key _ _ Hk).
      * now destruct (own_property k ps).
Qed.

(** Copying properties one by one: the last value given for a key wins. *)
Lemma own_property_fold_obj_set (k : jstring) (ps acc : list (jstring * jsval)) :
  own_property k (fold_left (fun a kv => obj_set (fst kv) (snd kv) a) ps acc)
  = match own_property k (rev ps) with
    | Some v => Some v
    | None => own_property k acc
    end.
Proof.
  revert acc. induction ps as [|[k' v'] ps IH]; intros acc; cbn [fold_left rev].
  - reflexivity.
  - rewrite IH, own_property_app. cbn [fst snd own_property].
    rewrite own_property_obj_set.
    destruct (own_property k (rev ps)); [reflexivity|].
    now destruct (jstring_eqb k k').
Qed.

Lemma own_property_rev_nodup (k : jstring) (ps : list (jstring * jsval)) :
  List.NoDup (map fst ps) -> own_property k (rev ps) = own_property k ps.
Proof.
  induction ps as [|[k' v'] ps IH]; intros Hnd; [reflexivity|].
  cbn [map fst] in Hnd. apply List.NoDup_cons_iff in Hnd as [Hnotin Hnd].
  cbn [rev own_property]. rewrite own_property_app, (IH Hnd). cbn [own_property].
  destruct (jstring_eqb k k') eqn:E.
  - apply jstring_eqb_true in E as ->.
    assert (Hnone : own_property k' ps = None).
    { clear -Hnotin. induction ps as [|[k2 v2] ps IH]; [reflexivity|].
      cbn [own_property map fst] in *.
      destruct (jstring_eqb k' k2) eqn:E.
      - apply jstring_eqb_true in E. exfalso. apply Hnotin. now left.
      - apply IH. intros H. apply Hnotin. now right. }
    now rewrite Hnone.
  - now destruct (own_property k ps).
Qed.

(** ** Flashcard view *)

(** X8. Whatever record the model returned, the stored record carries the
    identifier, the tags, the creation date and the difficulty chosen by the
    view, even when the model's record had fields of these names; every
    other field of a model record that is an object is kept with its value. *)
Theorem with_metadata_spec (tags : jstring) (d : Difficulty) (r : Reading)
  (card : jsval) :
  exists fields,
    with_metadata tags d r card = JObj fields
    /\ own_property (u16 "id") fields
       = Some (JStr (Z_toString (now_ms r) ++ random36 r))
    /\ own_property (u16 "tags") fields = Some (JArr (map JStr (parse_tags tags)))
    /\ own_property (u16 "createdAt") fields = Some (JDate (date_ms r))
    /\ own_property (u16 "difficulty") fields = Some (JStr (Difficulty_name d))
    /\ forall k given,
         card = JObj given -> List.NoDup (map fst given) ->
         k <> u16 "id" -> k <> u16 "tags" ->
         k <> u16 "createdAt" -> k <> u16 "difficulty" ->
         own_property k fields = own_property k given.
Proof.
  unfold with_metadata. eexists. split; [reflexivity|].
  rewrite !own_property_obj_set. cbn [jstring_eqb].
  repeat split.
  intros k given -> Hnd Hid Htags Hcreated Hdiff.
  rewrite !own_property_obj_set.
  apply jstring_eqb_false in Hid, Htags, Hcreated, Hdiff.
  rewrite Hid, Htags, Hcreated, Hdiff.
  unfold spread. rewrite own_property_fold_obj_set.
  rewrite (own_property_rev_nodup _ _ Hnd). cbn [own_property].
  now destruct (own_property k given).
Qed.

Lemma with_metadata_spec_witness :
  string_property (u16 "difficulty")
    (with_metadata (u16 "x") hard sample_reading
       (JObj [(u16 "front", JStr (u16 "Q")); (u16 "difficulty", JStr (u16 "easy"))]))
  = Some (u16 "hard")
  /\ string_property (u16 "front")
       (with_metadata (u16 "x") hard sample_reading
          (JObj [(u16 "front", JStr (u16 "Q")); (u16 "difficulty", JStr (u16 "easy"))]))
     = Some (u16 "Q").
Proof.
  destruct (with_metadata_spec (u16 "x") hard sample_reading
              (JObj [(u16 "front", JStr (u16 "Q"));
                     (u16 "difficulty", JStr (u16 "easy"))]))
    as (fields & -> & _ & _ & _ & Hd & Hkeep).
  cbn [string_property]. rewrite Hd. split; [reflexivity|].
  rewrite (Hkeep (u16 "front") _ eq_refl); try (vm_compute; discriminate).
  - reflexivity.
  - repeat constructor; vm_compute; intuition discriminate.
Defined.

(** ** Generating cards and questions *)

(** Both generators return an array on every path. *)
Lemma generator_returns_array (response : result (option jsval))
  (otherwise : jstring -> jsval) (fallback : jsval) :
  (forall text, exists l, otherwise text = JArr l) ->
  (exists l, fallback = JArr l) ->
  exists l,
    try_catch
      (response <-! response ;;
       text <-! string_receiver response ;;
       match match_bracketed text with
       | Some jsonMatch => JSON_parse jsonMatch
       | None => Ok (otherwise text)
       end)
      (Ok fallback)
    = Ok (JArr l).
Proof.
  intros Hother [lf ->].
  destruct response as [[v|]|msg]; cbn [rbind try_catch]; eauto.
  destruct v; cbn [string_receiver rbind try_catch]; eauto.
  destruct (match_bracketed s) as [m|] eqn:Em.
  - unfold JSON_parse. destruct (parse m) as [v|] eqn:Ep; cbn [try_catch]; eauto.
    apply match_bracketed_head in Em as [r ->].
    destruct (parse_bracketed_array r v Ep) as [l ->]. eauto.
  - destruct (Hother s) as [l ->]. cbn [try_catch]. eauto.
Qed.

Lemma generateFlashcards_array (w : World) (content : jstring) (d : Difficulty) :
  exists l, generateFlashcards w content d = Ok (JArr l).
Proof.
  unfold generateFlashcards. apply generator_returns_array.
  - intros text. unfold manual_flashcards. eauto.
  - unfold fallback_flashcards. eauto.
Qed.

Lemma generateMCQs_array (w : World) (content : jstring) (d : Difficulty) :
  exists l, generateMCQs w content d = Ok (JArr l).
Proof.
  unfold generateMCQs.
  apply (generator_returns_array _ (fun _ => fallback_questions)).
  - intros _. unfold fallback_questions. eauto.
  - unfold error_questions. eauto.
Qed.

(** X9. With a blank input [generateCards] changes nothing and calls no one.
    Otherwise it always succeeds, whatever the server does: the branch that
    reports an error is never taken. The records returned by
    [generateFlashcards], each with its metadata, are put in front of the
    existing cards, which stay as they were, and the input and tags fields
    are emptied. *)
Theorem generateCards_spec (w : World) (readings : nat -> Reading)
  (st : FlashcardState) :
  if truthy (trim (fc_inputContent st)) then
    exists newCards,
      generateFlashcards w (fc_inputContent st) (fc_difficulty st)
      = Ok (JArr newCards)
      /\ generateCards w readings st
         = {| fc_inputContent := [];
              fc_flashcards :=
                imap (fun i card =>
                        with_metadata (fc_tags st) (fc_difficulty st) (readings i) card)
                     newCards
                ++ fc_flashcards st;
              fc_difficulty := fc_difficulty st;
              fc_tags := [];
              fc_processing := false |}
      /\ length (fc_flashcards (generateCards w readings st))
         = (length newCards + length (fc_flashcards st))%nat
  else generateCards w readings st = st.
Proof.
  unfold generateCards.
  destruct (truthy (trim (fc_inputContent st))); cbn [negb]; [|reflexivity].
  destruct (generateFlashcards_array w (fc_inputContent st) (fc_difficulty st))
    as [l Hl].
  exists l. rewrite Hl. repeat split.
  cbn [fc_flashcards]. now rewrite length_app, length_imap.
Qed.

(** X10. When the gateway call fails, [generateCards] does not fail: it
    stores the two placeholder flashcards, with metadata like any generated
    card, in front of the existing ones. *)
Theorem generateCards_gateway_failure (w : World) (readings : nat -> Reading)
  (st : FlashcardState) (message : jstring) :
  truthy (trim (fc_inputContent st)) = true ->
  callOllama w (flashcard_prompt (fc_inputContent st) (fc_difficulty st))
  = Err message ->
  fc_flashcards (generateCards w readings st)
  = [stored_card (u16 "What is the main topic of the provided content?")
       (u16 "The content covers key concepts and information that can be studied and reviewed.")
       (Z_toString (now_ms (readings 0%nat)) ++ random36 (readings 0%nat))
       (parse_tags (fc_tags st)) (date_ms (readings 0%nat)) (fc_difficulty st);
     stored_card (u16 "What are the key takeaways from this material?")
       (u16 "The material provides important insights and knowledge for understanding the subject matter.")
       (Z_toString (now_ms (readings 1%nat)) ++ random36 (readings 1%nat))
       (parse_tags (fc_tags st)) (date_ms (readings 1%nat)) (fc_difficulty st)]
    ++ fc_flashcards st
  /\ fc_inputContent (generateCards w readings st) = [].
Proof.
  intros Hinput Hfail. unfold generateCards, generateFlashcards.
  rewrite Hinput, Hfail. split; reflexivity.
Qed.

Lemma generateCards_gateway_failure_witness :
  length (fc_flashcards
            (generateCards world_unreachable (fun _ => sample_reading)
               sample_cards_state))
  = 2%nat.
Proof.
  rewrite (proj1 (generateCards_gateway_failure world_unreachable
                    (fun _ => sample_reading) sample_cards_state
                    connect_error_message eq_refl eq_refl)).
  reflexivity.
Defined.

(** X11. [generateQuestions] behaves like [generateCards]: nothing happens
    on a blank input; otherwise it always succeeds and puts the questions
    returned by [generateMCQs], with their metadata, in front of the existing
    ones. *)
Theorem generateQuestions_spec (w : World) (readings : nat -> Reading)
  (st : QuestionsState) :
  if truthy (trim (qs_inputContent st)) then
    exists newQuestions,
      generateMCQs w (qs_inputContent st) (qs_difficulty st)
      = Ok (JArr newQuestions)
      /\ generateQuestions w readings st
         = {| qs_inputContent := [];
              qs_questions :=
                imap (fun i question =>
                        with_metadata (qs_tags st) (qs_difficulty st) (readings i)
                          question)
                     newQuestions
                ++ qs_questions st;
              qs_difficulty := qs_difficulty st;
              qs_tags := [];
              qs_processing := false |}
      /\ length (qs_questions (generateQuestions w readings st))
         = (length newQuestions + length (qs_questions st))%nat
  else generateQuestions w readings st = st.
Proof.
  unfold generateQuestions.
  destruct (truthy (trim (qs_inputContent st))); cbn [negb]; [|reflexivity].
  destruct (generateMCQs_array w (qs_inputContent st) (qs_difficulty st))
    as [l Hl].
  exists l. rewrite Hl. repeat split.
  cbn [qs_questions]. now rewrite length_app, length_imap.
Qed.

(** X12. When the gateway call fails, [generateQuestions] stores the one
    placeholder question of the [catch] block; when the completion holds no
    bracketed text, it stores the two placeholder questions. Either way the
    user gets questions that were not made from the content. *)
Theorem generateQuestions_placeholders (w : World) (readings : nat -> Reading)
  (st : QuestionsState) :
  truthy (trim (qs_inputContent st)) = true ->
  (forall message,
     callOllama w (mcq_prompt (qs_inputContent st) (qs_difficulty st))
     = Err message ->
     length (qs_questions (generateQuestions w readings st))
     = S (length (qs_questions st))
     /\ map (string_property (u16 "question"))
            (take 1 (qs_questions (generateQuestions w readings st)))
        = [Some (u16 "What is the primary purpose of this study material?")])
  /\ (forall text,
        callOllama w (mcq_prompt (qs_inputContent st) (qs_difficulty st))
        = Ok (Some (JStr text)) ->
        match_bracketed text = None ->
        length (qs_questions (generateQuestions w readings st))
        = S (S (length (qs_questions st)))
        /\ map (string_property (u16 "question"))
               (take 2 (qs_questions (generateQuestions w readings st)))
           = [Some (u16 "Based on the provided content, what is the main focus?");
              Some (u16 "What can be learned from studying this material?")]).
Proof.
  intros Hinput. split.
  - intros message Hfail. unfold generateQuestions, generateMCQs.
    rewrite Hinput, Hfail. split; reflexivity.
  - intros text Htext Hnone. unfold generateQuestions, generateMCQs.
    rewrite Hinput, Htext. cbn [rbind string_receiver]. rewrite Hnone.
    split; reflexivity.
Qed.

Lemma generateQuestions_placeholders_witness :
  length (qs_questions
            (generateQuestions world_unreachable (fun _ => sample_reading)
               sample_questions_state)) = 1%nat
  /\ length (qs_questions
               (generateQuestions (world_completing (u16 "I cannot help with that."))
                  (fun _ => sample_reading) sample_questions_state)) = 2%nat.
Proof.
  split.
  - apply (proj1 (generateQuestions_placeholders world_unreachable
                    (fun _ => sample_reading) sample_questions_state eq_refl)
             connect_error_message).
    reflexivity.
  - apply (proj2 (generateQuestions_placeholders
                    (world_completing (u16 "I cannot help with that."))
                    (fun _ => sample_reading) sample_questions_state eq_refl)
             (u16 "I cannot help with that.")).
    + apply callOllama_world_completing.
    + reflexivity.
Defined.

(** ** Completions in general *)

Lemma through_last_close_app (body post : jstring) :
  ~ In 93 post ->
  through_last_close (body ++ 93 :: post) = Some (body ++ [93]).
Proof.
  intros Hpost. induction body as [|c body IH]; cbn [app through_last_close].
  - apply through_last_close_None in Hpost. now rewrite Hpost.
  - now rewrite IH.
Qed.

Lemma match_bracketed_app (pre body post : jstring) :
  ~ In 91 pre -> ~ In 93 post ->
  match_bracketed (pre ++ 91 :: body ++ 93 :: post) = Some (91 :: body ++ [93]).
Proof.
  intros Hpre Hpost. induction pre as [|c pre IH]; cbn [app match_bracketed].
  - cbn [N.eqb Pos.eqb]. now rewrite through_last_close_app.
  - destruct (N.eqb_spec c 91) as [->|_].
    + exfalso. apply Hpre. now left.
    + apply IH. intros H. apply Hpre. now right.
Qed.

Lemma match_bracketed_no_bracket (s : jstring) :
  ~ In 91 s -> match_bracketed s = None.
Proof.
  intros H. apply match_bracketed_None. intros (pre & body & post & ->).
  apply H. apply in_or_app. right. now left.
Qed.

(** X13. Text around the JSON array is tolerated as long as it holds no
    bracket on the wrong side: when the completion is some text without an
    opening bracket, then the serialised array, then some text without a
    closing bracket, both generators return exactly that array. *)
Theorem generators_ignore_surrounding_text (w : World) (content : jstring)
  (d : Difficulty) (before after : jstring) (records : list jsval) :
  ~ In 91 before -> ~ In 93 after ->
  forallb storable records = true -> forallb plain records = true ->
  let completion := before ++ stringify (JArr records) ++ after in
  (callOllama w (flashcard_prompt content d) = Ok (Some (JStr completion)) ->
   generateFlashcards w content d = Ok (JArr records))
  /\ (callOllama w (mcq_prompt content d) = Ok (Some (JStr completion)) ->
      generateMCQs w content d = Ok (JArr records)).
Proof.
  intros Hbefore Hafter Hst Hplain completion.
  assert (Hmatch : match_bracketed completion = Some (stringify (JArr records))).
  { unfold completion. cbn [stringify]. cbn [app]. rewrite <- app_assoc. cbn [app].
    now apply match_bracketed_app. }
  assert (Hparse : JSON_parse (stringify (JArr records)) = Ok (JArr records)).
  { unfold JSON_parse. rewrite (parse_stringify (JArr records)) by assumption.
    now rewrite (to_JSON_plain (JArr records)). }
  split; intros Hcall.
  - unfold generateFlashcards. rewrite Hcall. cbn [rbind string_receiver].
    now rewrite Hmatch, Hparse.
  - unfold generateMCQs. rewrite Hcall. cbn [rbind string_receiver].
    now rewrite Hmatch, Hparse.
Qed.

Lemma generators_ignore_surrounding_text_witness :
  generateFlashcards
    (world_completing
       (u16 "Sure! Here you go: " ++ stringify (JArr two_cards) ++ u16 " Enjoy."))
    (u16 "notes") easy
  = Ok (JArr two_cards).
Proof.
  apply (proj1 (generators_ignore_surrounding_text
                  (world_completing
                     (u16 "Sure! Here you go: " ++ stringify (JArr two_cards)
                      ++ u16 " Enjoy."))
                  (u16 "notes") easy
                  (u16 "Sure! Here you go: ") (u16 " Enjoy.") two_cards
                  ltac:(vm_compute; intuition discriminate)
                  ltac:(vm_compute; intuition discriminate)
                  eq_refl eq_refl)).
  apply callOllama_world_completing.
Defined.

(** *** Line pairing *)

Lemma split_on_join_lines (l : jstring) (ls : list jstring) :
  Forall (fun line => ~ In LF line) (l :: ls) ->
  split_on LF (join_lines (l :: ls)) = l :: ls.
Proof.
  revert l. induction ls as [|l2 ls IH]; intros l Hall.
  - apply Forall_cons in Hall as [Hl _]. cbn [join_lines].
    induction l as [|c l IHl]; [reflexivity|].
    cbn [split_on]. destruct (N.eqb_spec c LF) as [->|_].
    + exfalso. apply Hl. now left.
    + rewrite IHl; [reflexivity|]. intros H. apply Hl. now right.
  - apply Forall_cons in Hall as [Hl Hrest].
    change (join_lines (l :: l2 :: ls)) with (l ++ LF :: join_lines (l2 :: ls)).
    induction l as [|c l IHl].
    + cbn [app split_on]. rewrite N.eqb_refl. now rewrite IH.
    + cbn [app split_on]. destruct (N.eqb_spec c LF) as [->|_].
      * exfalso. apply Hl. now left.
      * rewrite IHl; [reflexivity|]. intros H. apply Hl. now right.
Qed.

Lemma join_lines_no_bracket (lines : list jstring) :
  Forall (fun line => ~ In 91 line) lines -> ~ In 91 (join_lines lines).
Proof.
  induction lines as [|l ls IH]; intros Hall; [tauto|].
  apply Forall_cons in Hall as [Hl Hls].
  destruct ls as [|l2 ls']; [exact Hl|].
  change (join_lines (l :: l2 :: ls')) with (l ++ LF :: join_lines (l2 :: ls')).
  intros Hin. apply in_app_or in Hin as [Hin|[Hin|Hin]].
  - now apply Hl.
  - discriminate.
  - now apply IH.
Qed.

Lemma pair_lines_card_lines (pairs : list (jstring * jstring)) :
  Forall clean_line (card_lines pairs) ->
  pair_lines (card_lines pairs)
  = map (fun p => flashcard (trim (strip_ordinal (fst p))) (snd p)) pairs.
Proof.
  induction pairs as [|[f b] pairs IH]; intros Hall; [reflexivity|].
  cbn [card_lines flat_map app fst snd] in *.
  apply Forall_cons in Hall as [(Hf & _) Hall].
  apply Forall_cons in Hall as [(Hb & Htrim & _) Hall].
  cbn [pair_lines map fst snd].
  destruct f; [contradiction|]. destruct b; [contradiction|].
  cbn [truthy andb app]. rewrite Htrim. f_equal. now apply IH.
Qed.

(** X14. When the completion lists cards as lines, a front line followed by
    a back line, without brackets, [generateFlashcards] returns the first
    five pairs in order and drops the rest; a numbering prefix of a front
    line is removed. *)
Theorem generateFlashcards_line_pairs (w : World) (content : jstring)
  (d : Difficulty) (pairs : list (jstring * jstring)) :
  Forall clean_line (card_lines pairs) ->
  callOllama w (flashcard_prompt content d)
  = Ok (Some (JStr (join_lines (card_lines pairs)))) ->
  generateFlashcards w content d
  = Ok (JArr (take 5 (map (fun p => flashcard (trim (strip_ordinal (fst p))) (snd p))
                          pairs))).
Proof.
  intros Hclean Hcall. unfold generateFlashcards. rewrite Hcall.
  cbn [rbind string_receiver].
  assert (Hnone : match_bracketed (join_lines (card_lines pairs)) = None).
  { apply match_bracketed_no_bracket, join_lines_no_bracket.
    eapply List.Forall_impl; [|exact Hclean]. now intros line (_ & _ & _ & H). }
  rewrite Hnone. cbn [try_catch]. unfold manual_flashcards. do 3 f_equal.
  destruct pairs as [|[f b] pairs]; [reflexivity|].
  rewrite <- pair_lines_card_lines by assumption. f_equal.
  cbn [card_lines flat_map app fst snd] in *.
  rewrite split_on_join_lines.
  - apply filter_all. intros line Hin.
    rewrite List.Forall_forall in Hclean.
    destruct (Hclean line Hin) as (Hne & Htrim & _). rewrite Htrim.
    destruct line; [contradiction|reflexivity].
  - eapply List.Forall_impl; [|exact Hclean]. now intros line (_ & _ & H & _).
Qed.

Lemma generateFlashcards_line_pairs_witness :
  generateFlashcards
    (world_completing
       (join_lines (card_lines
          [(u16 "1. A", u16 "a"); (u16 "2. B", u16 "b"); (u16 "3. C", u16 "c");
           (u16 "4. D", u16 "d"); (u16 "5. E", u16 "e"); (u16 "6. F", u16 "f")])))
    (u16 "notes") easy
  = Ok (JArr [flashcard (u16 "A") (u16 "a"); flashcard (u16 "B") (u16 "b");
              flashcard (u16 "C") (u16 "c"); flashcard (u16 "D") (u16 "d");
              flashcard (u16 "E") (u16 "e")]).
Proof.
  apply (generateFlashcards_line_pairs
           (world_completing
              (join_lines (card_lines
                 [(u16 "1. A", u16 "a"); (u16 "2. B", u16 "b"); (u16 "3. C", u16 "c");
                  (u16 "4. D", u16 "d"); (u16 "5. E", u16 "e"); (u16 "6. F", u16 "f")])))
           (u16 "notes") easy
           [(u16 "1. A", u16 "a"); (u16 "2. B", u16 "b"); (u16 "3. C", u16 "c");
            (u16 "4. D", u16 "d"); (u16 "5. E", u16 "e"); (u16 "6. F", u16 "f")]).
  - repeat constructor; vm_compute; intuition discriminate.
  - apply callOllama_world_completing.
Defined.

(** ** Running a quiz *)

(** X15. [nextQuestion] moves to the next question while there is one and
    then leaves the results alone; on the last question (and on an empty
    question set) it finishes the quiz instead, which adds one result and
    leaves the index where it is. So an index inside the question set stays
    inside, and [prevQuestion] undoes a move. *)
Theorem nextQuestion_spec (r : Reading) (s : QuizSession) :
  let n := length (questions (quiz s)) in
  let i := currentQuestionIndex s in
  (if (S i <? n)%nat
   then nextQuestion r s
        = {| quiz := quiz s; quizStarted := quizStarted s;
             currentQuestionIndex := S i |}
        /\ prevQuestion (nextQuestion r s) = s
   else quiz (nextQuestion r s) = finishQuiz r (quiz s)
        /\ currentQuestionIndex (nextQuestion r s) = i
        /\ length (quizResults (quiz (nextQuestion r s)))
           = S (length (quizResults (quiz s))))
  /\ ((i < n)%nat -> (currentQuestionIndex (nextQuestion r s) < n)%nat)
  /\ (currentQuestionIndex (prevQuestion s) <= i)%nat
  /\ questions (quiz (nextQuestion r s)) = questions (quiz s).
Proof.
  intros n i. subst n i. unfold nextQuestion.
  destruct (S (currentQuestionIndex s) <? length (questions (quiz s)))%nat eqn:E.
  - apply Nat.ltb_lt in E.
    replace (Z.of_nat (currentQuestionIndex s)
             <? Z.of_nat (length (questions (quiz s))) - 1)%Z with true
      by (symmetry; apply Z.ltb_lt; lia).
    repeat split; cbn [currentQuestionIndex quiz]; try lia.
    + unfold prevQuestion. cbn [currentQuestionIndex quiz quizStarted].
      destruct s as [q st i]. cbn. f_equal. lia.
    + unfold prevQuestion. destruct (0 <? _)%nat; cbn; lia.
  - apply Nat.ltb_ge in E.
    replace (Z.of_nat (currentQuestionIndex s)
             <? Z.of_nat (length (questions (quiz s))) - 1)%Z with false
      by (symmetry; apply Z.ltb_ge; lia).
    repeat split; cbn [currentQuestionIndex quiz]; try lia.
    unfold prevQuestion. destruct (0 <? _)%nat; cbn; lia.
Qed.

Lemma nextQuestion_spec_witness :
  currentQuestionIndex
    (nextQuestion sample_reading (startQuiz sample_session)) = 1%nat
  /\ (currentQuestionIndex
        (nextQuestion sample_reading
           (nextQuestion sample_reading (startQuiz sample_session))) < 2)%nat.
Proof.
  split; [reflexivity|].
  apply (proj1 (proj2 (nextQuestion_spec sample_reading
                         (nextQuestion sample_reading (startQuiz sample_session))))).
  vm_compute. lia.
Defined.

(** ** The request of the gateway and the stored selection *)

(** X17. The request of [callOllama] carries the prompt unharmed: whatever
    characters the prompt and the model name hold, the body is JSON text
    that reads back as the object with that model, that prompt and
    [stream: false]. The model is the one that [OllamaStatus] stored, or
    "llama2" when the stored name is empty or nothing is stored. *)
Theorem callOllama_request (model prompt : jstring)
  (fetcher : Request -> FetchOutcome) (storage : gmap (list N) (list N)) :
  (exists body,
     req_body (generate_request model prompt) = Some body
     /\ parse body = Some (JObj [(u16 "model", JStr model);
                                 (u16 "prompt", JStr prompt);
                                 (u16 "stream", JBool false)]))
  /\ req_url (generate_request model prompt) = u16 "http://localhost:11434/api/generate"
  /\ selectedModel {| fetch := fetcher;
                      localStorage := OllamaStatus_save model storage |}
     = (if truthy model then model else u16 "llama2")
  /\ selectedModel {| fetch := fetcher; localStorage := ∅ |} = u16 "llama2".
Proof.
  split; [|split; [reflexivity|split; [|reflexivity]]].
  - eexists. split; [reflexivity|].
    now rewrite parse_stringify.
  - unfold selectedModel, OllamaStatus_save, getItem, setItem. cbn [localStorage].
    now rewrite lookup_insert_eq.
Qed.

(** ** The installed models *)

Lemma getAvailableModels_Ok (w : World) :
  exists names, getAvailableModels w = Ok names.
Proof.
  unfold getAvailableModels, try_catch.
  match goal with |- context [match ?body with Ok _ => _ | Err _ => _ end] =>
    destruct body end; eauto.
Qed.

(** X18. [getAvailableModels] never throws. When the endpoint cannot be
    reached, answers with a status outside 200..299, or answers with a body
    that is not JSON, the result is the one-element list with "llama2". *)
Theorem getAvailableModels_fallback (w : World) :
  exists names,
    getAvailableModels w = Ok names
    /\ (fetch w tags_request = NetworkError -> names = DEFAULT_MODELS)
    /\ (forall status body,
          fetch w tags_request = Response status body ->
          response_ok status = false \/ parse body = None ->
          names = DEFAULT_MODELS).
Proof.
  destruct (getAvailableModels_Ok w) as [names Hnames].
  exists names. split; [exact Hnames|]. unfold getAvailableModels in Hnames.
  split.
  - intros Hfetch. rewrite Hfetch in Hnames. cbn in Hnames. congruence.
  - intros status body Hfetch [Hstatus|Hparse]; rewrite Hfetch in Hnames.
    + rewrite Hstatus in Hnames. cbn in Hnames. congruence.
    + unfold JSON_parse in Hnames. rewrite Hparse in Hnames.
      destruct (response_ok status); cbn in Hnames; congruence.
Qed.

Lemma getAvailableModels_fallback_witness :
  getAvailableModels world_unreachable = Ok DEFAULT_MODELS
  /\ getAvailableModels (world_status 503) = Ok DEFAULT_MODELS.
Proof.
  split.
  - destruct (getAvailableModels_fallback world_unreachable) as (names & -> & H & _).
    f_equal. now apply H.
  - destruct (getAvailableModels_fallback (world_status 503)) as (names & -> & _ & H).
    f_equal. apply (H 503 (u16 "Internal Server Error")); [reflexivity|now left].
Defined.

Lemma map_names_objects (models : list jsval) :
  Forall (fun model => exists fields, model = JObj fields) models ->
  map_names models
  = Ok (map (fun model => match model with
                          | JObj fields => own_property (u16 "name") fields
                          | _ => None
                          end) models).
Proof.
  induction models as [|m ms IH]; intros Hall; [reflexivity|].
  apply Forall_cons in Hall as [[fields ->] Hms].
  cbn [map_names get_property rbind map]. now rewrite (IH Hms).
Qed.

(** X19. When the endpoint answers with a JSON object whose [models] is an
    array of objects, the result lists the [name] of each, in order and as
    many as there are. When the object has no [models] at all, the result is
    the empty list, not the "llama2" fallback. *)
Theorem getAvailableModels_answer (w : World) (status : N) (body : jstring)
  (fields : list (jstring * jsval)) :
  fetch w tags_request = Response status body ->
  response_ok status = true ->
  parse body = Some (JObj fields) ->
  (forall models,
     own_property (u16 "models") fields = Some (JArr models) ->
     Forall (fun model => exists fs, model = JObj fs) models ->
     getAvailableModels w
     = Ok (map (fun model => match model with
                             | JObj fs => own_property (u16 "name") fs
                             | _ => None
                             end) models))
  /\ (own_property (u16 "models") fields = None -> getAvailableModels w = Ok []).
Proof.
  intros Hfetch Hok Hparse. unfold getAvailableModels, JSON_parse.
  rewrite Hfetch, Hok, Hparse. cbn [negb rbind get_property]. split.
  - intros models Hmodels Hall. rewrite Hmodels.
    now rewrite (map_names_objects models Hall).
  - intros Hnone. now rewrite Hnone.
Qed.

Lemma parse_tags_body (names : list jstring) :
  parse (tags_body names)
  = Some (JObj [(u16 "models",
                 JArr (map (fun name => JObj [(u16 "name", JStr name)]) names))]).
Proof.
  unfold tags_body. rewrite parse_stringify.
  - rewrite to_JSON_plain; [reflexivity|].
    cbn. rewrite andb_true_r. induction names; [reflexivity|]. cbn. assumption.
  - cbn. rewrite !andb_true_r. induction names; [reflexivity|]. cbn. assumption.
Qed.

Lemma getAvailableModels_answer_witness :
  getAvailableModels (world_with_models [u16 "llama3"; u16 "mistral"])
  = Ok [Some (JStr (u16 "llama3")); Some (JStr (u16 "mistral"))]
  /\ getAvailableModels
       {| fetch := fun _ => Response 200 (u16 "{}"); localStorage := ∅ |}
     = Ok [].
Proof.
  split.
  - apply (proj1 (getAvailableModels_answer
                    (world_with_models [u16 "llama3"; u16 "mistral"]) 200
                    (tags_body [u16 "llama3"; u16 "mistral"]) _
                    eq_refl eq_refl (parse_tags_body _))
             [JObj [(u16 "name", JStr (u16 "llama3"))];
              JObj [(u16 "name", JStr (u16 "mistral"))]]).
    + reflexivity.
    + repeat constructor; eexists; reflexivity.
  - apply (proj2 (getAvailableModels_answer
                    {| fetch := fun _ => Response 200 (u16 "{}"); localStorage := ∅ |}
                    200 (u16 "{}") [] eq_refl eq_refl eq_refl)).
    reflexivity.
Defined.

(** ** Notes *)

Lemma starts_with_app (p rest : jstring) : starts_with p (p ++ rest) = true.
Proof.
  induction p as [|c p IH]; cbn [app starts_with].
  - now destruct rest.
  - now rewrite N.eqb_refl, IH.
Qed.

Lemma includes_app (pre s post : jstring) : includes (pre ++ s ++ post) s = true.
Proof.
  induction pre as [|c pre IH]; cbn [app].
  - destruct (s ++ post) eqn:E; cbn [includes].
    + destruct s; [reflexivity|discriminate].
    + rewrite <- E. now rewrite starts_with_app.
  - cbn [includes]. rewrite IH. apply orb_true_r.
Qed.

(** X20. For each of the three styles the prompt of [generateNotes] starts
    with the instruction of that style and holds the content unchanged, and
    the three instructions differ; the function returns what the gateway
    returns and, having no [try], also its failure. *)
Theorem generateNotes_prompt (w : World) (content : jstring) (style : NoteStyle) :
  starts_with (styleInstructions style) (notes_prompt content style) = true
  /\ includes (notes_prompt content style) content = true
  /\ (forall other, styleInstructions other = styleInstructions style -> other = style)
  /\ generateNotes w content style = callOllama w (notes_prompt content style)
  /\ (fetch w (generate_request (selectedModel w) (notes_prompt content style))
      = NetworkError ->
      generateNotes w content style = Err connect_error_message).
Proof.
  split; [|split; [|split; [|split]]].
  - unfold notes_prompt. apply starts_with_app.
  - unfold notes_prompt. rewrite app_assoc. apply includes_app.
  - intros other. destruct other, style; try reflexivity; intros H; vm_compute in H;
      discriminate.
  - reflexivity.
  - intros Hfetch. unfold generateNotes, callOllama. now rewrite Hfetch.
Qed.

Lemma generateNotes_prompt_witness :
  generateNotes world_unreachable (u16 "cells") bullet = Err connect_error_message.
Proof.
  apply (proj2 (proj2 (proj2 (proj2
           (generateNotes_prompt world_unreachable (u16 "cells") bullet))))).
  reflexivity.
Defined.

(** ** Text input: generating a note *)

Lemma note_title_of_short (inputText : jstring) :
  (length inputText <= 50)%nat -> note_title_of inputText = inputText.
Proof.
  intros Hlen. unfold note_title_of.
  rewrite take_ge by exact Hlen.
  destruct (Nat.ltb_spec 50 (length inputText)); [lia|apply app_nil_r].
Qed.

Lemma note_title_of_length (inputText : jstring) :
  (length (note_title_of inputText) <= 53)%nat.
Proof.
  unfold note_title_of. rewrite length_app, length_take.
  destruct (50 <? length inputText)%nat;
    [change (length (u16 "...")) with 3%nat|cbn [length]]; lia.
Qed.

(** X21. [generateFullNotes] does nothing on blank input. Otherwise it ends
    with [processing] off and leaves the text, the style and the tags field
    as they were (the form is not cleared). When the gateway fails no note is
    handed on and the shown content stays; when it answers, exactly one note
    is handed on: its content is the answer, its title is the first 50 code
    units of the text, followed by three dots when the text is longer (so at
    most 53 code units, and the text itself when it has at most 50), its tags
    are the parsed tags field, its source is "text" and it names no file. *)
Theorem generateFullNotes_spec (w : World) (created updated : Reading)
  (st : TextInputState) :
  let (st', handed) := generateFullNotes w created updated st in
  if truthy (trim (ti_inputText st)) then
    ti_processing st' = false
    /\ ti_inputText st' = ti_inputText st
    /\ ti_tags st' = ti_tags st
    /\ ti_noteStyle st' = ti_noteStyle st
    /\ match generateNotes w (ti_inputText st) (ti_noteStyle st) with
       | Err _ => handed = None /\ ti_generatedContent st' = ti_generatedContent st
       | Ok notes =>
           ti_generatedContent st' = notes
           /\ exists note,
                handed = Some note
                /\ note_content note = notes
                /\ note_id note = Z_toString (now_ms created)
                /\ note_title note
                   = take 50 (ti_inputText st)
                     ++ (if (50 <? length (ti_inputText st))%nat then u16 "..." else [])
                /\ (length (note_title note) <= 53)%nat
                /\ ((length (ti_inputText st) <= 50)%nat ->
                    note_title note = ti_inputText st)
                /\ note_tags note = parse_tags (ti_tags st)
                /\ note_style note = ti_noteStyle st
                /\ note_sourceType note = sourceText
                /\ note_originalFileName note = None
       end
  else st' = st /\ handed = None.
Proof.
  unfold generateFullNotes.
  destruct (truthy (trim (ti_inputText st))); cbn [negb]; [|now split].
  destruct (generateNotes w (ti_inputText st) (ti_noteStyle st)) as [notes|msg].
  - cbn. repeat (split; [reflexivity|]). eexists. split; [reflexivity|]. cbn.
    repeat (split; [reflexivity|]).
    split; [apply note_title_of_length|].
    split; [apply note_title_of_short|]. now repeat split.
  - cbn. now repeat split.
Qed.

(** ** File upload *)

Lemma imap_shift {A} (off : nat) (l : list A) :
  imap ((fun j file => ((off + j)%nat, file)) ∘ S) l
  = imap (fun j file => ((S off + j)%nat, file)) l.
Proof. apply imap_ext. intros j y _. cbn. f_equal. lia. Qed.

Lemma remove_at_past {A} (l : list A) (off k : nat) :
  (k < off)%nat ->
  map snd (List.filter (fun entry => negb (fst entry =? k)%nat)
                       (imap (fun j file => ((off + j)%nat, file)) l))
  = l.
Proof.
  revert off. induction l as [|x l IH]; intros off Hlt; [reflexivity|].
  rewrite imap_cons, imap_shift. cbn [List.filter fst].
  replace (off + 0)%nat with off by lia.
  destruct (Nat.eqb_spec off k); [lia|]. cbn [negb map snd].
  f_equal. apply IH. lia.
Qed.

Lemma remove_at_from {A} (l : list A) (off i : nat) :
  map snd (List.filter (fun entry => negb (fst entry =? off + i)%nat)
                       (imap (fun j file => ((off + j)%nat, file)) l))
  = delete i l.
Proof.
  revert off i. induction l as [|x l IH]; intros off i; [now destruct i|].
  rewrite imap_cons, imap_shift. cbn [List.filter fst].
  replace (off + 0)%nat with off by lia. destruct i as [|i].
  - rewrite Nat.add_0_r, Nat.eqb_refl. cbn [negb delete].
    apply remove_at_past. lia.
  - destruct (Nat.eqb_spec off (off + S i)); [lia|].
    cbn [negb map snd]. change (delete (S i) (x :: l)) with (x :: delete i l).
    f_equal. rewrite <- (IH (S off) i).
    replace (S off + i)%nat with (off + S i)%nat by lia. reflexivity.
Qed.

Lemma remove_at_delete {A} (index : nat) (prev : list A) :
  remove_at index prev = delete index prev.
Proof. exact (remove_at_from prev 0 index). Qed.

(** X22. [removeFile(index)] takes out the file at that position and no
    other: the files before it keep their positions, those after it move up
    by one, and the list gets one shorter; an index past the end changes
    nothing. The stored note identifier is not touched. *)
Theorem removeFile_spec (index : nat) (st : FileUploadState) :
  fu_uploadedFiles (removeFile index st)
  = take index (fu_uploadedFiles st) ++ drop (S index) (fu_uploadedFiles st)
  /\ (forall j, fu_uploadedFiles (removeFile index st) !! j
                = if (j <? index)%nat then fu_uploadedFiles st !! j
                  else fu_uploadedFiles st !! S j)
  /\ ((index < length (fu_uploadedFiles st))%nat ->
      S (length (fu_uploadedFiles (removeFile index st)))
      = length (fu_uploadedFiles st))
  /\ ((length (fu_uploadedFiles st) <= index)%nat ->
      removeFile index st = st)
  /\ fu_noteMeta (removeFile index st) = fu_noteMeta st.
Proof.
  unfold removeFile. cbn [with_files fu_uploadedFiles fu_noteMeta].
  rewrite remove_at_delete. split; [apply delete_take_drop|].
  split; [|split; [|split; [|reflexivity]]].
  - intros j. destruct (Nat.ltb_spec j index).
    + now apply list_lookup_delete_lt.
    + now apply list_lookup_delete_ge.
  - intros Hlt. rewrite length_delete; [lia|].
    now apply lookup_lt_is_Some_2.
  - intros Hge. rewrite delete_take_drop, take_ge, drop_ge, app_nil_r by lia.
    now destruct st.
Qed.

Lemma removeFile_spec_witness :
  fu_uploadedFiles (removeFile 0 sample_upload)
  = drop 1 (fu_uploadedFiles sample_upload)
  /\ removeFile 5 sample_upload = sample_upload.
Proof.
  split.
  - exact (proj1 (removeFile_spec 0 sample_upload)).
  - apply (proj1 (proj2 (proj2 (proj2 (removeFile_spec 5 sample_upload))))).
    vm_compute. lia.
Defined.

Lemma file_contents_Ok (files : list File) (contents : list jstring) :
  file_contents files = Ok contents <->
  Forall2 (fun file content => file_content file = Ok content) files contents.
Proof.
  revert contents. induction files as [|file files IH]; intros contents; cbn.
  - split.
    + intros [= <-]. constructor.
    + intros H. apply Forall2_nil_inv_l in H. now subst.
  - split.
    + destruct (file_content file) as [c|m] eqn:Ec; [|discriminate].
      destruct (file_contents files) as [cs|m]; [|discriminate].
      intros [= <-]. constructor; [assumption|]. now apply IH.
    + intros H. apply Forall2_cons_inv_l in H as (c & cs & Hc & Hcs & ->).
      rewrite Hc. apply IH in Hcs. now rewrite Hcs.
Qed.

Lemma file_contents_Err (files : list File) (file : File) (message : jstring) :
  In file files -> file_content file = Err message ->
  exists message', file_contents files = Err message'.
Proof.
  induction files as [|f files IH]; intros Hin Herr; [destruct Hin|].
  cbn [file_contents]. destruct Hin as [->|Hin].
  - rewrite Herr. eauto.
  - destruct (IH Hin Herr) as [m' ->]. destruct (file_content f); eauto.
Qed.

(** X23. [processFiles] does nothing without files. With files it ends with
    [processing] off and keeps the files listed and the stored identifier.
    One plain-text file that cannot be read, or a failure of the gateway,
    means that no note is handed on and the shown content stays. Otherwise
    the gateway is asked about the contents joined by blank lines and one
    note is handed on: its content is the answer; for a single file its title
    and its original file name are the file's name, for several files the
    title counts them and no file is named; its source is "file". *)
Theorem processFiles_spec (w : World) (st : FileUploadState) :
  let (st', handed) := processFiles w st in
  match fu_uploadedFiles st with
  | [] => st' = st /\ handed = None
  | first :: others =>
      fu_processing st' = false
      /\ fu_uploadedFiles st' = fu_uploadedFiles st
      /\ fu_noteMeta st' = fu_noteMeta st
      /\ fu_tags st' = fu_tags st
      /\ (forall file message,
            In file (fu_uploadedFiles st) ->
            file_type file = u16 "text/plain" ->
            file_text file = Err message ->
            handed = None /\ fu_generatedContent st' = fu_generatedContent st)
      /\ (forall contents,
            file_contents (fu_uploadedFiles st) = Ok contents ->
            match generateNotes w (join [LF; LF] contents) (fu_noteStyle st) with
            | Err _ =>
                handed = None /\ fu_generatedContent st' = fu_generatedContent st
            | Ok notes =>
                fu_generatedContent st' = notes
                /\ exists note,
                     handed = Some note
                     /\ note_content note = notes
                     /\ note_tags note = parse_tags (fu_tags st)
                     /\ note_style note = fu_noteStyle st
                     /\ note_sourceType note = sourceFile
                     /\ match others with
                        | [] => note_title note = file_name first
                                /\ note_originalFileName note = Some (file_name first)
                        | _ :: _ =>
                            note_title note
                            = u16 "Notes from "
                              ++ N_toString (N.of_nat (S (length others)))
                              ++ u16 " files"
                            /\ note_originalFileName note = None
                        end
            end)
  end.
Proof.
  unfold processFiles.
  destruct (fu_uploadedFiles st) as [|first others] eqn:Efiles; [now split|].
  destruct (file_contents (first :: others)) as [contents|message] eqn:Econtents;
    cbn [rbind].
  - destruct (generateNotes w (join [LF; LF] contents) (fu_noteStyle st))
      as [notes|m] eqn:Enotes; cbn.
    + repeat (split; [reflexivity|]). split.
      * intros file message Hin Htype Htext.
        destruct (file_contents_Err (first :: others) file message Hin)
          as [m' Hm'].
        { unfold file_content. rewrite Htype. cbn. assumption. }
        congruence.
      * intros contents' [= <-]. rewrite Enotes. split; [reflexivity|].
        eexists. split; [reflexivity|]. cbn. repeat (split; [reflexivity|]).
        destruct others; now split.
    + repeat (split; [reflexivity|]). split; [now split|].
      intros contents' [= <-]. rewrite Enotes. now split.
  - cbn. repeat (split; [reflexivity|]). split; [now split|].
    intros contents' [=].
Qed.

Lemma processFiles_preserves (w : World) (st : FileUploadState) :
  fu_noteMeta (fst (processFiles w st)) = fu_noteMeta st.
Proof.
  unfold processFiles. destruct (fu_uploadedFiles st); [reflexivity|].
  now destruct (rbind _ _).
Qed.

Lemma processFiles_note (w : World) (st : FileUploadState) (note : NoteData)
  (meta : NoteMeta) :
  fu_noteMeta st = Some meta -> meta_id meta <> [] ->
  snd (processFiles w st) = Some note ->
  note_id note = meta_id meta
  /\ note_createdAt note = JDate (meta_createdAt meta)
  /\ note_updatedAt note = JDate (meta_updatedAt meta).
Proof.
  intros Hmeta Hid. unfold processFiles.
  destruct (fu_uploadedFiles st); [discriminate|].
  destruct (rbind _ _); [|discriminate].
  cbn. intros [= <-]. cbn. rewrite Hmeta.
  destruct (meta_id meta); [contradiction|]. now repeat split.
Qed.

Lemma upload_run_ids (meta : NoteMeta) (actions : list UploadAction)
  (st : FileUploadState) :
  fu_noteMeta st = Some meta -> meta_id meta <> [] ->
  Forall (fun note =>
            note_id note = meta_id meta
            /\ note_createdAt note = JDate (meta_createdAt meta)
            /\ note_updatedAt note = JDate (meta_updatedAt meta))
         (snd (upload_run st actions)).
Proof.
  intros Hmeta Hid. revert st Hmeta.
  induction actions as [|action rest IH]; intros st Hmeta; [constructor|].
  cbn [upload_run].
  destruct (upload_step st action) as [st' handed] eqn:Estep.
  assert (Hmeta' : fu_noteMeta st' = Some meta).
  { destruct action; cbn in Estep.
    - injection Estep as <- _. exact Hmeta.
    - injection Estep as <- _. exact Hmeta.
    - rewrite <- Hmeta, <- (processFiles_preserves w st). now rewrite Estep. }
  specialize (IH st' Hmeta').
  destruct (upload_run st' rest) as [final notes]. cbn [snd] in *.
  destruct handed as [note|]; [|exact IH].
  constructor; [|exact IH].
  destruct action; cbn in Estep; try discriminate.
  apply (processFiles_note w st note meta Hmeta Hid). now rewrite Estep.
Qed.

Lemma Z_toString_nonempty (z : Z) : Z_toString z <> [].
Proof. destruct (Z_toString_head z) as (c & t & -> & _). discriminate. Qed.

Lemma mounted_run_ids (created updated : Reading) (st : FileUploadState)
  (actions : list UploadAction) :
  Forall (fun note =>
            note_id note = Z_toString (now_ms created)
            /\ note_createdAt note = JDate (date_ms created)
            /\ note_updatedAt note = JDate (date_ms updated))
         (snd (upload_run (FileUpload_mount created updated st) actions)).
Proof.
  apply (upload_run_ids {| meta_id := Z_toString (now_ms created);
                           meta_createdAt := date_ms created;
                           meta_updatedAt := date_ms updated |});
    [reflexivity|apply Z_toString_nonempty].
Qed.

(** X24. A mounted upload form has one identifier: however files are
    dropped, removed and processed afterwards, and whatever the gateway
    answers each time, every note the form hands on carries the identifier
    and the two dates that the mount effect read, so that any two notes made
    by the same form have the same [id]. *)
Theorem FileUpload_one_id (created updated : Reading) (st : FileUploadState)
  (actions : list UploadAction) :
  let notes := snd (upload_run (FileUpload_mount created updated st) actions) in
  Forall (fun note =>
            note_id note = Z_toString (now_ms created)
            /\ note_createdAt note = JDate (date_ms created)
            /\ note_updatedAt note = JDate (date_ms updated))
         notes
  /\ (forall a b, In a notes -> In b notes -> note_id a = note_id b).
Proof.
  intros notes. pose proof (mounted_run_ids created updated st actions) as Hall.
  fold notes in Hall. split; [exact Hall|].
  rewrite List.Forall_forall in Hall. intros a b Ha Hb.
  destruct (Hall a Ha) as [-> _]. now destruct (Hall b Hb) as [-> _].
Qed.

Lemma file_contents_same_but_binary (files files' : list File) :
  Forall2 same_but_binary files files' ->
  file_contents files = file_contents files'.
Proof.
  induction 1 as [|a b files files' (Hname & Htype & Htext) _ IH]; [reflexivity|].
  cbn [file_contents]. rewrite IH. unfold file_content.
  rewrite <- Htype, <- Hname.
  unfold jstring_eqb. destruct (bool_decide_reflect (file_type a = u16 "text/plain")).
  - now rewrite Htext.
  - reflexivity.
Qed.

(** X25. Only plain-text files are read. When two lists of files agree on
    names and types and on the text of the plain-text files, processing them
    hands on the same note and shows the same content: what a PDF or Word
    file holds never reaches the gateway, only its name does. *)
Theorem processFiles_reads_plain_text_only (w : World) (st : FileUploadState)
  (files files' : list File) :
  Forall2 same_but_binary files files' ->
  snd (processFiles w (with_files files st))
  = snd (processFiles w (with_files files' st))
  /\ fu_generatedContent (fst (processFiles w (with_files files st)))
     = fu_generatedContent (fst (processFiles w (with_files files' st))).
Proof.
  intros Hsame. pose proof (file_contents_same_but_binary _ _ Hsame) as Hcontents.
  unfold processFiles. cbn [with_files fu_uploadedFiles fu_noteStyle fu_tags
                            fu_noteMeta fu_generatedContent].
  destruct Hsame as [|a b files files' (Hname & Htype & Htext) Hrest];
    [now split|].
  rewrite Hcontents.
  assert (Hlen : length files = length files') by (eapply Forall2_length; eauto).
  assert (Htitle : upload_title (a :: files) = upload_title (b :: files')).
  { unfold upload_title. destruct Hrest as [|a2 b2 files files' _ Hrest];
      [assumption|].
    cbn [length]. do 2 f_equal. f_equal.
    apply Forall2_length in Hrest. now rewrite Hrest. }
  assert (Hname' : match files with [] => Some (file_name a) | _ :: _ => None end
                   = match files' with [] => Some (file_name b) | _ :: _ => None end).
  { destruct Hrest; [now rewrite Hname|reflexivity]. }
  rewrite Htitle, Hname'.
  now destruct (rbind _ _).
Qed.

Lemma processFiles_reads_plain_text_only_witness :
  snd (processFiles (world_completing (u16 "- cells divide"))
         (with_files (sample_files (Err (u16 "NotReadableError"))) sample_upload))
  = snd (processFiles (world_completing (u16 "- cells divide"))
           (with_files (sample_files (Ok (u16 "%PDF-1.7 mitosis in five stages")))
                       sample_upload)).
Proof.
  refine (proj1 (processFiles_reads_plain_text_only
                   (world_completing (u16 "- cells divide")) sample_upload
                   (sample_files (Err (u16 "NotReadableError")))
                   (sample_files (Ok (u16 "%PDF-1.7 mitosis in five stages"))) _)).
  constructor; [|constructor; [|constructor]];
    (split; [reflexivity|split; [reflexivity|]]); intros H;
    first [reflexivity | vm_compute in H; discriminate].
Defined.

(** ** Notes manager *)

Lemma notes_includes_In (notes : list NoteObject) (note : NoteObject) :
  In note notes -> notes_includes notes note = true.
Proof.
  intros Hin. unfold notes_includes. apply existsb_exists.
  exists note. split; [assumption|apply Nat.eqb_refl].
Qed.

Lemma notes_includes_address (notes : list NoteObject) (note : NoteObject) :
  notes_includes notes note = true <-> In (fst note) (map fst notes).
Proof.
  unfold notes_includes. rewrite existsb_exists, in_map_iff. split.
  - intros (other & Hin & Heq). apply Nat.eqb_eq in Heq. eauto.
  - intros (other & Heq & Hin). exists other. split; [assumption|].
    now apply Nat.eqb_eq.
Qed.

Lemma filter_none {A} (f : A -> bool) (l : list A) :
  (forall x, In x l -> f x = false) -> List.filter f l = [].
Proof.
  induction l as [|x l IH]; intros H; [reflexivity|]. cbn.
  rewrite (H x) by now left. apply IH. intros y Hy. apply H. now right.
Qed.

Lemma notesToSave_saved (app : NotesApp) :
  notesToSave app
  = List.filter (fun note => negb (notes_includes (generatedNotes app) note))
                (savedNotes app).
Proof.
  unfold notesToSave, allNotes. rewrite List.filter_app.
  rewrite filter_none; [reflexivity|].
  intros note Hin. now rewrite notes_includes_In.
Qed.

Lemma notesToSave_separate (app : NotesApp) :
  separate app -> notesToSave app = savedNotes app.
Proof.
  intros [_ Hsep]. rewrite notesToSave_saved. apply filter_all.
  intros note Hin. rewrite List.Forall_forall in Hsep.
  now rewrite (Hsep note Hin).
Qed.

Lemma replace_note_length (noteId : jstring) (updatedNote : NoteObject)
  (prev : list NoteObject) :
  length (replace_note noteId updatedNote prev) = length prev.
Proof. apply length_map. Qed.

Lemma replace_note_addresses (noteId : jstring) (updatedNote : NoteObject)
  (prev : list NoteObject) (note : NoteObject) :
  In note (replace_note noteId updatedNote prev) ->
  note = updatedNote \/ In note prev.
Proof.
  unfold replace_note. intros Hin. apply in_map_iff in Hin as (old & <- & Hold).
  destruct (has_id noteId old); [now left|now right].
Qed.

Lemma notes_includes_false (notes : list NoteObject) (note : NoteObject) :
  notes_includes notes note = false <->
  (forall other, In other notes -> fst other <> fst note).
Proof.
  unfold notes_includes. split.
  - intros H other Hin Heq.
    assert (existsb (fun o => (fst o =? fst note)%nat) notes = true).
    { apply existsb_exists. exists other. split; [assumption|].
      now apply Nat.eqb_eq. }
    congruence.
  - intros H.
    destruct (existsb (fun o => (fst o =? fst note)%nat) notes) eqn:E;
      [|reflexivity].
    apply existsb_exists in E as (other & Hin & Heq).
    apply Nat.eqb_eq in Heq. now destruct (H other Hin).
Qed.

Lemma separate_step (app : NotesApp) (action : NotesAction) :
  separate app -> separate (notes_step app action).
Proof.
  intros [Hbound Hsep]. unfold allNotes in Hbound.
  apply Forall_app in Hbound as [Hgen Hsaved].
  rewrite List.Forall_forall in Hgen, Hsaved, Hsep.
  assert (Hsep' : forall note other,
             In note (savedNotes app) -> In other (generatedNotes app) ->
             fst other <> fst note).
  { intros note other Hn Ho. exact (proj1 (notes_includes_false _ _) (Hsep note Hn) other Ho). }
  destruct action as [notes|noteId|r noteData]; cbn [notes_step].
  - split; unfold allNotes; cbn [handleNotesGenerated generatedNotes savedNotes allocated].
    + apply List.Forall_forall. intros note [<-|Hin]; [cbn; lia|].
      apply in_app_or in Hin as [Hin|Hin]; [specialize (Hgen _ Hin)|specialize (Hsaved _ Hin)]; lia.
    + apply List.Forall_forall. intros note Hin. apply notes_includes_false.
      intros other [<-|Ho]; [cbn; specialize (Hsaved _ Hin); lia|].
      now apply Hsep'.
  - split; unfold allNotes; cbn [deleteNote generatedNotes savedNotes allocated].
    + apply List.Forall_forall. intros note Hin.
      apply in_app_or in Hin as [Hin|Hin]; apply List.filter_In in Hin as [Hin _];
        [now apply Hgen|now apply Hsaved].
    + apply List.Forall_forall. intros note Hin. apply List.filter_In in Hin as [Hin _].
      apply notes_includes_false. intros other Ho.
      apply List.filter_In in Ho as [Ho _]. now apply Hsep'.
  - unfold saveNote.
    destruct (existsb (has_id (note_id noteData)) (generatedNotes app));
      split; unfold allNotes; cbn [generatedNotes savedNotes allocated].
    + apply List.Forall_forall. intros note Hin.
      apply in_app_or in Hin as [Hin|Hin].
      * apply replace_note_addresses in Hin as [->|Hin]; [cbn; lia|].
        specialize (Hgen _ Hin). lia.
      * specialize (Hsaved _ Hin). lia.
    + apply List.Forall_forall. intros note Hin. apply notes_includes_false.
      intros other Ho. apply replace_note_addresses in Ho as [->|Ho].
      * cbn. specialize (Hsaved _ Hin). lia.
      * now apply Hsep'.
    + apply List.Forall_forall. intros note Hin.
      apply in_app_or in Hin as [Hin|Hin].
      * specialize (Hgen _ Hin). lia.
      * apply replace_note_addresses in Hin as [->|Hin]; [cbn; lia|].
        specialize (Hsaved _ Hin). lia.
    + apply List.Forall_forall. intros note Hin. apply notes_includes_false.
      intros other Ho. apply replace_note_addresses in Hin as [->|Hin].
      * cbn. specialize (Hgen _ Ho). lia.
      * now apply Hsep'.
Qed.

Lemma saved_step_length (app : NotesApp) (action : NotesAction) :
  (length (savedNotes (notes_step app action)) <= length (savedNotes app))%nat.
Proof.
  destruct action as [notes|noteId|r noteData]; cbn [notes_step].
  - reflexivity.
  - apply filter_length_le.
  - unfold saveNote. destruct (existsb _ _); cbn [savedNotes]; [reflexivity|].
    now rewrite replace_note_length.
Qed.

Lemma notes_run_invariant (app : NotesApp) (actions : list NotesAction) :
  separate app ->
  separate (notes_run app actions)
  /\ (length (savedNotes (notes_run app actions)) <= length (savedNotes app))%nat.
Proof.
  unfold notes_run. revert app.
  induction actions as [|action rest IH]; intros app Hsep; [now split|].
  cbn [fold_left].
  destruct (IH (notes_step app action) (separate_step _ _ Hsep)) as [H1 H2].
  split; [assumption|]. pose proof (saved_step_length app action). lia.
Qed.

(** X26. The saving effect of the notes manager never writes a note the
    session has generated. Starting from a page on which no object is in both
    lists, and whatever notes are then generated, deleted or edited, the
    effect writes exactly the saved notes, of which there are never more than
    at the start; so a user whose storage held no notes finds the text [[]]
    under "studyNotes" after every change. *)
Theorem session_notes_never_stored (app : NotesApp) (actions : list NotesAction)
  (storage : gmap (list N) (list N)) :
  separate app ->
  let app' := notes_run app actions in
  (forall note, In note (generatedNotes app') -> ~ In note (notesToSave app'))
  /\ notesToSave app' = savedNotes app'
  /\ (length (savedNotes app') <= length (savedNotes app))%nat
  /\ getItem STUDY_NOTES_KEY (NotesManager_save app' storage)
     = Some (stringify (notes_value (savedNotes app')))
  /\ (savedNotes app = [] ->
      getItem STUDY_NOTES_KEY (NotesManager_save app' storage) = Some (u16 "[]")).
Proof.
  intros Hsep app'.
  destruct (notes_run_invariant app actions Hsep) as [Hsep' Hlen].
  fold app' in Hsep', Hlen.
  pose proof (notesToSave_separate app' Hsep') as Hsave.
  assert (Hwrite : getItem STUDY_NOTES_KEY (NotesManager_save app' storage)
                   = Some (stringify (notes_value (savedNotes app')))).
  { unfold NotesManager_save, save_collection, getItem, setItem.
    now rewrite lookup_insert_eq, Hsave. }
  split; [|split; [assumption|split; [assumption|split; [assumption|]]]].
  - intros note Hin Hin'. rewrite notesToSave_saved in Hin'.
    apply List.filter_In in Hin' as [_ Hneg].
    now rewrite (notes_includes_In _ _ Hin) in Hneg.
  - intros Hempty. rewrite Hwrite. rewrite Hempty in Hlen.
    destruct (savedNotes app'); [reflexivity|cbn in Hlen; lia].
Qed.

Lemma separate_empty_notes : separate empty_notes.
Proof. split; constructor. Qed.

Lemma session_notes_never_stored_witness :
  getItem STUDY_NOTES_KEY
    (NotesManager_save
       (notes_run empty_notes
          [Generated (sample_note "1700000000000" "Cells");
           Saved sample_reading (sample_note "1700000000000" "Cell division");
           Generated (sample_note "1700000000777" "Enzymes")])
       ∅)
  = Some (u16 "[]").
Proof.
  apply (session_notes_never_stored empty_notes _ ∅ separate_empty_notes).
  reflexivity.
Defined.

Lemma received_notes (notes : list NoteData) (app : NotesApp) :
  map snd (generatedNotes (received notes app))
  = rev notes ++ map snd (generatedNotes app)
  /\ savedNotes (received notes app) = savedNotes app.
Proof.
  unfold received. revert app.
  induction notes as [|note notes IH]; intros app; [now split|].
  cbn [fold_left rev]. destruct (IH (handleNotesGenerated note app)) as [-> ->].
  cbn [handleNotesGenerated generatedNotes savedNotes map snd].
  split; [|reflexivity]. now rewrite <- app_assoc.
Qed.

Lemma deleteNote_remaining (noteId : jstring) (app : NotesApp) :
  Forall (fun note => note_id (snd note) <> noteId)
         (allNotes (deleteNote noteId app)).
Proof.
  unfold allNotes, deleteNote. cbn [generatedNotes savedNotes].
  rewrite <- List.filter_app. apply List.Forall_forall. intros note Hin.
  apply List.filter_In in Hin as [_ Hneg]. unfold has_id, same_id in Hneg.
  intros Heq. rewrite Heq, jstring_eqb_refl in Hneg. discriminate.
Qed.

Lemma filter_map_length {A B} (f : A -> B) (p : B -> bool) (l : list A) :
  length (List.filter (fun x => p (f x)) l) = length (List.filter p (map f l)).
Proof.
  induction l as [|x l IH]; [reflexivity|]. cbn.
  destruct (p (f x)); cbn; now rewrite IH.
Qed.

Lemma deleteNote_generated_length (noteId : jstring) (app : NotesApp) :
  length (generatedNotes (deleteNote noteId app))
  = length (List.filter (fun data => negb (same_id (note_id data) noteId))
                        (map snd (generatedNotes app))).
Proof.
  unfold deleteNote. cbn [generatedNotes].
  exact (filter_map_length snd
           (fun data => negb (same_id (note_id data) noteId)) _).
Qed.

(** X27. [deleteNote(id)] leaves no note with that identifier in either
    list. As the notes of one upload form share their identifier, deleting
    one of them deletes all of them once they have reached the page: none of
    them is left, and no more generated notes are left than there were
    before the form handed on its first. *)
Theorem deleteNote_takes_all_of_a_form (created updated : Reading)
  (st : FileUploadState) (actions : list UploadAction) (app : NotesApp)
  (note : NoteData) :
  let notes := snd (upload_run (FileUpload_mount created updated st) actions) in
  In note notes ->
  let app' := deleteNote (note_id note) (received notes app) in
  Forall (fun remaining => note_id (snd remaining) <> note_id note
                           /\ ~ In (snd remaining) notes)
         (allNotes app')
  /\ (length (generatedNotes app') <= length (generatedNotes app))%nat
  /\ allocated app' = (allocated app + length notes)%nat.
Proof.
  intros notes Hin app'.
  pose proof (mounted_run_ids created updated st actions) as Hids.
  fold notes in Hids. rewrite List.Forall_forall in Hids.
  assert (Hsame : forall other, In other notes -> note_id other = note_id note).
  { intros other Ho. destruct (Hids other Ho) as [-> _].
    now destruct (Hids note Hin) as [-> _]. }
  split; [|split].
  - pose proof (deleteNote_remaining (note_id note) (received notes app)) as Hrem.
    fold app' in Hrem. eapply List.Forall_impl; [|exact Hrem].
    intros remaining Hne. split; [assumption|].
    intros Ho. apply Hne. now apply Hsame.
  - unfold app'. rewrite deleteNote_generated_length.
    destruct (received_notes notes app) as [-> _].
    rewrite List.filter_app, length_app.
    rewrite filter_none.
    + cbn [length]. etransitivity; [apply filter_length_le|].
      now rewrite length_map.
    + intros other Ho. apply in_rev in Ho.
      unfold same_id. now rewrite (Hsame other Ho), jstring_eqb_refl.
  - unfold app', deleteNote. cbn [allocated]. unfold received.
    clear. generalize dependent app. induction notes as [|n ns IH]; intros app.
    + cbn. lia.
    + cbn [fold_left length]. rewrite IH. cbn. lia.
Qed.

Lemma deleteNote_takes_all_of_a_form_witness :
  (length (generatedNotes
             (deleteNote (note_id (hd (sample_note "" "") sample_upload_notes))
                         (received sample_upload_notes empty_notes)))
   <= length (generatedNotes empty_notes))%nat.
Proof.
  apply (deleteNote_takes_all_of_a_form sample_reading sample_reading
           sample_unmounted sample_upload_actions empty_notes
           (hd (sample_note "" "") sample_upload_notes)).
  vm_compute. left. reflexivity.
Defined.

Lemma replace_note_lookup (noteId : jstring) (updatedNote note : NoteObject)
  (prev : list NoteObject) (i : nat) :
  prev !! i = Some note ->
  replace_note noteId updatedNote prev !! i
  = Some (if has_id noteId note then updatedNote else note).
Proof.
  intros Hi. unfold replace_note. now rewrite list_lookup_fmap, Hi.
Qed.

Lemma replace_note_absent (noteId : jstring) (updatedNote : NoteObject)
  (prev : list NoteObject) :
  existsb (has_id noteId) prev = false ->
  replace_note noteId updatedNote prev = prev.
Proof.
  induction prev as [|note prev IH]; [reflexivity|]. cbn [existsb replace_note map].
  intros H. apply orb_false_elim in H as [-> Hrest].
  f_equal. now apply IH.
Qed.

(** X28. [saveNote] changes one of the two lists and never their lengths.
    When some generated note has the identifier of the edited note, every
    generated note with that identifier becomes the one updated object and
    the saved notes stay as they are, also those with the same identifier;
    otherwise the same happens in the saved notes. Notes with another
    identifier keep their place and their fields; when no note has the
    identifier the edit is lost. The updated object has the fields of the
    edited note and the time of saving as [updatedAt]. *)
Theorem saveNote_spec (r : Reading) (noteData : NoteData) (app : NotesApp) :
  let app' := saveNote r noteData app in
  let updatedNote := (allocated app, updated r noteData) in
  let among_generated := existsb (has_id (note_id noteData)) (generatedNotes app) in
  length (generatedNotes app') = length (generatedNotes app)
  /\ length (savedNotes app') = length (savedNotes app)
  /\ (forall i note,
        generatedNotes app !! i = Some note ->
        generatedNotes app' !! i
        = Some (if has_id (note_id noteData) note then updatedNote else note))
  /\ (forall i note,
        savedNotes app !! i = Some note ->
        savedNotes app' !! i
        = Some (if has_id (note_id noteData) note && negb among_generated
                then updatedNote else note))
  /\ (existsb (has_id (note_id noteData)) (allNotes app) = false ->
      generatedNotes app' = generatedNotes app
      /\ savedNotes app' = savedNotes app)
  /\ note_updatedAt (snd updatedNote) = JDate (date_ms r)
  /\ note_id (snd updatedNote) = note_id noteData
  /\ note_title (snd updatedNote) = note_title noteData
  /\ note_content (snd updatedNote) = note_content noteData
  /\ note_tags (snd updatedNote) = note_tags noteData
  /\ note_createdAt (snd updatedNote) = note_createdAt noteData.
Proof.
  intros app' updatedNote among.
  repeat match goal with |- _ /\ _ => split end; try reflexivity.
  - unfold app', saveNote. destruct (existsb _ _); cbn [generatedNotes];
      [apply replace_note_length|reflexivity].
  - unfold app', saveNote. destruct (existsb _ _); cbn [savedNotes];
      [reflexivity|apply replace_note_length].
  - intros i note Hi. unfold app', saveNote.
    destruct (existsb _ _) eqn:E; cbn [generatedNotes].
    + now apply replace_note_lookup.
    + transitivity (Some note); [exact Hi|f_equal].
      destruct (has_id (note_id noteData) note) eqn:Hid; [|reflexivity].
      assert (existsb (has_id (note_id noteData)) (generatedNotes app) = true).
      { apply existsb_exists. exists note. split; [|assumption].
        apply list_elem_of_In. now apply list_elem_of_lookup_2 in Hi. }
      congruence.
  - intros i note Hi. unfold app', saveNote, among.
    destruct (existsb _ _) eqn:E; cbn [savedNotes negb].
    + rewrite andb_false_r. exact Hi.
    + rewrite andb_true_r. now apply replace_note_lookup.
  - intros H. unfold allNotes in H. rewrite existsb_app in H.
    apply orb_false_elim in H as [Hgen Hsaved].
    unfold app', saveNote. rewrite Hgen. cbn [generatedNotes savedNotes].
    split; [reflexivity|now apply replace_note_absent].
Qed.

(** ** The tags field of the edit dialog *)

Lemma split_on_app_sep (sep : N) (s rest : jstring) :
  ~ In sep s -> split_on sep (s ++ sep :: rest) = s :: split_on sep rest.
Proof.
  induction s as [|c s IH]; intros Hno.
  - cbn [app split_on]. now rewrite N.eqb_refl.
  - cbn [app split_on]. destruct (N.eqb_spec c sep) as [->|_].
    + exfalso. apply Hno. now left.
    + rewrite IH; [reflexivity|]. intros H. apply Hno. now right.
Qed.

(** A tag as [parse_tags] gives it. *)
Lemma parse_tags_clean (tags : jstring) :
  Forall (fun tag => tag <> [] /\ trim tag = tag /\ ~ In COMMA tag)
         (parse_tags tags).
Proof.
  unfold parse_tags. apply List.Forall_forall. intros tag Hin.
  apply List.filter_In in Hin as [Hin Hne].
  apply in_map_iff in Hin as (piece & <- & Hpiece).
  pose proof (split_on_segments COMMA tags) as Hseg.
  rewrite List.Forall_forall in Hseg.
  destruct (Hseg piece Hpiece) as [Hno _].
  destruct (trim_inside piece) as (lead & trail & Hp).
  split; [|split].
  - intros E. rewrite E in Hne. discriminate.
  - apply trim_idempotent.
  - intros Hc. apply Hno. rewrite Hp.
    apply in_or_app. right. apply in_or_app. now left.
Qed.

Lemma split_on_join (pre tag : jstring) (tags : list jstring) :
  ~ In COMMA pre ->
  Forall (fun tag => ~ In COMMA tag) (tag :: tags) ->
  split_on COMMA (pre ++ join (u16 ", ") (tag :: tags))
  = (pre ++ tag) :: map (cons 32) tags.
Proof.
  revert pre tag. induction tags as [|tag2 tags IH]; intros pre tag Hpre Hall.
  - cbn [join map]. apply split_on_whole.
    apply Forall_cons in Hall as [Htag _].
    intros H. apply in_app_or in H as [H|H]; tauto.
  - apply Forall_cons in Hall as [Htag Hrest].
    change (join (u16 ", ") (tag :: tag2 :: tags))
      with (tag ++ COMMA :: [32] ++ join (u16 ", ") (tag2 :: tags)).
    rewrite app_assoc, split_on_app_sep.
    + rewrite (IH [32] tag2); [reflexivity| |assumption].
      intros [H|[]]. discriminate.
    + intros H. apply in_app_or in H as [H|H]; tauto.
Qed.

Lemma parse_tags_join (tags : list jstring) :
  Forall (fun tag => tag <> [] /\ trim tag = tag /\ ~ In COMMA tag) tags ->
  parse_tags (join (u16 ", ") tags) = tags.
Proof.
  intros Hall. destruct tags as [|tag tags]; [reflexivity|].
  unfold parse_tags.
  change (join (u16 ", ") (tag :: tags))
    with ([] ++ join (u16 ", ") (tag :: tags)).
  rewrite (split_on_join [] tag tags); [|tauto|].
  - cbn [app map]. rewrite map_map.
    assert (Hmap : map (fun t => trim (32 :: t)) tags = tags).
    { apply Forall_cons in Hall as [_ Hrest].
      induction Hrest as [|t ts (_ & Ht & _) _ IH]; [reflexivity|].
      cbn [map]. rewrite IH. f_equal. exact Ht. }
    rewrite Hmap. apply Forall_cons in Hall as [(Hne & Htrim & _) Hrest].
    rewrite Htrim. apply filter_all.
    intros t [<-|Hin].
    + now destruct tag.
    + rewrite List.Forall_forall in Hrest.
      destruct (Hrest t Hin) as [Ht _]. now destruct t.
  - eapply List.Forall_impl; [|exact Hall]. intros t (_ & _ & H). exact H.
Qed.

(** X29. The edit dialog shows the tags joined by a comma and a space and
    reads them back with the same parsing as the forms. For tags that came
    from that parsing this is a round trip, so saving a note from the dialog
    without touching its fields hands [saveNote] the very note that was
    opened; only [updatedAt] changes. *)
Theorem handleSave_unedited (r : Reading) (note : NoteData) (field : jstring)
  (app : NotesApp) :
  note_tags note = parse_tags field ->
  parse_tags (tagsString (open_dialog note)) = note_tags note
  /\ handleSave r (open_dialog note) app = saveNote r note app.
Proof.
  intros Htags.
  assert (Hround : parse_tags (tagsString (open_dialog note)) = note_tags note).
  { cbn [open_dialog tagsString]. rewrite Htags.
    apply parse_tags_join, parse_tags_clean. }
  split; [exact Hround|].
  unfold handleSave. rewrite Hround. cbn [open_dialog editedNote].
  now destruct note.
Qed.

Lemma handleSave_unedited_witness :
  handleSave sample_reading (open_dialog (sample_note "1700000000000" "Cells"))
    (handleNotesGenerated (sample_note "1700000000000" "Cells") empty_notes)
  = saveNote sample_reading (sample_note "1700000000000" "Cells")
      (handleNotesGenerated (sample_note "1700000000000" "Cells") empty_notes).
Proof.
  apply (handleSave_unedited sample_reading
           (sample_note "1700000000000" "Cells") (u16 " biology ,")).
  reflexivity.
Defined.

(** ** Flashcard viewer *)

Lemma js_rem_next (i n : Z) :
  (0 <= i < n)%Z ->
  js_rem (i + 1) n = Some (if (i + 1 =? n)%Z then 0 else i + 1)%Z.
Proof.
  intros Hi. unfold js_rem. destruct (Z.eqb_spec n 0); [lia|]. f_equal.
  destruct (Z.eqb_spec (i + 1) n) as [->|Hne].
  - apply Z.rem_same. lia.
  - apply Z.rem_small. lia.
Qed.

Lemma js_rem_prev (i n : Z) :
  (0 <= i < n)%Z ->
  js_rem (i - 1 + n) n = Some (if (i =? 0)%Z then n - 1 else i - 1)%Z.
Proof.
  intros Hi. unfold js_rem. destruct (Z.eqb_spec n 0); [lia|]. f_equal.
  destruct (Z.eqb_spec i 0) as [->|Hne].
  - replace (0 - 1 + n)%Z with (n - 1)%Z by lia. apply Z.rem_small. lia.
  - rewrite Z.rem_mod_nonneg by lia.
    replace (i - 1 + n)%Z with (i - 1 + 1 * n)%Z by lia.
    rewrite Z.mod_add by lia. apply Z.mod_small. lia.
Qed.

Lemma generateCards_suffix (w : World) (readings : nat -> Reading)
  (st : FlashcardState) :
  exists newCards,
    fc_flashcards (generateCards w readings st) = newCards ++ fc_flashcards st.
Proof.
  unfold generateCards. destruct (negb _); [now exists []|].
  destruct (generateFlashcards w _ _) as [[]|]; cbn [fc_flashcards];
    try (now exists []). eauto.
Qed.

(** The index points at a card, or the deck is empty and the index is 0. *)
Lemma card_click_in_range (v : CardViewer) (c : CardClick) (i : Z) :
  currentIndex v = Some i ->
  (0 <= i)%Z -> (i < deck_size v \/ i = 0 /\ deck_size v = 0)%Z ->
  exists j, currentIndex (card_click v c) = Some j
            /\ (0 <= j)%Z
            /\ (j < deck_size (card_click v c)
                \/ j = 0 /\ deck_size (card_click v c) = 0)%Z
            /\ (deck_size v <= deck_size (card_click v c))%Z.
Proof.
  intros Hidx Hnonneg Hrange. destruct c as [w readings| | |]; cbn [card_click].
  - exists i. cbn [currentIndex]. split; [assumption|]. split; [assumption|].
    unfold deck_size in *. cbn [cards].
    destruct (generateCards_suffix w readings (cards v)) as [newCards ->].
    rewrite length_app. lia.
  - unfold deck_size in *.
    destruct (Nat.leb_spec (length (fc_flashcards (cards v))) 1).
    + exists i. repeat split; try assumption. lia.
    + assert (Hi : (0 <= i < deck_size v)%Z) by (unfold deck_size; lia).
      exists (if (i + 1 =? deck_size v)%Z then 0 else i + 1)%Z.
      cbn [nextCard currentIndex cards]. rewrite Hidx.
      split; [now apply js_rem_next|]. fold (deck_size v).
      destruct (Z.eqb_spec (i + 1) (deck_size v)); lia.
  - unfold deck_size in *.
    destruct (Nat.leb_spec (length (fc_flashcards (cards v))) 1).
    + exists i. repeat split; try assumption. lia.
    + assert (Hi : (0 <= i < deck_size v)%Z) by (unfold deck_size; lia).
      exists (if (i =? 0)%Z then deck_size v - 1 else i - 1)%Z.
      cbn [prevCard currentIndex cards]. rewrite Hidx.
      split; [now apply js_rem_prev|]. fold (deck_size v).
      destruct (Z.eqb_spec i 0); lia.
  - exists i. cbn [currentIndex cards].
    split; [assumption|]. split; [assumption|].
    split; [exact Hrange|unfold deck_size; cbn [cards]; lia].
Qed.

Lemma card_clicks_in_range (cs : list CardClick) (v : CardViewer) (i : Z) :
  currentIndex v = Some i ->
  (0 <= i)%Z -> (i < deck_size v \/ i = 0 /\ deck_size v = 0)%Z ->
  exists j, currentIndex (card_clicks v cs) = Some j
            /\ (0 <= j)%Z
            /\ (j < deck_size (card_clicks v cs)
                \/ j = 0 /\ deck_size (card_clicks v cs) = 0)%Z
            /\ (deck_size v <= deck_size (card_clicks v cs))%Z.
Proof.
  unfold card_clicks. revert v i.
  induction cs as [|c cs IH]; intros v i Hidx Hnonneg Hrange.
  - exists i. cbn. repeat split; try assumption. lia.
  - cbn [fold_left].
    destruct (card_click_in_range v c i Hidx Hnonneg Hrange)
      as (j & Hj & Hj0 & Hjr & Hgrow).
    destruct (IH (card_click v c) j Hj Hj0 Hjr) as (k & Hk & Hk0 & Hkr & Hgrow').
    exists k. repeat split; try assumption. lia.
Qed.

Lemma currentCard_in_range (v : CardViewer) (i : Z) :
  currentIndex v = Some i -> (0 <= i < deck_size v)%Z ->
  exists card, currentCard v = Some card.
Proof.
  intros Hidx Hi. unfold currentCard. rewrite Hidx.
  destruct (Z.leb_spec 0 i); [|lia].
  apply lookup_lt_is_Some_2. unfold deck_size in Hi. lia.
Qed.

(** X30. Moving through the cards. On a card of a deck, "Next" goes to the
    following card and from the last to the first, "Previous" goes to the
    preceding card and from the first to the last; each undoes the other.
    However the user then generates, moves and flips, the index stays on a
    card of the deck: there is always a current card to show. The viewer as
    it starts, on the first card, has this property as soon as the deck is
    not empty. *)
Theorem card_navigation (v : CardViewer) (i : Z) :
  currentIndex v = Some i ->
  (0 <= i < deck_size v)%Z ->
  currentIndex (nextCard v)
  = Some (if (i + 1 =? deck_size v)%Z then 0 else i + 1)%Z
  /\ currentIndex (prevCard v)
     = Some (if (i =? 0)%Z then deck_size v - 1 else i - 1)%Z
  /\ currentIndex (prevCard (nextCard v)) = Some i
  /\ currentIndex (nextCard (prevCard v)) = Some i
  /\ isFlipped (nextCard v) = false
  /\ isFlipped (prevCard v) = false
  /\ (forall clicks,
        exists j card,
          currentIndex (card_clicks v clicks) = Some j
          /\ (0 <= j < deck_size (card_clicks v clicks))%Z
          /\ currentCard (card_clicks v clicks) = Some card).
Proof.
  intros Hidx Hi.
  assert (Hnext : currentIndex (nextCard v)
                  = Some (if (i + 1 =? deck_size v)%Z then 0 else i + 1)%Z).
  { cbn [nextCard currentIndex]. rewrite Hidx. now apply js_rem_next. }
  assert (Hprev : currentIndex (prevCard v)
                  = Some (if (i =? 0)%Z then deck_size v - 1 else i - 1)%Z).
  { cbn [prevCard currentIndex]. rewrite Hidx. now apply js_rem_prev. }
  split; [exact Hnext|]. split; [exact Hprev|].
  split; [|split; [|split; [reflexivity|split; [reflexivity|]]]].
  - cbn [prevCard currentIndex]. rewrite Hnext.
    change (deck_size (nextCard v)) with (deck_size v).
    rewrite js_rem_prev by (destruct (Z.eqb_spec (i + 1) (deck_size v)); lia).
    f_equal. destruct (Z.eqb_spec (i + 1) (deck_size v));
      [rewrite Z.eqb_refl; lia|].
    destruct (Z.eqb_spec (i + 1) 0); lia.
  - cbn [nextCard currentIndex]. rewrite Hprev.
    change (deck_size (prevCard v)) with (deck_size v).
    rewrite js_rem_next by (destruct (Z.eqb_spec i 0); lia).
    f_equal. destruct (Z.eqb_spec i 0) as [->|Hne].
    + destruct (Z.eqb_spec (deck_size v - 1 + 1) (deck_size v)); lia.
    + destruct (Z.eqb_spec (i - 1 + 1) (deck_size v)); lia.
  - intros clicks.
    destruct (card_clicks_in_range clicks v i Hidx) as (j & Hj & Hj0 & Hjr & Hgrow);
      [lia|lia|].
    assert (Hin : (0 <= j < deck_size (card_clicks v clicks))%Z) by lia.
    destruct (currentCard_in_range _ j Hj Hin) as [card Hcard].
    now exists j, card.
Qed.

Lemma card_navigation_witness :
  currentIndex (nextCard (nextCard sample_viewer)) = Some 0%Z.
Proof.
  assert (H : currentIndex (nextCard sample_viewer) = Some 1%Z).
  { refine (proj1 (card_navigation sample_viewer 0 eq_refl _)).
    vm_compute. split; congruence. }
  refine (proj1 (card_navigation (nextCard sample_viewer) 1 H _)).
  vm_compute. split; congruence.
Defined.

(** ** The quiz through the interface *)











(** The condition on the calls is needed: when a call returns during a quiz,
    its questions go in front of the current one, and the quiz is finished
    without them having been shown. *)
Lemma generation_during_a_quiz :
  exists result,
    Runtime.quizResults
      (Runtime.quiz (Runtime.events plain_engine (mounted two_older_questions)
                                    disturbed_events))
    = [Runtime.Built result]
    /\ map Runtime.selectedAnswer (Runtime.answers result)
       = [Runtime.Index (-1); Runtime.Index 1; Runtime.Index 0].
Proof. eexists. split; reflexivity. Qed.

(** ** The typed handlers are the run-time handlers on well-formed questions *)

Lemma answer_record_typed (js : Runtime.Engine) (selected : gmap (list N) Z)
  (q : MCQuestion) :
  Runtime.inherited (mcq_id q) = false ->
  Runtime.answer_record js selected (MCQuestion_value q)
  = Ok (Answer_runtime (answer_record selected q)).
Proof.
  intros Hinh.
  unfold MCQuestion_value.
  rewrite (answer_record_object js selected _ (mcq_id q)) by reflexivity.
  unfold Answer_runtime, answer_record, Runtime.get_selected.
  cbn [questionId selectedAnswer correct].
  destruct (selected !! mcq_id q) as [x|]; cbn [default].
  - reflexivity.
  - now rewrite Hinh.
Qed.

Lemma finishQuiz_typed (js : Runtime.Engine) (r : Reading) (st : QuizState) :
  Forall (fun q => Runtime.inherited (mcq_id q) = false) (questions st) ->
  Runtime.finishQuiz js r (QuizState_runtime st)
  = QuizState_runtime (finishQuiz r st).
Proof.
  intros Hall. unfold Runtime.finishQuiz.
  cbn [QuizState_runtime Runtime.questions Runtime.selectedAnswers
       Runtime.quizResults].
  assert (Hmap : Runtime.map_throwing
                   (Runtime.answer_record js (selectedAnswers st))
                   (map MCQuestion_value (questions st))
                 = Ok (map Answer_runtime
                           (map (answer_record (selectedAnswers st)) (questions st)))).
  { induction Hall as [|q qs Hq _ IH]; [reflexivity|].
    cbn [map Runtime.map_throwing].
    now rewrite (answer_record_typed js _ q Hq), IH. }
  rewrite Hmap. unfold QuizState_runtime, finishQuiz.
  cbn [questions selectedAnswers showResults quizResults map].
  f_equal. f_equal. unfold QuizResult_runtime.
  cbn [result_id score totalQuestions answers completedAt].
  rewrite !filter_map_comm, length_map. reflexivity.
Qed.

(** ** The store as a whole *)



